(** * Pharmacy student club website: client-side behaviour layer

    A shallow embedding of [src/app.js] and [src/script.js] and the
    properties of the bilingual (English/Arabic) content-application
    routine, the gallery cursor, the form validator and the content loader.

    Layout: the JavaScript primitives the two scripts rely on ([Js]), the
    embedding of [app.js] ([App]) and of [script.js] ([Script]), the
    specification-side definitions ([Spec]), then the theorems. *)

From Stdlib Require Import ZArith NArith Lia Ascii String List.
From Stdlib Require Floats.
From stdpp Require Import gmap strings list fin_maps.

Open Scope string_scope.
Set Warnings "-register-all".

(** ** JavaScript primitives *)

Module Js.

(** How a call ends: it returns, or an exception escapes it.  Both carry
    the state reached, since the effects made before a [throw] stay. *)
Inductive completion (S : Type) : Type :=
| Normal (s : S)
| Throw (s : S).
Arguments Normal {S} s.
Arguments Throw {S} s.

Definition state_of {S} (c : completion S) : S :=
  match c with Normal s | Throw s => s end.

Definition returns {S} (c : completion S) : bool :=
  match c with Normal _ => true | Throw _ => false end.

Definition bind {S} (c : completion S) (k : S -> completion S) : completion S :=
  match c with Normal s => k s | Throw s => Throw s end.

(** [list.forEach(f)] where [f] may raise ([None]): the elements before
    the one [f] raises on have been visited, the others are as they
    were. *)
Fixpoint forEach {A} (f : A -> option A) (l : list A) : completion (list A) :=
  match l with
  | [] => Normal []
  | x :: rest =>
      match f x with
      | Some y =>
          match forEach f rest with
          | Normal rest' => Normal (y :: rest')
          | Throw rest' => Throw (y :: rest')
          end
      | None => Throw (x :: rest)
      end
  end.

(** Strings that the scripts only compare, test for emptiness or search
    for an ASCII pattern are kept as UTF-8 byte strings; these three
    operations do not depend on the encoding. *)

(** [ToBoolean] on a string. *)
Definition truthy (s : string) : bool := negb (String.eqb s "").

(** [ToBoolean] on a string-or-null value. *)
Definition truthy_opt (o : option string) : bool :=
  match o with Some s => truthy s | None => false end.

(** [a || b] on string-or-null operands. *)
Definition or_else (a b : option string) : option string :=
  if truthy_opt a then a else b.

(** [s.startsWith(p)] *)
Definition startsWith (s p : string) : bool := String.prefix p s.

(** [s.includes(p)] *)
Fixpoint includes (s p : string) : bool :=
  String.prefix p s ||
  match s with
  | EmptyString => false
  | String _ s' => includes s' p
  end.

(** ASCII lower case, as the DOM applies it to the name of an attribute
    of an HTML element before looking the attribute up. *)
Definition lowerChar (a : ascii) : ascii :=
  let n := N_of_ascii a in
  if ((65 <=? n) && (n <=? 90))%N then ascii_of_N (n + 32) else a.

Fixpoint lower (s : string) : string :=
  match s with
  | EmptyString => EmptyString
  | String a s' => String (lowerChar a) (lower s')
  end.

(** [element.getAttribute(name)] on an HTML element: the attribute whose
    name is [name] in lower case; [None] for null. *)
Definition getAttribute (name : string) (attrs : gmap string string) : option string :=
  attrs !! lower name.

(** Numbers of the gallery cursor: integers, or NaN. *)
Inductive number : Type :=
| Num (z : Z)
| NaN.

Definition add (a b : number) : number :=
  match a, b with
  | Num x, Num y => Num (x + y)
  | _, _ => NaN
  end.

Definition sub (a b : number) : number :=
  match a, b with
  | Num x, Num y => Num (x - y)
  | _, _ => NaN
  end.

(** [a % b]: the remainder takes the sign of the dividend, and a zero
    divisor gives NaN. *)
Definition rem (a b : number) : number :=
  match a, b with
  | Num x, Num y => if Z.eqb y 0 then NaN else Num (Z.rem x y)
  | _, _ => NaN
  end.

(** Scroll offsets are doubles and are kept as such, with the rounding
    of their arithmetic.  [ofLong] is the double of a whole number; it is
    exact on the range of the DOM's [long]. *)
Definition ofLong (z : Z) : PrimFloat.float :=
  if Z.ltb z 0
  then PrimFloat.opp (PrimFloat.of_uint63 (Uint63.of_Z (- z)))
  else PrimFloat.of_uint63 (Uint63.of_Z z).

(** [arr[i]]: [undefined] unless [i] is an index of the array. *)
Definition index {A} (arr : list A) (i : number) : option A :=
  match i with
  | Num z => if Z.ltb z 0 then None else arr !! Z.to_nat z
  | NaN => None
  end.

(** Form values are inspected character by character ([trim], [length],
    the e-mail pattern), so they are sequences of UTF-16 code units. *)
Definition codeunit : Type := N.
Definition ustring : Type := list codeunit.

Definition code (a : ascii) : codeunit := N_of_ascii a.

Fixpoint ustr (s : string) : ustring :=
  match s with
  | EmptyString => []
  | String a s' => code a :: ustr s'
  end.

(** WhiteSpace and LineTerminator code points: what [trim] strips and
    what [\s] matches. *)
Definition is_space (c : codeunit) : bool :=
  ((9 <=? c) && (c <=? 13) || (c =? 32) || (c =? 160) || (c =? 5760)
   || (8192 <=? c) && (c <=? 8202) || (c =? 8232) || (c =? 8233)
   || (c =? 8239) || (c =? 8287) || (c =? 12288) || (c =? 65279))%N.

Fixpoint trimStart (s : ustring) : ustring :=
  match s with
  | c :: s' => if is_space c then trimStart s' else s
  | [] => []
  end.

Definition trimEnd (s : ustring) : ustring := rev (trimStart (rev s)).

Definition trim (s : ustring) : ustring := trimEnd (trimStart s).

(** Regular expressions, as far as the e-mail pattern needs them. *)
Inductive regex : Type :=
| Void
| Eps
| Class (p : codeunit -> bool)
| Seq (r1 r2 : regex)
| Alt (r1 r2 : regex)
| Star (r : regex).

Definition Plus (r : regex) : regex := Seq r (Star r).
Definition Chr (a : ascii) : regex := Class (N.eqb (code a)).

Fixpoint nullable (r : regex) : bool :=
  match r with
  | Void => false
  | Eps => true
  | Class _ => false
  | Seq r1 r2 => nullable r1 && nullable r2
  | Alt r1 r2 => nullable r1 || nullable r2
  | Star _ => true
  end.

Fixpoint deriv (c : codeunit) (r : regex) : regex :=
  match r with
  | Void => Void
  | Eps => Void
  | Class p => if p c then Eps else Void
  | Seq r1 r2 =>
      if nullable r1
      then Alt (Seq (deriv c r1) r2) (deriv c r2)
      else Seq (deriv c r1) r2
  | Alt r1 r2 => Alt (deriv c r1) (deriv c r2)
  | Star r1 => Seq (deriv c r1) (Star r1)
  end.

(** [/^r$/.test(s)]: the whole of [s] matches [r]. *)
Fixpoint test (r : regex) (s : ustring) : bool :=
  match s with
  | [] => nullable r
  | c :: s' => test (deriv c r) s'
  end.

(** *** Values the scripts did not make

    The object literals of the two scripts ([translations],
    [errorMessages]) are read with keys taken from storage or from the
    markup, so a read may fall through to what the literal inherits from
    [Object.prototype]: a method, the prototype itself under [__proto__],
    or, one read further, a property of such a method.  Of such a value
    the scripts see three things: whether it counts as true, what it reads
    as a string, and what reading a property of it gives ([None] when the
    read raises, as for [caller] on a built-in function).  Reading a
    property of [undefined] or [null] raises.  The values met this way
    are functions, plain objects, numbers and strings: converting them to a
    string does not raise, and neither does the first read, through the
    literal, which finds a method or the [__proto__] accessor. *)
Inductive value : Type :=
| Undefined
| Null
| Thing (truthy : bool) (text : string) (member : string -> option value).

(** [ToBoolean] *)
Definition toBoolean (v : value) : bool :=
  match v with
  | Thing t _ _ => t
  | Undefined | Null => false
  end.

(** [ToString] *)
Definition toString (v : value) : string :=
  match v with
  | Undefined => "undefined"
  | Null => "null"
  | Thing _ s _ => s
  end.

(** [v[k]] *)
Definition get (v : value) (k : string) : option value :=
  match v with
  | Thing _ _ m => m k
  | Undefined | Null => None
  end.

(** [Object.prototype] as an object literal sees it: what reading a name
    gives that the literal has no entry for ([undefined] for most). *)
Definition prototype : Type := string -> value.

(** What reading an object literal gives: an entry of its own, or
    whatever it inherits. *)
Inductive found (A : Type) : Type :=
| Own (a : A)
| Inherited (v : value).
Arguments Own {A} a.
Arguments Inherited {A} v.

(** [o[k]] on an object literal with the entries [o]. *)
Definition lookup {A} (proto : prototype) (o : gmap string A) (k : string) : found A :=
  match o !! k with
  | Some a => Own a
  | None => Inherited (proto k)
  end.

(** [ToBoolean] and [ToString] on what a read of a literal holding
    strings gave. *)
Definition holdsTrue (f : found string) : bool :=
  match f with
  | Own s => truthy s
  | Inherited v => toBoolean v
  end.

Definition asString (f : found string) : string :=
  match f with
  | Own s => s
  | Inherited v => toString v
  end.

(** What [node.textContent = x] stores: [null] and [undefined] give the
    empty text, anything else its string. *)
Definition asTextContent (f : found string) : string :=
  match f with
  | Inherited Undefined | Inherited Null => ""
  | _ => asString f
  end.

(** [localStorage]: its entries, and whether reading and writing work
    (either may raise, e.g. when storage is disabled or full). *)
Record storage : Type := {
  items : gmap string string;
  readable : bool;
  writable : bool
}.

(** [localStorage.getItem(k)]; [None] when it raises, [Some None] for null. *)
Definition getItem (k : string) (st : storage) : option (option string) :=
  if readable st then Some (items st !! k) else None.

(** [localStorage.setItem(k, v)]; [None] when it raises. *)
Definition setItem (k v : string) (st : storage) : option storage :=
  if writable st
  then Some {| items := <[k := v]> (items st);
               readable := readable st; writable := writable st |}
  else None.

End Js.

(** ** app.js *)

Module App.
Import Js.

(** *** The environment: locale signal and document *)

Record navigator : Type := {
  language : option string;
  userLanguage : option string
}.

(** What an element shows: a text node ([textContent = s]) or parsed
    markup ([innerHTML = s]). *)
Inductive display : Type :=
| TextContent (s : string)
| InnerHTML (s : string).

(** An element of the page.  [type] is the [type] property of form
    controls, [attrs] holds the attributes ([data-en], [data-ar], [name],
    [placeholder], ...) and [inSelect] tells an option that sits in a
    select.  Elements carrying translations are taken not to be nested in
    one another, so each element's content is its own. *)
Record element : Type := {
  tagName : string;
  type : string;
  attrs : gmap string string;
  content : display;
  inSelect : bool
}.

Record document : Type := {
  htmlAttrs : gmap string string;      (* attributes of <html> *)
  title : string;
  bodyClasses : gset string;           (* document.body.classList *)
  elements : list element;             (* in document order *)
  langText : option string             (* text of #lang-text, if present *)
}.

(** Console output, dispatched window events, and the calls of
    [applyLanguage] in the order they happen. *)
Inductive event : Type :=
| ConsoleLog (msg : string)
| ConsoleWarn (msg : string)
| LanguageChanged (language : string) (isRTL : bool)
| Applied (lang : string).

(** *** Gallery data *)

Record captionElement : Type := {
  captionAttrs : gmap string string;
  captionText : string
}.

Record galleryItem : Type := {
  itemAttrs : gmap string string;
  captionEl : option captionElement    (* item.querySelector('.gallery-caption') *)
}.

Record image : Type := {
  src : option string;
  caption : string
}.

Record lightboxImage : Type := {
  imgSrc : option string;
  imgAlt : string
}.

Record gallery : Type := {
  galleryItems : list galleryItem;
  galleryImages : list image;
  currentImageIndex : number;
  lightboxImg : option lightboxImage;        (* .lightbox-img, if present *)
  lightboxCaption : option string            (* text of .lightbox-caption *)
}.

(** *** Timers *)

(** The two callbacks handed to [setTimeout]. *)
Inductive task : Type :=
| SwitchTo (lang : string)       (* the body of switchLanguage, after 150ms *)
| EndSwitching.                  (* removes the lang-switching class, after 100ms *)

(** *** The state of the script *)

Record world : Type := {
  currentLang : string;
  isRTL : bool;
  doc : document;
  store : storage;
  gal : gallery;
  timers : list (nat * task);     (* due time, callback; in registration order *)
  now : nat;
  trace : list event
}.

Definition set_manager (l : string) (r : bool) (w : world) : world :=
  {| currentLang := l; isRTL := r; doc := doc w; store := store w;
     gal := gal w; timers := timers w; now := now w; trace := trace w |}.

Definition set_doc (d : document) (w : world) : world :=
  {| currentLang := currentLang w; isRTL := isRTL w; doc := d; store := store w;
     gal := gal w; timers := timers w; now := now w; trace := trace w |}.

Definition set_store (s : storage) (w : world) : world :=
  {| currentLang := currentLang w; isRTL := isRTL w; doc := doc w; store := s;
     gal := gal w; timers := timers w; now := now w; trace := trace w |}.

Definition set_gal (g : gallery) (w : world) : world :=
  {| currentLang := currentLang w; isRTL := isRTL w; doc := doc w; store := store w;
     gal := g; timers := timers w; now := now w; trace := trace w |}.

Definition set_timers (ts : list (nat * task)) (t : nat) (w : world) : world :=
  {| currentLang := currentLang w; isRTL := isRTL w; doc := doc w; store := store w;
     gal := gal w; timers := ts; now := t; trace := trace w |}.

Definition log (e : event) (w : world) : world :=
  {| currentLang := currentLang w; isRTL := isRTL w; doc := doc w; store := store w;
     gal := gal w; timers := timers w; now := now w; trace := trace w ++ [e] |}.

Definition setTimeout (k : task) (delay : nat) (w : world) : world :=
  set_timers (timers w ++ [(now w + delay, k)]) (now w) w.

(** *** LanguageManager *)

Definition storageKey : string := "pharmacy-club-language".

(** [try { return localStorage.getItem(...) } catch (e) { return null }] *)
Definition getStoredLanguage (st : storage) : option string :=
  match getItem storageKey st with
  | Some v => v
  | None => None
  end.

(** [try { localStorage.setItem(...) } catch (e) { console.warn(...) }] *)
Definition setStoredLanguage (lang : string) (w : world) : world :=
  match setItem storageKey lang (store w) with
  | Some st => set_store st w
  | None => log (ConsoleWarn "Could not save language preference") w
  end.

(** [None]: [browserLang] is undefined and [startsWith] raises a TypeError. *)
Definition detectBrowserLanguage (nav : navigator) : option string :=
  match or_else (language nav) (userLanguage nav) with
  | Some browserLang => Some (if startsWith browserLang "ar" then "ar" else "en")
  | None => None
  end.

(** [getStoredLanguage() || detectBrowserLanguage() || 'en'], the second
    operand being evaluated only when the first is falsy. *)
Definition resolveLanguage (st : storage) (nav : navigator) : option string :=
  let stored := getStoredLanguage st in
  if truthy_opt stored then stored
  else match detectBrowserLanguage nav with
       | Some detected => or_else (Some detected) (Some "en")
       | None => None
       end.

Definition setContent (c : display) (e : element) : element :=
  {| tagName := tagName e; type := type e; attrs := attrs e;
     content := c; inSelect := inSelect e |}.

Definition setAttribute (k v : string) (e : element) : element :=
  {| tagName := tagName e; type := type e; attrs := <[k := v]> (attrs e);
     content := content e; inSelect := inSelect e |}.

Definition hasAttribute (k : string) (e : element) : bool :=
  bool_decide (is_Some (attrs e !! k)).

(** The selector [[data-en][data-ar]]. *)
Definition bilingual (e : element) : bool :=
  hasAttribute "data-en" e && hasAttribute "data-ar" e.

(** The body of the [forEach] in [updateElementsWithDataAttributes],
    once [text] is known to be truthy. *)
Definition writeText (text : string) (e : element) : element :=
  if String.eqb (tagName e) "INPUT" && negb (String.eqb (type e) "submit")
  then setAttribute "placeholder" text e
  else if String.eqb (tagName e) "OPTION"
  then setContent (TextContent text) e
  else if includes text "<br>"
  then setContent (InnerHTML text) e
  else setContent (TextContent text) e.

Definition updateElement (lang : string) (e : element) : element :=
  if bilingual e then
    match getAttribute ("data-" ++ lang) (attrs e) with
    | Some text => if truthy text then writeText text e else e
    | None => e
    end
  else e.

Definition updateElementsWithDataAttributes (lang : string) (els : list element)
  : list element :=
  map (updateElement lang) els.

Definition updateOption (lang : string) (e : element) : element :=
  if String.eqb (tagName e) "OPTION" && inSelect e && bilingual e then
    match getAttribute ("data-" ++ lang) (attrs e) with
    | Some text => if truthy text then setContent (TextContent text) e else e
    | None => e
    end
  else e.

Definition updateSelectOptions (lang : string) (els : list element) : list element :=
  map (updateOption lang) els.

Definition applyLanguage (lang : string) (w : world) : world :=
  let d := doc w in
  let html := <["dir" := if String.eqb lang "ar" then "rtl" else "ltr"]>
                (<["lang" := lang]> (htmlAttrs d)) in
  let t := if String.eqb lang "ar" then "نادي الصيدلة - الكلية"
           else "Pharmacy Club - College" in
  let els := updateSelectOptions lang
               (updateElementsWithDataAttributes lang (elements d)) in
  log (Applied lang)
    (set_doc {| htmlAttrs := html; title := t; bodyClasses := bodyClasses d;
                elements := els; langText := langText d |} w).

Definition updateLanguageButton (w : world) : world :=
  let d := doc w in
  match langText d with
  | Some _ =>
      set_doc {| htmlAttrs := htmlAttrs d; title := title d;
                 bodyClasses := bodyClasses d; elements := elements d;
                 langText := Some (if String.eqb (currentLang w) "en"
                                   then "العربية" else "English") |} w
  | None => w
  end.

Definition setBodyClasses (cs : gset string) (w : world) : world :=
  let d := doc w in
  set_doc {| htmlAttrs := htmlAttrs d; title := title d; bodyClasses := cs;
             elements := elements d; langText := langText d |} w.

(** *** Gallery and lightbox *)

Definition captionOf (lang : string) (item : galleryItem) : string :=
  default (if String.eqb lang "ar" then "صورة المعرض" else "Gallery Image")
    (or_else
       (or_else
          (or_else (getAttribute ("data-caption-" ++ lang) (itemAttrs item))
                   (c ← captionEl item; getAttribute ("data-" ++ lang) (captionAttrs c)))
          (captionText <$> captionEl item))
       None).

Definition updateGalleryData (w : world) : world :=
  let g := gal w in
  set_gal {| galleryItems := galleryItems g;
             galleryImages :=
               map (fun item => {| src := itemAttrs item !! "data-src";
                                   caption := captionOf (currentLang w) item |})
                   (galleryItems g);
             currentImageIndex := currentImageIndex g;
             lightboxImg := lightboxImg g;
             lightboxCaption := lightboxCaption g |} w.

Definition setIndex (i : number) (g : gallery) : gallery :=
  {| galleryItems := galleryItems g; galleryImages := galleryImages g;
     currentImageIndex := i; lightboxImg := lightboxImg g;
     lightboxCaption := lightboxCaption g |}.

(** [Throw]: [galleryImages[currentImageIndex]] is undefined and reading
    its [src] raises a TypeError.  Assigning to [lightboxImg.src] converts
    to a string, so a null [src] is stored as the text [null]. *)
Definition showLightboxImage (g : gallery) : completion gallery :=
  match galleryImages g, lightboxImg g, lightboxCaption g with
  | _ :: _, Some _, Some _ =>
      match index (galleryImages g) (currentImageIndex g) with
      | Some image =>
          Normal {| galleryItems := galleryItems g;
                    galleryImages := galleryImages g;
                    currentImageIndex := currentImageIndex g;
                    lightboxImg := Some {| imgSrc := Some (default "null" (src image));
                                           imgAlt := caption image |};
                    lightboxCaption := Some (caption image) |}
      | None => Throw g
      end
  | _, _, _ => Normal g
  end.

Definition len (g : gallery) : number := Num (Z.of_nat (length (galleryImages g))).

(** Click handler of [.lightbox-prev]. *)
Definition previous (g : gallery) : completion gallery :=
  showLightboxImage
    (setIndex (rem (add (sub (currentImageIndex g) (Num 1)) (len g)) (len g)) g).

(** Click handler of [.lightbox-next]. *)
Definition next (g : gallery) : completion gallery :=
  showLightboxImage
    (setIndex (rem (add (currentImageIndex g) (Num 1)) (len g)) g).

(** [n] clicks on [.lightbox-next] in a row; a click that raises ends
    its own handler only, the later clicks still run. *)
Fixpoint nextTimes (n : nat) (g : gallery) : gallery :=
  match n with
  | O => g
  | S n' => nextTimes n' (state_of (next g))
  end.

(** *** Language switching *)

Definition setPlaceholder (text : string) (e : element) : element :=
  setAttribute "placeholder" text e.

(** The second [languageChanged] listener: placeholders that the data
    attributes do not cover.  The three [querySelectorAll] loops run one
    after the other over the whole document. *)
Definition updatePlaceholders (lang : string) (els : list element) : list element :=
  let names :=
    map (fun e => if String.eqb (tagName e) "INPUT"
                     && bool_decide (attrs e !! "name" = Some "name")
                  then setPlaceholder (if String.eqb lang "ar" then "أدخل اسمك الكامل"
                                       else "Enter your full name") e
                  else e) els in
  let emails :=
    map (fun e => if String.eqb (tagName e) "INPUT" && String.eqb (type e) "email"
                  then setPlaceholder (if String.eqb lang "ar" then "أدخل بريدك الإلكتروني"
                                       else "Enter your email address") e
                  else e) names in
  map (fun e => if String.eqb (tagName e) "TEXTAREA"
                   && bool_decide (attrs e !! "name" = Some "message")
                then setPlaceholder (if String.eqb lang "ar" then "اكتب رسالتك هنا..."
                                     else "Write your message here...") e
                else e) emails.

(** [window.dispatchEvent(new CustomEvent('languageChanged', ...))]: the
    two listeners run at once, in the order they were registered. *)
Definition dispatchLanguageChanged (lang : string) (rtl : bool) (w : world) : world :=
  let w1 := updateGalleryData (log (LanguageChanged lang rtl) w) in
  let d := doc w1 in
  set_doc {| htmlAttrs := htmlAttrs d; title := title d;
             bodyClasses := bodyClasses d;
             elements := updatePlaceholders lang (elements d);
             langText := langText d |} w1.

(** The callback that [switchLanguage] hands to [setTimeout]. *)
Definition finishSwitch (lang : string) (w : world) : world :=
  let w1 := set_manager lang (String.eqb lang "ar") w in
  let w2 := applyLanguage lang w1 in
  let w3 := updateLanguageButton w2 in
  let w4 := setStoredLanguage lang w3 in
  let w5 := setTimeout EndSwitching 100 w4 in
  let w6 := updateGalleryData w5 in
  let w7 := dispatchLanguageChanged lang (isRTL w6) w6 in
  log (ConsoleLog ("Language switched to: " ++ lang)) w7.

Definition switchLanguage (lang : string) (w : world) : world :=
  if String.eqb lang (currentLang w) then w
  else setTimeout (SwitchTo lang) 150
         (setBodyClasses ({["lang-switching"]} ∪ bodyClasses (doc w)) w).

Definition toggleTarget (w : world) : string :=
  if String.eqb (currentLang w) "en" then "ar" else "en".

Definition toggleLanguage (w : world) : world :=
  let newLang := toggleTarget w in
  switchLanguage newLang
    (log (ConsoleLog ("Switching from " ++ currentLang w ++ " to " ++ newLang)) w).

(** *** The event loop, as far as timers go *)

Definition runTask (k : task) (w : world) : world :=
  match k with
  | SwitchTo lang => finishSwitch lang w
  | EndSwitching => setBodyClasses (bodyClasses (doc w) ∖ {["lang-switching"]}) w
  end.

Fixpoint earliest (ts : list (nat * task)) : option nat :=
  match ts with
  | [] => None
  | (d, _) :: ts' =>
      match earliest ts' with
      | Some d' => Some (Nat.min d d')
      | None => Some d
      end
  end.

(** The first registered timer among those due at [d], and the others. *)
Fixpoint takeDue (d : nat) (ts : list (nat * task))
  : option (task * list (nat * task)) :=
  match ts with
  | [] => None
  | (d', k) :: ts' =>
      if Nat.eqb d' d then Some (k, ts')
      else match takeDue d ts' with
           | Some (k', rest) => Some (k', (d', k) :: rest)
           | None => None
           end
  end.

(** Let the next timer fire; nothing happens when none is pending. *)
Definition tick (w : world) : world :=
  match earliest (timers w) with
  | Some d =>
      match takeDue d (timers w) with
      | Some (k, rest) => runTask k (set_timers rest (Nat.max d (now w)) w)
      | None => w
      end
  | None => w
  end.

Definition settle (n : nat) (w : world) : world := Nat.iter n tick w.

(** *** Page load *)

Record page : Type := {
  pageDoc : document;
  pageStore : storage;
  pageNav : navigator;
  pageItems : list galleryItem;
  pageLightboxImg : option lightboxImage;
  pageLightboxCaption : option string
}.

(** [init()]; [setupLanguageToggle] only registers the click listener. *)
Definition init (w : world) : world :=
  updateLanguageButton (applyLanguage (currentLang w) w).

(** [new LanguageManager()]; [None] when the constructor raises. *)
Definition LanguageManager (p : page) : option world :=
  match resolveLanguage (pageStore p) (pageNav p) with
  | Some lang =>
      Some (init {| currentLang := lang;
                    isRTL := String.eqb lang "ar";
                    doc := pageDoc p;
                    store := pageStore p;
                    gal := {| galleryItems := pageItems p;
                              galleryImages := [];
                              currentImageIndex := Num 0;
                              lightboxImg := pageLightboxImg p;
                              lightboxCaption := pageLightboxCaption p |};
                    timers := [];
                    now := 0;
                    trace := [] |})
  | None => None
  end.

(** The part of the [DOMContentLoaded] handler that the language and the
    gallery depend on. *)
Definition onLoad (p : page) : option world :=
  match LanguageManager p with
  | Some w =>
      Some (match galleryItems (gal w) with
            | _ :: _ => updateGalleryData w
            | [] => w
            end)
  | None => None
  end.

(** *** Form validation *)

Module Form.

(** A node under the field's parent: its class list, the [text-align]
    of its inline style and its text. *)
Record node : Type := {
  classes : list string;
  textAlign : string;
  textContent : string
}.

Record field : Type := {
  tagName : string;
  type : string;
  required : bool;
  value : ustring;
  classList : gset string
}.

(** A field and the other descendants of [field.parentElement], in
    document order. *)
Record group : Type := {
  control : field;
  siblings : list node
}.

Inductive rule : Type := Required | Email | Select | MinLength.

(** The entries of [errorMessages]: the tables of [en] and [ar]; [None]
    for a language it has no entry of its own for. *)
Definition errorMessages (lang : string) : option (rule -> string) :=
  if String.eqb lang "en" then
    Some (fun r => match r with
                   | Required => "This field is required"
                   | Email => "Please enter a valid email address"
                   | Select => "Please select an option"
                   | MinLength => "Please provide at least 10 characters"
                   end)
  else if String.eqb lang "ar" then
    Some (fun r => match r with
                   | Required => "هذا الحقل مطلوب"
                   | Email => "يرجى إدخال عنوان بريد إلكتروني صحيح"
                   | Select => "يرجى اختيار خيار"
                   | MinLength => "يرجى كتابة ١٠ أحرف على الأقل"
                   end)
  else None.

(** [[^\s@]] *)
Definition notSpaceAt (c : codeunit) : bool :=
  negb (is_space c) && negb (N.eqb c (code "@")).

(** [/^[^\s@]+@[^\s@]+\.[^\s@]+$/] *)
Definition emailPattern : regex :=
  Seq (Plus (Class notSpaceAt))
    (Seq (Chr "@")
       (Seq (Plus (Class notSpaceAt))
          (Seq (Chr ".") (Plus (Class notSpaceAt))))).

Definition nonEmpty (v : ustring) : bool :=
  match v with [] => false | _ :: _ => true end.

Definition isErrorMessage (n : node) : bool :=
  bool_decide ("error-message" ∈ classes n).

(** [querySelector('.error-message')] followed by [remove()]: the first
    match goes, if there is one. *)
Fixpoint removeExisting (ns : list node) : list node :=
  match ns with
  | [] => []
  | n :: ns' => if isErrorMessage n then ns' else n :: removeExisting ns'
  end.

Definition setClassList (cs : gset string) (f : field) : field :=
  {| tagName := tagName f; type := type f; required := required f;
     value := value f; classList := cs |}.

Definition setValue (v : ustring) (f : field) : field :=
  {| tagName := tagName f; type := type f; required := required f;
     value := v; classList := classList f |}.

Definition errorElement (lang msg : string) : node :=
  {| classes := ["error-message"];
     textAlign := if String.eqb lang "ar" then "right" else "left";
     textContent := msg |}.

Inductive outcome : Type :=
| Returned (isValid : bool) (g : group)
| Raised (g : group).

Definition group_of (o : outcome) : group :=
  match o with Returned _ g | Raised g => g end.

(** What the user does to a field of a validated form; each action
    comes with the language current at that moment. *)
Inductive action : Type :=
| Blur
| Input (v : ustring).

(** The property of a table of messages that a rule reads. *)
Definition ruleName (r : rule) : string :=
  match r with
  | Required => "required"
  | Email => "email"
  | Select => "select"
  | MinLength => "minLength"
  end.

Section Realm.

(** [Object.prototype] on the page. *)
Variable proto : prototype.

(** [errorMessages[lang].required] and the like: the text of the table
    of [lang]; for any other language whatever the value that
    [errorMessages] inherits under that name has there, the read raising
    when that value is undefined or null. *)
Definition message (lang : string) (r : rule) : option (found string) :=
  match errorMessages lang with
  | Some m => Some (Own (m r))
  | None => Inherited <$> get (proto lang) (ruleName r)
  end.

(** One [if] of the rule chain: when [fires], the verdict becomes
    "invalid" with the message of [r], unless reading that message
    raises. *)
Definition step (lang : string) (fires : bool) (r : rule)
           (acc : option (bool * found string)) : option (bool * found string) :=
  match acc with
  | Some v =>
      if fires then
        match message lang r with
        | Some msg => Some (false, msg)
        | None => None
        end
      else Some v
  | None => None
  end.

(** The four checks in source order; [(isValid, errorMessage)], or
    [None] when a TypeError is raised on the way. *)
Definition verdict (lang : string) (f : field) : option (bool * found string) :=
  let v := trim (value f) in
  step lang (String.eqb (tagName f) "TEXTAREA" && nonEmpty v
             && Nat.ltb (length v) 10) MinLength
    (step lang (String.eqb (tagName f) "SELECT" && required f
                && negb (nonEmpty v)) Select
       (step lang (required f && negb (nonEmpty v)) Required
          (step lang (String.eqb (type f) "email" && nonEmpty v
                      && negb (test emailPattern v)) Email
             (Some (true, Own ""))))).

(** [validateField(field)] under the current language [lang]. *)
Definition validateField (lang : string) (g : group) : outcome :=
  let f := control g in
  let rest := removeExisting (siblings g) in
  match verdict lang f with
  | None => Raised {| control := f; siblings := rest |}
  | Some (true, _) =>
      Returned true {| control := setClassList (classList f ∖ {["error"]}) f;
                       siblings := rest |}
  | Some (false, errorMessage) =>
      Returned false
        {| control := setClassList ({["error"]} ∪ classList f) f;
           siblings := rest ++ [errorElement lang (asTextContent errorMessage)] |}
  end.

(** The [blur] and [input] listeners. *)
Definition handle (lang : string) (a : action) (g : group) : group :=
  match a with
  | Blur => group_of (validateField lang g)
  | Input v =>
      let g' := {| control := setValue v (control g); siblings := siblings g |} in
      if bool_decide ("error" ∈ classList (control g'))
      then group_of (validateField lang g')
      else g'
  end.

Fixpoint handleAll (as_ : list (string * action)) (g : group) : group :=
  match as_ with
  | [] => g
  | (lang, a) :: rest => handleAll rest (handle lang a g)
  end.

End Realm.

End Form.

(** *** A visit: toggles and timers in any order *)

(** What happens to the language manager after the page has loaded: the
    visitor toggles the language (the button, or Ctrl/Cmd+L), or the next
    timer fires. *)
(** The [keydown] listener of the shortcut:
    [(e.ctrlKey || e.metaKey) && e.key === 'l']. *)
Definition shortcut (ctrlKey metaKey : bool) (key : string) (w : world) : world :=
  if (ctrlKey || metaKey) && String.eqb key "l" then toggleLanguage w else w.

(** What happens to the language manager after the page has loaded: the
    visitor clicks the language button, presses a key, or the next timer
    fires. *)
Inductive step : Type :=
| Toggle
| Key (ctrlKey metaKey : bool) (key : string)
| Fire.

Definition act (s : step) (w : world) : world :=
  match s with
  | Toggle => toggleLanguage w
  | Key ctrlKey metaKey key => shortcut ctrlKey metaKey key w
  | Fire => tick w
  end.

Fixpoint session (steps : list step) (w : world) : world :=
  match steps with
  | [] => w
  | s :: rest => session rest (act s w)
  end.

(** *** Mobile menu *)

Module Menu.

(** The class lists of [#hamburger] and [#nav-menu]; the listeners exist
    when both elements do. *)
Record menu : Type := {
  hamburger : gset string;
  navMenu : gset string
}.

(** [classList.toggle(c)] *)
Definition toggleClass (c : string) (cs : gset string) : gset string :=
  if bool_decide (c ∈ cs) then cs ∖ {[c]} else {[c]} ∪ cs.

Definition clickHamburger (m : menu) : menu :=
  {| hamburger := toggleClass "active" (hamburger m);
     navMenu := toggleClass "active" (navMenu m) |}.

Definition clickNavLink (m : menu) : menu :=
  {| hamburger := hamburger m ∖ {["active"]};
     navMenu := navMenu m ∖ {["active"]} |}.

Inductive click : Type := OnHamburger | OnNavLink.

Fixpoint clicks (cs : list click) (m : menu) : menu :=
  match cs with
  | [] => m
  | OnHamburger :: rest => clicks rest (clickHamburger m)
  | OnNavLink :: rest => clicks rest (clickNavLink m)
  end.

End Menu.

(** *** The lightbox around the gallery *)

Module Lightbox.

(** The gallery with what surrounds it: the class list of [#lightbox] (if
    the element exists), the [overflow] style of the body, and whether the
    two arrow buttons exist. *)
Record stage : Type := {
  scene : world;
  lightbox : option (gset string);
  overflow : string;
  prevButton : bool;
  nextButton : bool
}.


(** The click listener of the gallery item at [index]; the listeners are
    registered when there is at least one item.  The last two statements
    use [lightbox] unguarded. *)
Definition openItem (index : nat) (s : stage) : completion stage :=
  let w := updateGalleryData
             (set_gal (setIndex (Num (Z.of_nat index)) (gal (scene s))) (scene s)) in
  match showLightboxImage (gal w) with
  | Normal g =>
      match lightbox s with
      | Some classes =>
          Normal {| scene := set_gal g w;
                    lightbox := Some (classes ∖ {["hidden"]});
                    overflow := "hidden";
                    prevButton := prevButton s; nextButton := nextButton s |}
      | None =>
          Throw {| scene := set_gal g w; lightbox := None; overflow := overflow s;
                   prevButton := prevButton s; nextButton := nextButton s |}
      end
  | Throw g =>
      Throw {| scene := set_gal g w; lightbox := lightbox s; overflow := overflow s;
               prevButton := prevButton s; nextButton := nextButton s |}
  end.


(** [lightbox && !lightbox.classList.contains('hidden')] *)
Definition isOpen (s : stage) : bool :=
  match lightbox s with
  | Some classes => negb (bool_decide ("hidden" ∈ classes))
  | None => false
  end.


End Lightbox.

(** *** Highlighting the navigation while scrolling *)

Module Highlight.

(** A [section[id]] with its box, and a [.nav-link]; [offsetTop] and
    [offsetHeight] are whole pixels (a [long]), the scroll position is a
    double. *)
Record section : Type := {
  sectionId : string;
  offsetTop : Z;
  offsetHeight : Z
}.

Record navLink : Type := {
  href : option string;
  linkClasses : gset string
}.

(** [scrollPosition >= sectionTop && scrollPosition < sectionTop + sectionHeight] *)
Definition holds (scrollPosition : PrimFloat.float) (sec : section) : bool :=
  PrimFloat.leb (ofLong (offsetTop sec)) scrollPosition
  && PrimFloat.ltb scrollPosition
       (PrimFloat.add (ofLong (offsetTop sec)) (ofLong (offsetHeight sec))).

(** The loop over the sections: a later section that holds the position
    replaces an earlier one. *)
Fixpoint lastHolding (scrollPosition : PrimFloat.float) (sections : list section)
         (currentSection : string) : string :=
  match sections with
  | [] => currentSection
  | sec :: rest =>
      lastHolding scrollPosition rest
        (if holds scrollPosition sec then sectionId sec else currentSection)
  end.

Definition mark (currentSection : string) (link : navLink) : navLink :=
  {| href := href link;
     linkClasses :=
       if bool_decide (href link = Some ("#" ++ currentSection))
       then {["active"]} ∪ (linkClasses link ∖ {["active"]})
       else linkClasses link ∖ {["active"]} |}.

(** [updateActiveNavigation()] at scroll offset [scrollY]. *)
Definition updateActiveNavigation (scrollY : PrimFloat.float) (sections : list section)
           (navLinks : list navLink) : list navLink :=
  let scrollPosition := PrimFloat.add scrollY (ofLong 150) in
  map (mark (lastHolding scrollPosition sections "")) navLinks.

Definition isActive (link : navLink) : bool :=
  bool_decide ("active" ∈ linkClasses link).

End Highlight.

(** *** Notifications *)

Module Notification.

(** A notification element: its identity, text, class name, the colour of
    its border, the side it slides in from, and the two styles the timers
    change. *)
Record notification : Type := {
  ident : nat;
  message : string;
  className : string;
  borderColor : string;
  rtl : bool;
  opacity : string;
  transform : string
}.

(** The callbacks handed to [setTimeout]. *)
Inductive callback : Type :=
| AnimateIn (n : nat)                 (* after 10ms *)
| AutoHide (n : nat) (isRTL : bool)   (* after 5000ms: hideNotification *)
| Detach (n : nat).                   (* 300ms after hideNotification *)

(** The notifications attached to the body, the timers pending, the
    clock, and how many notifications were created so far. *)
Record board : Type := {
  attached : list notification;
  pending : list (nat * callback);
  clock : nat;
  created : nat
}.

Definition offscreen (isRTL : bool) : string :=
  if isRTL then "translateX(-100%)" else "translateX(100%)".

Definition restyle (n : nat) (o t : string) (note : notification) : notification :=
  if Nat.eqb (ident note) n
  then {| ident := ident note; message := message note; className := className note;
          borderColor := borderColor note; rtl := rtl note;
          opacity := o; transform := t |}
  else note.

(** [showNotification(message, type)], [isRTL] being what the language
    manager says at that moment. *)
Definition showNotification (text type : string) (isRTL : bool) (b : board) : board :=
  let color :=
    if String.eqb type "warning" then "var(--color-warning)"
    else if String.eqb type "error" then "var(--color-error)"
    else if String.eqb type "success" then "var(--color-success)"
    else "var(--color-info)" in
  let n := created b in
  {| attached := [ {| ident := n; message := text;
                      className := "notification notification--" ++ type;
                      borderColor := color; rtl := isRTL;
                      opacity := "0"; transform := offscreen isRTL |} ];
     pending := pending b ++ [(clock b + 10, AnimateIn n);
                              (clock b + 5000, AutoHide n isRTL)];
     clock := clock b;
     created := S n |}.

(** [hideNotification(notif, rtl)] *)
Definition hideNotification (n : nat) (isRTL : bool) (b : board) : board :=
  {| attached := map (restyle n "0" (offscreen isRTL)) (attached b);
     pending := pending b ++ [(clock b + 300, Detach n)];
     clock := clock b;
     created := created b |}.

Definition isAutoHide (n : nat) (t : nat * callback) : bool :=
  match snd t with
  | AutoHide m _ => Nat.eqb m n
  | _ => false
  end.

(** The click listener of notification [n]: [clearTimeout(hideTimeout)],
    then [hideNotification]. *)
Definition dismiss (n : nat) (isRTL : bool) (b : board) : board :=
  hideNotification n isRTL
    {| attached := attached b;
       pending := List.filter (fun t => negb (isAutoHide n t)) (pending b);
       clock := clock b;
       created := created b |}.

(** A click on the notification on show, if there is one. *)
Definition clickShown (b : board) : board :=
  match attached b with
  | note :: _ => dismiss (ident note) (rtl note) b
  | [] => b
  end.

Definition runCallback (k : callback) (b : board) : board :=
  match k with
  | AnimateIn n =>
      {| attached := map (restyle n "1" "translateX(0)") (attached b);
         pending := pending b; clock := clock b; created := created b |}
  | AutoHide n isRTL => hideNotification n isRTL b
  | Detach n =>
      {| attached := List.filter (fun note => negb (Nat.eqb (ident note) n)) (attached b);
         pending := pending b; clock := clock b; created := created b |}
  end.

Fixpoint soonest (ts : list (nat * callback)) : option nat :=
  match ts with
  | [] => None
  | (d, _) :: ts' =>
      match soonest ts' with
      | Some d' => Some (Nat.min d d')
      | None => Some d
      end
  end.

Fixpoint takeAt (d : nat) (ts : list (nat * callback))
  : option (callback * list (nat * callback)) :=
  match ts with
  | [] => None
  | (d', k) :: ts' =>
      if Nat.eqb d' d then Some (k, ts')
      else match takeAt d ts' with
           | Some (k', rest) => Some (k', (d', k) :: rest)
           | None => None
           end
  end.

(** Let the next timer fire; nothing happens when none is pending. *)
Definition fire (b : board) : board :=
  match soonest (pending b) with
  | Some d =>
      match takeAt d (pending b) with
      | Some (k, rest) =>
          runCallback k {| attached := attached b; pending := rest;
                           clock := Nat.max d (clock b); created := created b |}
      | None => b
      end
  | None => b
  end.

End Notification.

(** *** Submitting the forms *)

Module Submit.

(** A form control: the field with its surroundings, and the value
    [reset()] gives it back. *)
Record control : Type := {
  body : Form.group;
  defaultValue : ustring
}.

(** The contact form: the four fields its handler looks up (each may be
    missing), its other controls, and the notifications of the page. *)
Record contactForm : Type := {
  contactName : option control;
  contactEmail : option control;
  contactSubject : option control;
  contactMessage : option control;
  contactOthers : list control;
  contactBoard : Notification.board
}.

(** The membership form, likewise. *)
Record membershipForm : Type := {
  studentName : option control;
  studentEmail : option control;
  yearLevel : option control;
  membershipOthers : list control;
  membershipBoard : Notification.board
}.

Section Realm.

Variable proto : prototype.

(** [if (field) isFormValid = validateField(field) && isFormValid]: the
    field after the call and the new [isFormValid]; [Throw] when
    [validateField] raises. *)
Definition check (lang : string) (c : option control) (isFormValid : bool)
  : completion (option control * bool) :=
  match c with
  | None => Normal (None, isFormValid)
  | Some ctl =>
      match Form.validateField proto lang (body ctl) with
      | Form.Returned valid g =>
          Normal (Some {| body := g; defaultValue := defaultValue ctl |},
                  valid && isFormValid)
      | Form.Raised g =>
          Throw (Some {| body := g; defaultValue := defaultValue ctl |}, isFormValid)
      end
  end.

End Realm.

(** What [form.reset()] and the clean-up loop over [.form-control] do to
    one control. *)
Definition tidy (ctl : control) : control :=
  let f := Form.setValue (defaultValue ctl) (Form.control (body ctl)) in
  if bool_decide ("form-control" ∈ Form.classList f)
  then {| body := {| Form.control := Form.setClassList (Form.classList f ∖ {["error"]}) f;
                     Form.siblings := Form.removeExisting (Form.siblings (body ctl)) |};
          defaultValue := defaultValue ctl |}
  else {| body := {| Form.control := f; Form.siblings := Form.siblings (body ctl) |};
          defaultValue := defaultValue ctl |}.

Definition contactThanks (lang : string) : string :=
  if String.eqb lang "ar" then "شكراً لتواصلك معنا! سنعود إليك قريباً."
  else "Thank you for contacting us! We will get back to you shortly.".

Definition membershipThanks (lang : string) : string :=
  if String.eqb lang "ar" then "شكراً لاهتمامك! سنتواصل معك قريباً بخصوص فرص العضوية."
  else "Thank you for your interest! We will contact you soon about membership opportunities.".

Section Listeners.

Variable proto : prototype.

(** The [submit] listener of [#contact-form], under the language and the
    direction the language manager reports. *)
Definition submitContact (lang : string) (isRTL : bool) (f : contactForm)
  : completion contactForm :=
  match check proto lang (contactName f) true with
  | Throw (n, _) =>
      Throw {| contactName := n; contactEmail := contactEmail f;
               contactSubject := contactSubject f; contactMessage := contactMessage f;
               contactOthers := contactOthers f; contactBoard := contactBoard f |}
  | Normal (n, v1) =>
  match check proto lang (contactEmail f) v1 with
  | Throw (e, _) =>
      Throw {| contactName := n; contactEmail := e;
               contactSubject := contactSubject f; contactMessage := contactMessage f;
               contactOthers := contactOthers f; contactBoard := contactBoard f |}
  | Normal (e, v2) =>
  match check proto lang (contactSubject f) v2 with
  | Throw (s, _) =>
      Throw {| contactName := n; contactEmail := e;
               contactSubject := s; contactMessage := contactMessage f;
               contactOthers := contactOthers f; contactBoard := contactBoard f |}
  | Normal (s, v3) =>
  match check proto lang (contactMessage f) v3 with
  | Throw (m, _) =>
      Throw {| contactName := n; contactEmail := e;
               contactSubject := s; contactMessage := m;
               contactOthers := contactOthers f; contactBoard := contactBoard f |}
  | Normal (m, isFormValid) =>
      if isFormValid then
        Normal {| contactName := tidy <$> n; contactEmail := tidy <$> e;
                  contactSubject := tidy <$> s; contactMessage := tidy <$> m;
                  contactOthers := map tidy (contactOthers f);
                  contactBoard :=
                    Notification.showNotification (contactThanks lang) "success" isRTL
                      (contactBoard f) |}
      else
        Normal {| contactName := n; contactEmail := e;
                  contactSubject := s; contactMessage := m;
                  contactOthers := contactOthers f; contactBoard := contactBoard f |}
  end end end end.

(** The [submit] listener of [#membership-form]. *)
Definition submitMembership (lang : string) (isRTL : bool) (f : membershipForm)
  : completion membershipForm :=
  match check proto lang (studentName f) true with
  | Throw (n, _) =>
      Throw {| studentName := n; studentEmail := studentEmail f;
               yearLevel := yearLevel f;
               membershipOthers := membershipOthers f;
               membershipBoard := membershipBoard f |}
  | Normal (n, v1) =>
  match check proto lang (studentEmail f) v1 with
  | Throw (e, _) =>
      Throw {| studentName := n; studentEmail := e; yearLevel := yearLevel f;
               membershipOthers := membershipOthers f;
               membershipBoard := membershipBoard f |}
  | Normal (e, v2) =>
  match check proto lang (yearLevel f) v2 with
  | Throw (y, _) =>
      Throw {| studentName := n; studentEmail := e; yearLevel := y;
               membershipOthers := membershipOthers f;
               membershipBoard := membershipBoard f |}
  | Normal (y, isFormValid) =>
      if isFormValid then
        Normal {| studentName := tidy <$> n; studentEmail := tidy <$> e;
                  yearLevel := tidy <$> y;
                  membershipOthers := map tidy (membershipOthers f);
                  membershipBoard :=
                    Notification.showNotification (membershipThanks lang) "success" isRTL
                      (membershipBoard f) |}
      else
        Normal {| studentName := n; studentEmail := e; yearLevel := y;
                  membershipOthers := membershipOthers f;
                  membershipBoard := membershipBoard f |}
  end end end.

End Listeners.

End Submit.

End App.

(** ** script.js *)

Module Script.
Import Js.

Record element : Type := {
  attrs : gmap string string;
  textContent : string
}.

Record button : Type := {
  buttonAttrs : gmap string string;
  classList : gset string
}.

Inductive event : Type :=
| Applied (lang : string)          (* a call of applyTranslations *)
| Fetched (url : string)           (* a request issued by fetch *)
| ConsoleError (url : string).     (* console.error('Failed to load', url, err) *)

Record page : Type := {
  elements : list element;                (* in document order *)
  bodyDir : option string;                (* dir attribute of <body> *)
  langButtons : list button;              (* .lang-selector button *)
  localStorage : storage;
  currentLang : option string;            (* documentElement.dataset.currentLang *)
  containers : gmap string string;        (* selector of a container, its innerHTML *)
  trace : list event
}.

Definition log (e : event) (p : page) : page :=
  {| elements := elements p; bodyDir := bodyDir p; langButtons := langButtons p;
     localStorage := localStorage p; currentLang := currentLang p;
     containers := containers p; trace := trace p ++ [e] |}.

(** *** Translations *)

Definition translations : gmap string (gmap string string) :=
  list_to_map
    [ ("en", list_to_map
        [ ("heroTitle", "Pharmacy Club");
          ("heroMotto", "“The palm: identity and continuous giving. The pill: serving health and community. The book: science, knowledge, and academic excellence.”");
          ("navAbout", "About");
          ("navEvents", "Events");
          ("navNews", "News");
          ("navGallery", "Gallery");
          ("navContact", "Contact");
          ("aboutHeading", "About the Pharmacy Club");
          ("aboutParagraph1", "Participation in professional student organizations enriches the pharmacy experience and helps members explore different career paths while sharpening their leadership and communication skills. As part of the college, the club offers opportunities to engage with peers and professionals, share knowledge about clinical pharmacy, and promote excellence in patient care, research and education. Members are encouraged to develop the interdisciplinary skills needed to thrive in diverse health care settings.");
          ("aboutParagraph2", "Through hands‑on workshops, community service and health outreach, participants refine their clinical and communication abilities, deepen their understanding of patient‑centred care and prepare to improve public health. These experiences embody the club’s motto by emphasising identity and continuous giving, serving health and community and the pursuit of science and knowledge.");
          ("eventsHeading", "Upcoming Events");
          ("newsHeading", "Latest News");
          ("galleryHeading", "Gallery");
          ("contactHeading", "Contact Us");
          ("contactName", "Name");
          ("contactEmail", "Email");
          ("contactMessage", "Message");
          ("contactSubmit", "Send");
          ("contactPlaceholderName", "Your name");
          ("contactPlaceholderEmail", "your@email.com");
          ("contactPlaceholderMessage", "How can we help?");
          ("contactAlert", "Thank you for contacting the Pharmacy Club! We will get back to you shortly.") ]);
      ("ar", list_to_map
        [ ("heroTitle", "نادي الصيدلة");
          ("heroMotto", "“النخلة: الهوية والعطاء المستمر. الحبة: خدمة الصحة والمجتمع. الكتاب: العلم والمعرفة والتفوق الأكاديمي.”");
          ("navAbout", "عن النادي");
          ("navEvents", "الفعاليات");
          ("navNews", "الأخبار");
          ("navGallery", "المعرض");
          ("navContact", "اتصل بنا");
          ("aboutHeading", "عن نادي الصيدلة");
          ("aboutParagraph1", "الانضمام إلى المنظمات الطلابية المهنية يثري تجربة الطالب الصيدلي ويساعد الأعضاء على استكشاف مسارات مهنية مختلفة مع تعزيز مهارات القيادة والتواصل. يوفر النادي فرصًا للتفاعل مع الزملاء والمتخصصين، ومشاركة المعرفة حول الصيدلة السريرية، وتعزيز التميز في رعاية المرضى والبحث والتعليم. يشجع الأعضاء على تطوير المهارات المتعددة التخصصات اللازمة للنجاح في بيئات الرعاية الصحية المتنوعة.");
          ("aboutParagraph2", "من خلال ورش العمل العملية وخدمة المجتمع والتوعية الصحية، يصقل المشاركون مهاراتهم السريرية والاتصالية، ويعمقون فهمهم للرعاية المتمركزة على المريض، ويستعدون لتحسين الصحة العامة. تجسد هذه التجارب شعار النادي بالتأكيد على الهوية والعطاء المستمر، وخدمة الصحة والمجتمع، والسعي إلى العلم والمعرفة.");
          ("eventsHeading", "الفعاليات القادمة");
          ("newsHeading", "آخر الأخبار");
          ("galleryHeading", "معرض الصور");
          ("contactHeading", "اتصل بنا");
          ("contactName", "الاسم");
          ("contactEmail", "البريد الإلكتروني");
          ("contactMessage", "الرسالة");
          ("contactSubmit", "إرسال");
          ("contactPlaceholderName", "اسمك");
          ("contactPlaceholderEmail", "بريدك الإلكتروني");
          ("contactPlaceholderMessage", "كيف يمكننا مساعدتك؟");
          ("contactAlert", "شكرا لتواصلك مع نادي الصيدلة! سنعود إليك قريباً.") ]) ].

Section Realm.

(** [Object.prototype] on the page. *)
Variable proto : prototype.

(** [translations[lang] || translations.en]: the catalog of the
    language, or whatever [translations] inherits under that name when
    that counts as true, or else the English catalog. *)
Definition dictionary (lang : string) : found (gmap string string) :=
  match lookup proto translations lang with
  | Own dict => Own dict
  | Inherited v =>
      if toBoolean v then Inherited v else lookup proto translations "en"
  end.

(** [dict[key]]; [None] when the read raises. *)
Definition entry (dict : found (gmap string string)) (key : string)
  : option (found string) :=
  match dict with
  | Own catalog => Some (lookup proto catalog key)
  | Inherited v => Inherited <$> get v key
  end.

(** The body of the loop over [[data-i18n]]; [None] when it raises. *)
Definition updateText (dict : found (gmap string string)) (el : element)
  : option element :=
  match attrs el !! "data-i18n" with
  | Some key =>
      match entry dict key with
      | Some text =>
          Some (if holdsTrue text
                then {| attrs := attrs el; textContent := asTextContent text |}
                else el)
      | None => None
      end
  | None => Some el
  end.

(** The body of the loop over [[data-placeholder-i18n]]. *)
Definition updatePlaceholder (dict : found (gmap string string)) (el : element)
  : option element :=
  match attrs el !! "data-placeholder-i18n" with
  | Some key =>
      match entry dict key with
      | Some text =>
          Some (if holdsTrue text
                then {| attrs := <["placeholder" := asString text]> (attrs el);
                        textContent := textContent el |}
                else el)
      | None => None
      end
  | None => Some el
  end.

(** The two loops, one after the other. *)
Definition translateAll (dict : found (gmap string string)) (els : list element)
  : completion (list element) :=
  match forEach (updateText dict) els with
  | Normal els1 => forEach (updatePlaceholder dict) els1
  | Throw els1 => Throw els1
  end.

(** [btn.classList.toggle('active', btn.getAttribute('data-lang') === lang)] *)
Definition highlight (lang : string) (btn : button) : button :=
  {| buttonAttrs := buttonAttrs btn;
     classList := if bool_decide (buttonAttrs btn !! "data-lang" = Some lang)
                  then {["active"]} ∪ classList btn
                  else classList btn ∖ {["active"]} |}.

Definition preferenceKey : string := "preferredLanguage".

(** [applyTranslations(lang)].  A read that raises in one of the loops
    ends the call there.  The write to [localStorage] is not guarded
    either: when it raises, the statement after it is not reached. *)
Definition applyTranslations (lang : string) (p : page) : completion page :=
  match translateAll (dictionary lang) (elements p) with
  | Throw els =>
      Throw {| elements := els; bodyDir := bodyDir p; langButtons := langButtons p;
               localStorage := localStorage p; currentLang := currentLang p;
               containers := containers p; trace := trace p ++ [Applied lang] |}
  | Normal els =>
      let shown :=
        {| elements := els;
           bodyDir := Some (if String.eqb lang "ar" then "rtl" else "ltr");
           langButtons := map (highlight lang) (langButtons p);
           localStorage := localStorage p;
           currentLang := currentLang p;
           containers := containers p;
           trace := trace p ++ [Applied lang] |} in
      match setItem preferenceKey lang (localStorage p) with
      | Some st =>
          Normal {| elements := elements shown; bodyDir := bodyDir shown;
                    langButtons := langButtons shown; localStorage := st;
                    currentLang := Some lang; containers := containers shown;
                    trace := trace shown |}
      | None => Throw shown
      end
  end.

(** The last two statements of [initLanguageSwitcher]: read the stored
    language (unguarded), default to English, apply. *)
Definition initLanguageSwitcher (p : page) : completion page :=
  match getItem preferenceKey (localStorage p) with
  | Some stored => applyTranslations (default "en" (or_else stored (Some "en"))) p
  | None => Throw p
  end.

Definition defaultAlert : string :=
  "Thank you for contacting the Pharmacy Club! We will get back to you shortly.".

(** The message the [submit] listener of [#contact-form] passes to
    [alert]; [None] when the listener raises before it gets there.  The
    listener is registered after [initLanguageSwitcher] has published the
    translations. *)
Definition alertMessage (p : page) : option string :=
  let lang := default "en" (or_else (currentLang p) (Some "en")) in
  let dict := lookup proto translations lang in
  let truthyDict :=
    match dict with
    | Own _ => true
    | Inherited v => toBoolean v
    end in
  if truthyDict then
    match entry dict "contactAlert" with
    | Some text => Some (if holdsTrue text then asString text else defaultAlert)
    | None => None
    end
  else Some defaultAlert.

End Realm.

(** *** Content loader *)

Inductive json : Type :=
| JNull
| JBool (b : bool)
| JNumber (literal : string)
| JString (s : string)
| JArray (items : list json)
| JObject (members : list (string * json)).    (* in enumeration order *)

(** How a [fetch(url).then(response => response.json())] settles. *)
Inductive response : Type :=
| NetworkError                 (* fetch rejects *)
| NotJson                      (* response.json() rejects *)
| Json (data : json).

Definition failed (r : response) : bool :=
  match r with Json _ => false | _ => true end.

(** [Object.values(data)[0]]: [None] when [Object.values] raises (on
    null), [Some None] for undefined. *)
Definition firstValue (data : json) : option (option json) :=
  match data with
  | JNull => None
  | JObject members => Some (head (map snd members))
  | JArray items => Some (head items)
  | JString (String c _) => Some (Some (JString (String c EmptyString)))
  | JString EmptyString | JBool _ | JNumber _ => Some None
  end.

(** [items.map(templateFn)]; [None] as soon as the template raises. *)
Fixpoint mapTemplate (templateFn : json -> option string) (items : list json)
  : option (list string) :=
  match items with
  | [] => Some []
  | item :: rest =>
      match templateFn item with
      | Some html =>
          match mapTemplate templateFn rest with
          | Some htmls => Some (html :: htmls)
          | None => None
          end
      | None => None
      end
  end.

Definition join (parts : list string) : string := foldr String.append "" parts.

Definition quote : string := String "034"%char EmptyString.

Definition noEntries : string := "<p>No entries available.</p>".

Definition unableToLoad : string :=
  "<p style=" ++ quote ++ "color: red;" ++ quote ++ ">Unable to load content. If you are viewing this page locally, please run a local web server to allow fetching JSON files.</p>".

(** The second [then] callback: the markup for the container, or [None]
    when the callback raises. *)
Definition render (templateFn : json -> option string) (data : json) : option string :=
  match firstValue data with
  | None => None
  | Some (Some (JArray (item :: rest))) =>
      join <$> mapTemplate templateFn (item :: rest)
  | Some _ => Some noEntries
  end.

Definition setInnerHTML (selector html : string) (p : page) : page :=
  {| elements := elements p; bodyDir := bodyDir p; langButtons := langButtons p;
     localStorage := localStorage p; currentLang := currentLang p;
     containers := <[selector := html]> (containers p); trace := trace p |}.

(** The [catch] callback. *)
Definition onFailure (url containerSelector : string) (p : page) : page :=
  setInnerHTML containerSelector unableToLoad (log (ConsoleError url) p).

(** What [fetchAndRender] does before it returns: it looks the container
    up and, when there is one, issues the request. *)
Definition request (url containerSelector : string) (p : page) : page :=
  match containers p !! containerSelector with
  | None => p
  | Some _ => log (Fetched url) p
  end.

(** The promise chain of an issued request settling with [r]: the second
    [then] callback, or the [catch] callback. *)
Definition settle (url containerSelector : string)
           (templateFn : json -> option string) (r : response) (p : page) : page :=
  match r with
  | Json data =>
      match render templateFn data with
      | Some html => setInnerHTML containerSelector html p
      | None => onFailure url containerSelector p
      end
  | NetworkError | NotJson => onFailure url containerSelector p
  end.

(** One call of [fetchAndRender(url, containerSelector, templateFn)],
    from the call to the point where its promise chain has settled with
    [r]. *)
Definition fetchAndRender (url containerSelector : string)
           (templateFn : json -> option string) (r : response) (p : page) : page :=
  match containers p !! containerSelector with
  | None => p
  | Some _ => settle url containerSelector templateFn r (log (Fetched url) p)
  end.

(** Which of the two requests of [loadJSONContent] settles first: that
    is up to the network. *)
Inductive arrival : Type := NewsFirst | EventsFirst.

(** [loadJSONContent()]: both requests are issued before either settles,
    the news first; then the two promise chains settle in the order
    [first].  The two templates format dates with the browser's locale and
    are taken as given. *)
Definition loadJSONContent (newsTemplate eventTemplate : json -> option string)
           (news events : response) (first : arrival) (p : page) : page :=
  let settleNews q :=
    match containers p !! "#news-list" with
    | Some _ => settle "data/news.json" "#news-list" newsTemplate news q
    | None => q
    end in
  let settleEvents q :=
    match containers p !! "#events-list" with
    | Some _ => settle "data/events.json" "#events-list" eventTemplate events q
    | None => q
    end in
  let requested :=
    request "data/events.json" "#events-list" (request "data/news.json" "#news-list" p) in
  match first with
  | NewsFirst => settleEvents (settleNews requested)
  | EventsFirst => settleNews (settleEvents requested)
  end.

(** *** The image gallery *)

Module Gallery.

(** The class lists of the images of [.gallery] and the cursor. *)
Record slides : Type := {
  images : list (gset string);
  currentIndex : number
}.

Definition size (g : slides) : Z := Z.of_nat (length (images g)).

(** [showImage(index)]: every image loses [active], then the one at
    [index] gets it; [Throw] when there is no image at [index]. *)
Definition showImage (index : number) (g : slides) : completion slides :=
  let cleared := map (fun classes => classes ∖ {["active"]}) (images g) in
  match index with
  | Num z =>
      if Z.ltb z 0 then Throw {| images := cleared; currentIndex := currentIndex g |}
      else match cleared !! Z.to_nat z with
           | Some classes =>
               Normal {| images := <[Z.to_nat z := {["active"]} ∪ classes]> cleared;
                         currentIndex := currentIndex g |}
           | None => Throw {| images := cleared; currentIndex := currentIndex g |}
           end
  | NaN => Throw {| images := cleared; currentIndex := currentIndex g |}
  end.

(** [a === b] on numbers. *)
Definition same (a b : number) : bool :=
  match a, b with
  | Num x, Num y => Z.eqb x y
  | _, _ => false
  end.

Definition moveTo (index : number) (g : slides) : completion slides :=
  showImage index {| images := images g; currentIndex := index |}.

(** Click listener of [#prev]. *)
Definition prev (g : slides) : completion slides :=
  moveTo (if same (currentIndex g) (Num 0)
          then sub (Num (size g)) (Num 1)
          else sub (currentIndex g) (Num 1)) g.

(** Click listener of [#next]. *)
Definition next (g : slides) : completion slides :=
  moveTo (if same (currentIndex g) (sub (Num (size g)) (Num 1))
          then Num 0
          else add (currentIndex g) (Num 1)) g.

(** The callback of [setInterval], every seven seconds. *)
Definition autoplay (g : slides) : completion slides :=
  moveTo (rem (add (currentIndex g) (Num 1)) (Num (size g))) g.

Definition isActive (classes : gset string) : bool :=
  bool_decide ("active" ∈ classes).

End Gallery.

(** *** Highlighting by intersection *)

Module Navigation.

(** A link of [nav]: the element its [href] selects (elements are told
    apart by a number), and its class list. *)
Record navLink : Type := {
  target : option nat;
  linkClasses : gset string
}.

Record entry : Type := {
  entryTarget : nat;
  isIntersecting : bool
}.

(** [sections.indexOf(element)] *)
Fixpoint indexOf (links : list navLink) (element : nat) : option nat :=
  match links with
  | [] => None
  | link :: rest =>
      if bool_decide (target link = Some element) then Some 0
      else S <$> indexOf rest element
  end.

Definition deactivate (link : navLink) : navLink :=
  {| target := target link; linkClasses := linkClasses link ∖ {["active"]} |}.

Definition activate (link : navLink) : navLink :=
  {| target := target link; linkClasses := {["active"]} ∪ linkClasses link |}.

(** The body of the loop over the entries. *)
Definition observeEntry (links : list navLink) (e : entry) : list navLink :=
  if isIntersecting e then
    let cleared := map deactivate links in
    match indexOf links (entryTarget e) with
    | Some i => alter activate i cleared
    | None => cleared
    end
  else links.

(** The callback of the IntersectionObserver. *)
Definition observe (entries : list entry) (links : list navLink) : list navLink :=
  fold_left observeEntry entries links.

Definition isActive (link : navLink) : bool :=
  bool_decide ("active" ∈ linkClasses link).

End Navigation.

End Script.

(** ** Specification-side definitions *)

Module Spec.
Import Js.

(** The two supported language codes. *)
Definition supported (L : string) : Prop := L = "en" \/ L = "ar".

(** Layout direction of a language: right-to-left for Arabic. *)
Definition direction (L : string) : string :=
  if String.eqb L "ar" then "rtl" else "ltr".

(** A well-formed address: a local part, an at sign, a domain, a dot and
    a suffix, the three parts non-empty and free of white space and at
    signs. *)
Definition plain (s : ustring) : Prop :=
  s <> [] /\ Forall (fun c => is_space c = false /\ c <> code "@") s.

Definition wellFormedEmail (v : ustring) : Prop :=
  exists a b c, v = (a ++ [code "@"] ++ b ++ [code "."] ++ c)%list /\
                plain a /\ plain b /\ plain c.

(** The words a regular expression matches. *)
Inductive matches : regex -> ustring -> Prop :=
| MEps : matches Eps []
| MClass p c : p c = true -> matches (Class p) [c]
| MSeq r1 r2 s1 s2 : matches r1 s1 -> matches r2 s2 -> matches (Seq r1 r2) (s1 ++ s2)%list
| MAltL r1 r2 s : matches r1 s -> matches (Alt r1 r2) s
| MAltR r1 r2 s : matches r2 s -> matches (Alt r1 r2) s
| MStarNil r : matches (Star r) []
| MStarApp r s1 s2 : matches r s1 -> matches (Star r) s2 -> matches (Star r) (s1 ++ s2)%list.

(** The known invalid cases of a field, on its trimmed value: an empty
    required field, a malformed non-empty e-mail, an empty required
    selection, a non-empty free text under 10 characters. *)
Definition known_invalid (f : App.Form.field) : Prop :=
  let v := trim (App.Form.value f) in
  (App.Form.required f = true /\ v = [])
  \/ (App.Form.type f = "email" /\ v <> [] /\ ~ wellFormedEmail v)
  \/ (App.Form.tagName f = "SELECT" /\ App.Form.required f = true /\ v = [])
  \/ (App.Form.tagName f = "TEXTAREA" /\ v <> [] /\ length v < 10).

(** The number of message nodes next to a field. *)
Definition messageCount (g : App.Form.group) : nat :=
  length (List.filter App.Form.isErrorMessage (App.Form.siblings g)).

(** A stored preference counts as present when it is a non-empty string. *)
Definition present (stored : option string) : option string :=
  if truthy_opt stored then stored else None.

(** The stored preference as the specification has it: what storage
    holds under the key, when storage can be read and the entry is a text
    that is not empty. *)
Definition preference (key : string) (st : storage) : option string :=
  if readable st then
    match items st !! key with
    | Some L => if String.eqb L "" then None else Some L
    | None => None
    end
  else None.

(** Language resolution at start-up as the specification words it: the
    stored preference if present, else Arabic when the locale signal
    starts with [ar], else English, also without a locale signal. *)
Definition resolve (stored locale : option string) : string :=
  match stored with
  | Some L => L
  | None =>
      match locale with
      | Some l => if startsWith l "ar" then "ar" else "en"
      | None => "en"
      end
  end.

(** The rules of the validator, in the order they are checked, and what
    makes each of them fail. *)
Definition order : list App.Form.rule :=
  [App.Form.Email; App.Form.Required; App.Form.Select; App.Form.MinLength].

Definition fails (f : App.Form.field) (r : App.Form.rule) : bool :=
  let v := trim (App.Form.value f) in
  match r with
  | App.Form.Email =>
      String.eqb (App.Form.type f) "email" && App.Form.nonEmpty v
      && negb (test App.Form.emailPattern v)
  | App.Form.Required => App.Form.required f && negb (App.Form.nonEmpty v)
  | App.Form.Select =>
      String.eqb (App.Form.tagName f) "SELECT" && App.Form.required f
      && negb (App.Form.nonEmpty v)
  | App.Form.MinLength =>
      String.eqb (App.Form.tagName f) "TEXTAREA" && App.Form.nonEmpty v
      && Nat.ltb (length v) 10
  end.

(** The failing rule that is checked last, if any rule fails. *)
Definition decisive (f : App.Form.field) : option App.Form.rule :=
  last (List.filter (fails f) order).

(** The message nodes next to a field. *)
Definition messages (g : App.Form.group) : list App.Form.node :=
  List.filter App.Form.isErrorMessage (App.Form.siblings g).

(** What the page says when a rule fails, in Arabic for [ar] and in
    English otherwise. *)
Definition message (lang : string) (r : App.Form.rule) : string :=
  let arabic := String.eqb lang "ar" in
  match r with
  | App.Form.Required =>
      if arabic then "هذا الحقل مطلوب" else "This field is required"
  | App.Form.Email =>
      if arabic then "يرجى إدخال عنوان بريد إلكتروني صحيح"
      else "Please enter a valid email address"
  | App.Form.Select =>
      if arabic then "يرجى اختيار خيار" else "Please select an option"
  | App.Form.MinLength =>
      if arabic then "يرجى كتابة ١٠ أحرف على الأقل"
      else "Please provide at least 10 characters"
  end.

(** The localized message node of a rule: a node of class
    [error-message] with the message of the rule, aligned to the right
    in Arabic and to the left otherwise. *)
Definition messageNode (lang : string) (r : App.Form.rule) : App.Form.node :=
  {| App.Form.classes := ["error-message"];
     App.Form.textAlign := if String.eqb lang "ar" then "right" else "left";
     App.Form.textContent := message lang r |}.

(** The thanks a visitor reads after a form went through. *)
Definition thanksForContact (lang : string) : string :=
  match lang with
  | "ar" => "شكراً لتواصلك معنا! سنعود إليك قريباً."
  | _ => "Thank you for contacting us! We will get back to you shortly."
  end.

Definition thanksForInterest (lang : string) : string :=
  match lang with
  | "ar" => "شكراً لاهتمامك! سنتواصل معك قريباً بخصوص فرص العضوية."
  | _ => "Thank you for your interest! We will contact you soon about membership opportunities."
  end.

(** The value a node of the attribute-pair convention carries for a
    language: both attributes are there and the one of the language
    (attribute names of HTML elements do not tell upper from lower case)
    is not empty. *)
Definition pairValue (lang : string) (e : App.element) : option string :=
  match App.attrs e !! "data-en", App.attrs e !! "data-ar" with
  | Some _, Some _ =>
      match getAttribute ("data-" ++ lang) (App.attrs e) with
      | Some text => if String.eqb text "" then None else Some text
      | None => None
      end
  | _, _ => None
  end.

(** Where a node of each kind shows its text: inputs (other than submit
    buttons) in the placeholder, options as text, other nodes as text,
    or as markup when the text holds a line break. *)
Definition displays (text : string) (e : App.element) : Prop :=
  if String.eqb (App.tagName e) "INPUT" && negb (String.eqb (App.type e) "submit")
  then App.attrs e !! "placeholder" = Some text
  else if String.eqb (App.tagName e) "OPTION"
  then App.content e = App.TextContent text
  else if includes text "<br>"
  then App.content e = App.InnerHTML text
  else App.content e = App.TextContent text.

(** The fixed error placeholder of the content loader: one red
    paragraph, and no entry. *)
Definition errorPlaceholder : string :=
  "<p style=" ++ String "034"%char "color: red;" ++ String "034"%char ">Unable to load content. If you are viewing this page locally, please run a local web server to allow fetching JSON files.</p>".

(** What the catalog of script.js holds for a language and a key: the
    text under the key in the catalog of the language, when it is not
    empty. *)
Definition catalogValue (lang key : string) : option string :=
  catalog ← Script.translations !! lang;
  text ← catalog !! key;
  if truthy text then Some text else None.

End Spec.

(** ** Predicates on the states of the two scripts *)

Module Props.
Import Js.

(** The manager, the direction flag and the two markers of the root
    element agree on the language. *)
Definition consistent (w : App.world) : Prop :=
  App.isRTL w = String.eqb (App.currentLang w) "ar" /\
  App.htmlAttrs (App.doc w) !! "dir" = Some (Spec.direction (App.currentLang w)) /\
  App.htmlAttrs (App.doc w) !! "lang" = Some (App.currentLang w).

(** Moves through the lightbox: clicks on its two arrows, one after the
    other, up to the first one that raises. *)
Inductive move : Type := ToNext | ToPrevious.

Definition go (m : move) (g : App.gallery) : completion App.gallery :=
  match m with
  | ToNext => App.next g
  | ToPrevious => App.previous g
  end.

Fixpoint browse (moves : list move) (g : App.gallery) : completion App.gallery :=
  match moves with
  | [] => Normal g
  | m :: rest => bind (go m g) (browse rest)
  end.

(** What a settled load leaves in its container. *)
Definition shown (templateFn : Script.json -> option string) (r : Script.response)
  : string :=
  match r with
  | Script.Json data => default Script.unableToLoad (Script.render templateFn data)
  | _ => Script.unableToLoad
  end.

(** A template for tests: a paragraph for a string, an exception for
    anything else. *)
Definition paragraph (item : Script.json) : option string :=
  match item with
  | Script.JString s => Some ("<p>" ++ s ++ "</p>")
  | _ => None
  end.

(** What the two loops of [applyTranslations] write for a key under a
    catalog: the text of the catalog, or the inherited value as a string,
    when it counts as true. *)
Definition written (proto : prototype) (catalog : gmap string string) (key : string)
  : option string :=
  let text := lookup proto catalog key in
  if holdsTrue text then Some (asString text) else None.

(** What they do to one element then: its text, and its placeholder. *)
Definition retranslate (proto : prototype) (catalog : gmap string string)
           (el : Script.element) : Script.element :=
  {| Script.attrs :=
       match Script.attrs el !! "data-placeholder-i18n" ≫= written proto catalog with
       | Some text => <["placeholder" := text]> (Script.attrs el)
       | None => Script.attrs el
       end;
     Script.textContent :=
       default (Script.textContent el)
               (Script.attrs el !! "data-i18n" ≫= written proto catalog) |}.

(** In the gallery of script.js, the image at [j] is the one image
    marked active. *)
Definition onlyActive (j : Z) (g : Script.Gallery.slides) : Prop :=
  forall (k : nat) (classes : gset string),
    Script.Gallery.images g !! k = Some classes ->
    (Script.Gallery.isActive classes = true <-> k = Z.to_nat j).

(** The number of links marked active. *)
Definition activeLinks (links : list Script.Navigation.navLink) : nat :=
  length (List.filter Script.Navigation.isActive links).

(** The number of links the scroll highlighter marks active. *)
Definition activeNav (links : list App.Highlight.navLink) : nat :=
  length (List.filter App.Highlight.isActive links).

(** The menu is open or closed as a whole. *)
Definition inSync (m : App.Menu.menu) : Prop :=
  "active" ∈ App.Menu.hamburger m <-> "active" ∈ App.Menu.navMenu m.

(** What can happen to the notifications: one is shown, the visitor
    clicks the one on show, or the next timer fires. *)
Inductive noteEvent : Type :=
| Shows (text type : string) (isRTL : bool)
| Clicks
| TimerFires.

Definition noteStep (e : noteEvent) (b : App.Notification.board) : App.Notification.board :=
  match e with
  | Shows text type isRTL => App.Notification.showNotification text type isRTL b
  | Clicks => App.Notification.clickShown b
  | TimerFires => App.Notification.fire b
  end.

Fixpoint notePlay (es : list noteEvent) (b : App.Notification.board)
  : App.Notification.board :=
  match es with
  | [] => b
  | e :: rest => notePlay rest (noteStep e b)
  end.

(** How many timers are still to fire once those pending have fired: a
    pending auto-hide brings one more timer with it. *)
Definition timersAhead (ts : list (nat * App.Notification.callback)) : nat :=
  foldr (fun t n => match snd t with
                    | App.Notification.AutoHide _ _ => 2 + n
                    | _ => 1 + n
                    end) 0 ts.

(** Every notification on the board is number [n], and as long as one is
    there, a timer that will hide or detach it is pending. *)
Definition doomed (n : nat) (b : App.Notification.board) : Prop :=
  Forall (fun note => App.Notification.ident note = n) (App.Notification.attached b) /\
  (App.Notification.attached b <> [] ->
   (exists d r, (d, App.Notification.AutoHide n r) ∈ App.Notification.pending b)
   \/ (exists d, (d, App.Notification.Detach n) ∈ App.Notification.pending b)).

(** *** Submitting a form *)

(** The fields the submit handlers look up, in the order they validate
    them. *)
Definition contactFields (f : App.Submit.contactForm) : list (option App.Submit.control) :=
  [ App.Submit.contactName f; App.Submit.contactEmail f;
    App.Submit.contactSubject f; App.Submit.contactMessage f ].

Definition membershipFields (f : App.Submit.membershipForm)
  : list (option App.Submit.control) :=
  [ App.Submit.studentName f; App.Submit.studentEmail f; App.Submit.yearLevel f ].

Definition valueOf (c : App.Submit.control) : Js.ustring :=
  App.Form.value (App.Form.control (App.Submit.body c)).

Definition marked (c : App.Submit.control) : Prop :=
  "error" ∈ App.Form.classList (App.Form.control (App.Submit.body c)).

(** A missing field passes; a field passes when the rule chain leaves
    [isValid] true. *)
Definition passes (proto : prototype) (lang : string) (c : option App.Submit.control)
  : bool :=
  match c with
  | None => true
  | Some ctl =>
      match App.Form.verdict proto lang (App.Form.control (App.Submit.body ctl)) with
      | Some (true, _) => true
      | _ => false
      end
  end.

(** A field after [validateField] was called on it. *)
Definition validated (proto : prototype) (lang : string) (c : App.Submit.control)
  : App.Submit.control :=
  {| App.Submit.body :=
       App.Form.group_of (App.Form.validateField proto lang (App.Submit.body c));
     App.Submit.defaultValue := App.Submit.defaultValue c |}.

(** The form was accepted: one success notification with the thanks,
    every control back at its default value, no looked-up field marked. *)
Definition accepted (thanks : string)
           (fields : list (option App.Submit.control)) (others : list App.Submit.control)
           (fields' : list (option App.Submit.control)) (others' : list App.Submit.control)
           (board' : App.Notification.board) : Prop :=
  (exists note,
     App.Notification.attached board' = [note] /\
     App.Notification.message note = thanks /\
     App.Notification.className note = "notification notification--success") /\
  Forall2 (option_Forall2
             (fun a b => valueOf b = App.Submit.defaultValue a /\ ~ marked b))
          fields fields' /\
  Forall2 (fun a b => valueOf b = App.Submit.defaultValue a) others others'.

(** A field fails when one of the rules of the validator does. *)
Definition failing (c : option App.Submit.control) : bool :=
  match c with
  | None => false
  | Some ctl =>
      existsb (Spec.fails (App.Form.control (App.Submit.body ctl))) Spec.order
  end.

(** The form was rejected: no notification, no value touched, and every
    looked-up field that fails, not the first one only, is marked and
    has as the last node next to it the message node of the failing rule
    that is checked last; the fields that do not fail are not marked. *)
Definition rejected (lang : string)
           (fields : list (option App.Submit.control)) (others : list App.Submit.control)
           (board : App.Notification.board)
           (fields' : list (option App.Submit.control)) (others' : list App.Submit.control)
           (board' : App.Notification.board) : Prop :=
  board' = board /\ others' = others /\
  Forall2 (option_Forall2
             (fun a b =>
                valueOf b = valueOf a /\
                (marked b <-> failing (Some a) = true) /\
                (forall r,
                   Spec.decisive (App.Form.control (App.Submit.body a)) = Some r ->
                   last (App.Form.siblings (App.Submit.body b))
                   = Some (Spec.messageNode lang r))))
          fields fields'.

Definition allOrNothing (lang thanks : string)
           (fields : list (option App.Submit.control)) (others : list App.Submit.control)
           (board : App.Notification.board)
           (fields' : list (option App.Submit.control)) (others' : list App.Submit.control)
           (board' : App.Notification.board) : Prop :=
  if existsb failing fields
  then rejected lang fields others board fields' others' board'
  else accepted thanks fields others fields' others' board'.

End Props.

(** ** Sample pages *)

Module Examples.
Import Js.

(** [Object.prototype] as browsers have it, two reads deep: its methods
    and, under [__proto__], the prototype itself; of a method its name, its
    number of parameters, the poisoned [caller] and [arguments], and the
    methods it inherits; of the [Object] function, under [constructor],
    also [prototype] and its static methods (those of the 2019 edition of
    the language). *)
Definition primitive (truthy : bool) (text : string) : value :=
  Thing truthy text (fun _ => Some Undefined).

Definition nativeCode (name : string) : string :=
  "function " ++ name ++ "() { [native code] }".

Definition objectMethods : list (string * string) :=
  [ ("constructor", "1"); ("hasOwnProperty", "1"); ("isPrototypeOf", "1");
    ("propertyIsEnumerable", "1"); ("toLocaleString", "0"); ("toString", "0");
    ("valueOf", "0"); ("__defineGetter__", "2"); ("__defineSetter__", "2");
    ("__lookupGetter__", "1"); ("__lookupSetter__", "1") ].

Definition functionMethods : list string := ["apply"; "bind"; "call"].

Definition nameOf (k : string) : string :=
  if String.eqb k "constructor" then "Object" else k.

Definition isMethod (k : string) : bool :=
  existsb (fun m => String.eqb (fst m) k) objectMethods.

Definition objectStatics : list string :=
  [ "assign"; "create"; "defineProperties"; "defineProperty"; "entries"; "freeze";
    "fromEntries"; "getOwnPropertyDescriptor"; "getOwnPropertyDescriptors";
    "getOwnPropertyNames"; "getOwnPropertySymbols"; "getPrototypeOf"; "is";
    "isExtensible"; "isFrozen"; "isSealed"; "keys"; "preventExtensions"; "seal";
    "setPrototypeOf"; "values" ].

Definition nativeFunction (name arity : string) : value :=
  Thing true (nativeCode name)
    (fun k =>
       if String.eqb k "name" then Some (primitive true name)
       else if String.eqb name "Object" && String.eqb k "prototype"
       then Some (primitive true "[object Object]")
       else if String.eqb name "Object" && existsb (String.eqb k) objectStatics
       then Some (primitive true (nativeCode k))
       else if String.eqb k "length"
       then Some (primitive (negb (String.eqb arity "0")) arity)
       else if String.eqb k "caller" || String.eqb k "arguments" then None
       else if String.eqb k "__proto__" then Some (primitive true (nativeCode ""))
       else if existsb (String.eqb k) functionMethods
       then Some (primitive true (nativeCode k))
       else if String.eqb k "constructor"
       then Some (primitive true (nativeCode "Function"))
       else if isMethod k then Some (primitive true (nativeCode k))
       else Some Undefined).

Definition objectPrototype : prototype :=
  fun k =>
    if String.eqb k "__proto__"
    then Thing true "[object Object]"
           (fun j =>
              if String.eqb j "__proto__" then Some Null
              else if isMethod j then Some (primitive true (nativeCode (nameOf j)))
              else Some Undefined)
    else match List.find (fun m => String.eqb (fst m) k) objectMethods with
         | Some (_, arity) => nativeFunction (nameOf k) arity
         | None => Undefined
         end.

Definition emptyStore : storage :=
  {| items := ∅; readable := true; writable := true |}.

(** Storage that refuses writes (full, or disabled by the browser). *)
Definition fullStore : storage :=
  {| items := ∅; readable := true; writable := false |}.

Definition picture (name text : string) : App.image :=
  {| App.src := Some name; App.caption := text |}.

Definition lightbox (images : list App.image) (i : number) : App.gallery :=
  {| App.galleryItems := [];
     App.galleryImages := images;
     App.currentImageIndex := i;
     App.lightboxImg := Some {| App.imgSrc := None; App.imgAlt := "" |};
     App.lightboxCaption := Some "" |}.

Definition threeImages : App.gallery :=
  lightbox [picture "lab.jpg" "Lab"; picture "fair.jpg" "Health fair";
            picture "team.jpg" "Team"] (Num 2).

Definition noImages : App.gallery := lightbox [] (Num 0).

(** A page of the attribute-pair convention: a heading, a paragraph with
    a line break, a text input, a select option, and a heading whose
    Arabic text was left empty. *)
Definition tagged (tag ty : string) (en ar shown : string) : App.element :=
  {| App.tagName := tag; App.type := ty;
     App.attrs := <["data-en" := en]> (<["data-ar" := ar]> ∅);
     App.content := App.TextContent shown; App.inSelect := String.eqb tag "OPTION" |}.

Definition homeDocument : App.document :=
  {| App.htmlAttrs := <["lang" := "en"]> (<["dir" := "ltr"]> ∅);
     App.title := "Pharmacy Club - College";
     App.bodyClasses := ∅;
     App.elements :=
       [ tagged "H1" "" "Pharmacy Club" "نادي الصيدلة" "Pharmacy Club";
         tagged "P" "" "Palm<br>Pill<br>Book" "النخلة<br>الحبة<br>الكتاب" "Palm Pill Book";
         tagged "INPUT" "text" "Your name" "اسمك" "";
         tagged "OPTION" "" "First year" "السنة الأولى" "First year";
         tagged "H2" "" "Sponsors" "" "Sponsors" ];
     App.langText := Some "العربية" |}.

Definition home (st : storage) (locale : option string) : App.page :=
  {| App.pageDoc := homeDocument;
     App.pageStore := st;
     App.pageNav := {| App.language := locale; App.userLanguage := None |};
     App.pageItems := [];
     App.pageLightboxImg := None;
     App.pageLightboxCaption := None |}.

(** The state of app.js on the page above, shown in English. *)
Definition english (st : storage) : App.world :=
  {| App.currentLang := "en"; App.isRTL := false; App.doc := homeDocument;
     App.store := st; App.gal := noImages; App.timers := []; App.now := 0;
     App.trace := [] |}.

(** Pages of the catalog-key convention, shown in English: one with a
    title, a node whose key the catalog lacks, and an input with a
    placeholder key; one with a node whose key is [constructor]. *)
Definition keyed (attr key shown : string) : Script.element :=
  {| Script.attrs := <[attr := key]> ∅; Script.textContent := shown |}.

Definition visit (st : storage) : Script.page :=
  {| Script.elements :=
       [ keyed "data-i18n" "heroTitle" "Pharmacy Club";
         keyed "data-i18n" "sponsors" "Sponsors";
         keyed "data-placeholder-i18n" "contactPlaceholderName" "" ];
     Script.bodyDir := Some "ltr";
     Script.langButtons :=
       [ {| Script.buttonAttrs := <["data-lang" := "en"]> ∅;
            Script.classList := {["active"]} |};
         {| Script.buttonAttrs := <["data-lang" := "ar"]> ∅;
            Script.classList := ∅ |} ];
     Script.localStorage := st;
     Script.currentLang := Some "en";
     Script.containers := <["#news-list" := ""]> (<["#events-list" := ""]> ∅);
     Script.trace := [] |}.

Definition builders : Script.page :=
  {| Script.elements :=
       [ keyed "data-i18n" "constructor" "Builders";
         keyed "data-i18n" "sponsors" "Sponsors" ];
     Script.bodyDir := Some "ltr";
     Script.langButtons := [];
     Script.localStorage := emptyStore;
     Script.currentLang := Some "en";
     Script.containers := ∅;
     Script.trace := [] |}.

(** Fields of the two forms. *)
Definition control (tag ty : string) (req : bool) (v : string) : App.Form.field :=
  {| App.Form.tagName := tag; App.Form.type := ty; App.Form.required := req;
     App.Form.value := ustr v; App.Form.classList := {["form-control"]} |}.

Definition alone (f : App.Form.field) : App.Form.group :=
  {| App.Form.control := f; App.Form.siblings := [] |}.

(** The year-level select of the membership form, nothing chosen. *)
Definition yearLevel : App.Form.field := control "SELECT" "select-one" true "".

(** The message of the contact form, five characters long. *)
Definition shortMessage : App.Form.field := control "TEXTAREA" "textarea" true "Hello".

Definition studentName : App.Form.field := control "INPUT" "text" true " Layla ".

End Examples.

(** ** More sample states *)

Module Samples.
Import Js.

(** A store that holds a preference. *)
Definition storing (lang : string) : storage :=
  {| items := <[App.storageKey := lang]> ∅; readable := true; writable := true |}.

(** The same for script.js, which keeps its preference under a key of
    its own. *)
Definition preferring (lang : string) : storage :=
  {| items := <["preferredLanguage" := lang]> ∅; readable := true; writable := true |}.

(** Three slides, the first one on show. *)
Definition threeSlides : Script.Gallery.slides :=
  {| Script.Gallery.images := [{["active"]}; ∅; {["wide"]}];
     Script.Gallery.currentIndex := Num 0 |}.

(** Three links of the navigation, the second one pointing nowhere. *)
Definition threeLinks : list Script.Navigation.navLink :=
  [ {| Script.Navigation.target := Some 10; Script.Navigation.linkClasses := {["active"]} |};
    {| Script.Navigation.target := None; Script.Navigation.linkClasses := {["active"]} |};
    {| Script.Navigation.target := Some 30; Script.Navigation.linkClasses := ∅ |} ].

(** A lightbox, closed, over a gallery of two items; the second item has
    an Arabic caption of its own. *)
Definition twoItems : list App.galleryItem :=
  [ {| App.itemAttrs := <["data-src" := "lab.jpg"]> ∅; App.captionEl := None |};
    {| App.itemAttrs := <["data-src" := "fair.jpg"]> (<["data-caption-ar" := "معرض"]> ∅);
       App.captionEl := None |} ].

Definition closedStage : App.Lightbox.stage :=
  {| App.Lightbox.scene :=
       App.set_gal
         {| App.galleryItems := twoItems; App.galleryImages := [];
            App.currentImageIndex := Num 0;
            App.lightboxImg := Some {| App.imgSrc := None; App.imgAlt := "" |};
            App.lightboxCaption := Some "" |}
         (App.set_manager "ar" true (Examples.english Examples.emptyStore));
     App.Lightbox.lightbox := Some {["lightbox"; "hidden"]};
     App.Lightbox.overflow := "";
     App.Lightbox.prevButton := true;
     App.Lightbox.nextButton := true |}.

(** Sections stacked one below the other, and the links to them. *)
Definition threeSections : list App.Highlight.section :=
  [ {| App.Highlight.sectionId := "hero"; App.Highlight.offsetTop := 0;
       App.Highlight.offsetHeight := 600 |};
    {| App.Highlight.sectionId := "about"; App.Highlight.offsetTop := 600;
       App.Highlight.offsetHeight := 800 |};
    {| App.Highlight.sectionId := "contact"; App.Highlight.offsetTop := 1400;
       App.Highlight.offsetHeight := 500 |} ].

Definition sectionLinks : list App.Highlight.navLink :=
  [ {| App.Highlight.href := Some "#hero"; App.Highlight.linkClasses := {["nav-link"; "active"]} |};
    {| App.Highlight.href := Some "#about"; App.Highlight.linkClasses := {["nav-link"]} |};
    {| App.Highlight.href := Some "#contact"; App.Highlight.linkClasses := {["nav-link"]} |} ].

(** A board with nothing on it. *)
Definition emptyBoard : App.Notification.board :=
  {| App.Notification.attached := []; App.Notification.pending := [];
     App.Notification.clock := 0; App.Notification.created := 0 |}.

(** A contact form filled in badly: no name, an address without a
    domain, no subject field on the page, a message of five characters. *)
Definition badContact : App.Submit.contactForm :=
  {| App.Submit.contactName :=
       Some {| App.Submit.body := Examples.alone (Examples.control "INPUT" "text" true "");
               App.Submit.defaultValue := [] |};
     App.Submit.contactEmail :=
       Some {| App.Submit.body :=
                 Examples.alone (Examples.control "INPUT" "email" true "layla");
               App.Submit.defaultValue := [] |};
     App.Submit.contactSubject := None;
     App.Submit.contactMessage :=
       Some {| App.Submit.body := Examples.alone Examples.shortMessage;
               App.Submit.defaultValue := [] |};
     App.Submit.contactOthers := [];
     App.Submit.contactBoard := emptyBoard |}.

(** A membership form filled in well. *)
Definition goodMembership : App.Submit.membershipForm :=
  {| App.Submit.studentName :=
       Some {| App.Submit.body := Examples.alone Examples.studentName;
               App.Submit.defaultValue := [] |};
     App.Submit.studentEmail :=
       Some {| App.Submit.body :=
                 Examples.alone (Examples.control "INPUT" "email" true "layla@qu.edu.qa");
               App.Submit.defaultValue := [] |};
     App.Submit.yearLevel :=
       Some {| App.Submit.body :=
                 Examples.alone (Examples.control "SELECT" "select-one" true "3");
               App.Submit.defaultValue := Js.ustr "1" |};
     App.Submit.membershipOthers := [];
     App.Submit.membershipBoard := emptyBoard |}.

End Samples.

(** ** Properties of the JavaScript primitives *)

Section Numbers.
Import Js.

Lemma rem_in_range (x n : Z) :
  (0 <= x)%Z -> (0 < n)%Z ->
  rem (Num x) (Num n) = Num (x mod n) /\ (0 <= x mod n < n)%Z.
Proof.
  intros Hx Hn. unfold rem.
  destruct (Z.eqb_spec n 0) as [->|_]; [lia|].
  rewrite Z.rem_mod_nonneg by lia.
  split; [reflexivity | apply Z.mod_pos_bound; lia].
Qed.

Lemma index_in_range {A} (arr : list A) (i : Z) :
  (0 <= i < Z.of_nat (length arr))%Z -> is_Some (index arr (Num i)).
Proof.
  intros Hi. unfold index.
  destruct (Z.ltb_spec i 0); [lia|].
  apply lookup_lt_is_Some. lia.
Qed.

End Numbers.

Section Regex.
Import Js Spec.

Lemma nullable_matches r : nullable r = true <-> matches r [].
Proof.
  split.
  - induction r; simpl; intros H; try discriminate.
    + constructor.
    + apply andb_true_iff in H as [H1 H2].
      change (@nil codeunit) with (@nil codeunit ++ [])%list.
      constructor; auto.
    + apply orb_true_iff in H as [H|H]; [apply MAltL | apply MAltR]; auto.
    + constructor.
  - intros H. remember [] as s eqn:Hs.
    induction H; simpl; subst; try discriminate; auto.
    + apply app_eq_nil in Hs as [-> ->].
      rewrite IHmatches1, IHmatches2; auto.
    + rewrite IHmatches; auto.
    + rewrite IHmatches; auto using orb_true_r.
Qed.

Lemma matches_deriv c r s : matches r (c :: s) -> matches (deriv c r) s.
Proof.
  intros H. remember (c :: s) as cs eqn:Hcs. revert s Hcs.
  induction H; intros t Hcs; simpl; try discriminate.
  - injection Hcs as -> <-. rewrite H. constructor.
  - destruct s1 as [|c1 s1]; simpl in Hcs.
    + subst s2. apply nullable_matches in H. rewrite H.
      apply MAltR. auto.
    + injection Hcs as -> <-.
      destruct (nullable r1); [apply MAltL|]; constructor; auto.
  - apply MAltL; auto.
  - apply MAltR; auto.
  - destruct s1 as [|c1 s1]; simpl in Hcs.
    + auto.
    + injection Hcs as -> <-. constructor; auto.
Qed.

Lemma deriv_matches c r s : matches (deriv c r) s -> matches r (c :: s).
Proof.
  revert s. induction r; simpl; intros s H.
  - inversion H.
  - inversion H.
  - destruct (p c) eqn:Hp; inversion H; subst. constructor; auto.
  - destruct (nullable r1) eqn:Hn.
    + inversion H; subst.
      * match goal with Hm : matches (Seq _ _) _ |- _ => inversion Hm; subst end.
        change (c :: (s1 ++ s2)%list) with ((c :: s1) ++ s2)%list.
        constructor; auto.
      * change (c :: s) with ([] ++ c :: s)%list.
        constructor; auto. apply nullable_matches; auto.
    + inversion H; subst.
      change (c :: (s1 ++ s2)%list) with ((c :: s1) ++ s2)%list.
      constructor; auto.
  - inversion H; subst; [apply MAltL | apply MAltR]; auto.
  - inversion H; subst.
    change (c :: (s1 ++ s2)%list) with ((c :: s1) ++ s2)%list.
    constructor; auto.
Qed.

(** The matcher decides the language of the expression. *)
Lemma test_matches r s : test r s = true <-> matches r s.
Proof.
  revert r. induction s as [|c s IH]; intros r; simpl.
  - apply nullable_matches.
  - rewrite IH. split; [apply deriv_matches | apply matches_deriv].
Qed.

End Regex.

Section EmailPattern.
Import Js Spec App.Form.

Lemma matches_seq r1 r2 s :
  matches (Seq r1 r2) s <->
  exists s1 s2, s = (s1 ++ s2)%list /\ matches r1 s1 /\ matches r2 s2.
Proof.
  split.
  - intros H. inversion H; subst. eauto.
  - intros (s1 & s2 & -> & H1 & H2). constructor; auto.
Qed.

Lemma matches_class p s :
  matches (Class p) s <-> exists c, s = [c] /\ p c = true.
Proof.
  split.
  - intros H. inversion H; subst. eauto.
  - intros (c & -> & Hc). constructor; auto.
Qed.

Lemma matches_chr a s : matches (Chr a) s <-> s = [code a].
Proof.
  unfold Chr. rewrite matches_class. split.
  - intros (c & -> & Hc). apply N.eqb_eq in Hc. congruence.
  - intros ->. exists (code a). split; [reflexivity | apply N.eqb_refl].
Qed.

Lemma matches_star_class p s :
  matches (Star (Class p)) s <-> Forall (fun c => p c = true) s.
Proof.
  split.
  - intros H. remember (Star (Class p)) as r eqn:Hr.
    induction H; try discriminate.
    + constructor.
    + injection Hr as ->. inversion H; subst. simpl.
      constructor; auto.
  - induction 1 as [|c s Hc _ IH].
    + constructor.
    + change (c :: s) with ([c] ++ s)%list.
      constructor; [constructor|]; auto.
Qed.

Lemma matches_plus_class p s :
  matches (Plus (Class p)) s <-> s <> [] /\ Forall (fun c => p c = true) s.
Proof.
  unfold Plus. rewrite matches_seq. split.
  - intros (s1 & s2 & -> & H1 & H2).
    apply matches_class in H1 as (c & -> & Hc).
    apply matches_star_class in H2.
    split; [discriminate | constructor; auto].
  - intros [Hne H]. destruct H as [|c s Hc Hs]; [congruence|].
    exists [c], s. split; [reflexivity|].
    split; [apply matches_class; eauto | apply matches_star_class; auto].
Qed.

Lemma notSpaceAt_true c :
  notSpaceAt c = true <-> is_space c = false /\ c <> code "@".
Proof.
  unfold notSpaceAt.
  rewrite andb_true_iff, !negb_true_iff, N.eqb_neq. tauto.
Qed.

Lemma matches_plain s : matches (Plus (Class notSpaceAt)) s <-> plain s.
Proof.
  rewrite matches_plus_class. unfold plain.
  split; intros [Hne H]; (split; [exact Hne|]);
    eapply Forall_impl; try exact H; intros c Hc; apply notSpaceAt_true; exact Hc.
Qed.

(** The e-mail pattern accepts exactly the well-formed addresses. *)
Lemma emailPattern_wellFormed v :
  test emailPattern v = true <-> wellFormedEmail v.
Proof.
  rewrite test_matches. unfold emailPattern, wellFormedEmail. split.
  - intros H.
    apply matches_seq in H as (a & t1 & -> & Ha & H).
    apply matches_seq in H as (x & t2 & -> & Hx & H).
    apply matches_seq in H as (b & t3 & -> & Hb & H).
    apply matches_seq in H as (y & c & -> & Hy & Hc).
    apply matches_chr in Hx as ->. apply matches_chr in Hy as ->.
    exists a, b, c. rewrite <- !matches_plain. auto.
  - intros (a & b & c & -> & Ha & Hb & Hc).
    rewrite <- matches_plain in Ha, Hb, Hc.
    repeat (constructor; auto); apply matches_chr; reflexivity.
Qed.

Example email_accepted : test emailPattern (ustr "dean@college.edu") = true.
Proof. reflexivity. Qed.

Example email_rejected : test emailPattern (ustr "dean@college") = false.
Proof. reflexivity. Qed.

Example trim_example : trim (ustr "  a b  ") = ustr "a b".
Proof. reflexivity. Qed.

End EmailPattern.

(** ** The gallery cursor *)

Section Gallery.
Import Js App.

Lemma showLightboxImage_frame g :
  currentImageIndex (state_of (showLightboxImage g)) = currentImageIndex g /\
  galleryImages (state_of (showLightboxImage g)) = galleryImages g.
Proof.
  unfold showLightboxImage.
  destruct (galleryImages g) eqn:Hi, (lightboxImg g), (lightboxCaption g);
    simpl; auto.
  destruct (index _ _); simpl; auto.
Qed.

Lemma showLightboxImage_returns g i :
  currentImageIndex g = Num i ->
  (0 <= i < Z.of_nat (length (galleryImages g)))%Z ->
  returns (showLightboxImage g) = true.
Proof.
  intros Hi Hr. unfold showLightboxImage.
  destruct (galleryImages g) eqn:Himgs, (lightboxImg g), (lightboxCaption g);
    simpl; auto.
  rewrite Hi. rewrite <- Himgs in Hr |- *.
  destruct (index_in_range (galleryImages g) i Hr) as [im ->]. reflexivity.
Qed.

(** One click on next, from an index of the list. *)
Lemma next_step g i :
  let n := Z.of_nat (length (galleryImages g)) in
  currentImageIndex g = Num i -> (0 <= i < n)%Z ->
  returns (next g) = true /\
  currentImageIndex (state_of (next g)) = Num ((i + 1) mod n) /\
  galleryImages (state_of (next g)) = galleryImages g.
Proof.
  intros n Hi Hr. unfold next.
  set (g' := setIndex _ g).
  assert (Hg' : currentImageIndex g' = Num ((i + 1) mod n) /\
                (0 <= (i + 1) mod n < n)%Z).
  { subst g'. simpl. rewrite Hi. unfold len. simpl add.
    fold n. apply rem_in_range; lia. }
  destruct Hg' as [Hidx Hrange].
  destruct (showLightboxImage_frame g') as [F1 F2].
  split; [|split].
  - eapply showLightboxImage_returns; eauto.
  - rewrite F1. exact Hidx.
  - rewrite F2. reflexivity.
Qed.

(** One click on previous, from an index of the list. *)
Lemma previous_step g i :
  let n := Z.of_nat (length (galleryImages g)) in
  currentImageIndex g = Num i -> (0 <= i < n)%Z ->
  returns (previous g) = true /\
  currentImageIndex (state_of (previous g)) = Num ((i - 1 + n) mod n) /\
  galleryImages (state_of (previous g)) = galleryImages g.
Proof.
  intros n Hi Hr. unfold previous.
  set (g' := setIndex _ g).
  assert (Hg' : currentImageIndex g' = Num ((i - 1 + n) mod n) /\
                (0 <= (i - 1 + n) mod n < n)%Z).
  { subst g'. simpl. rewrite Hi. unfold len. simpl add.
    fold n. apply rem_in_range; lia. }
  destruct Hg' as [Hidx Hrange].
  destruct (showLightboxImage_frame g') as [F1 F2].
  split; [|split].
  - eapply showLightboxImage_returns; eauto.
  - rewrite F1. exact Hidx.
  - rewrite F2. reflexivity.
Qed.

Lemma nextTimes_index k : forall g i,
  let n := Z.of_nat (length (galleryImages g)) in
  currentImageIndex g = Num i -> (0 <= i < n)%Z ->
  currentImageIndex (nextTimes k g) = Num ((i + Z.of_nat k) mod n).
Proof.
  induction k as [|k IH]; intros g i n Hi Hr.
  - simpl. rewrite Z.add_0_r, Z.mod_small by lia. exact Hi.
  - simpl nextTimes.
    destruct (next_step g i Hi Hr) as (_ & Hidx & Himgs).
    specialize (IH (state_of (next g)) ((i + 1) mod n)%Z).
    cbv zeta in IH. rewrite Himgs in IH. fold n in IH.
    rewrite IH; [| exact Hidx | apply Z.mod_pos_bound; lia].
    f_equal. rewrite Zplus_mod_idemp_l. f_equal. lia.
Qed.

End Gallery.

(** ** The loops of [applyTranslations] *)

Section Loops.
Import Js.

Lemma forEach_map {A} (f : A -> option A) (g : A -> A) l :
  (forall x, f x = Some (g x)) -> forEach f l = Normal (map g l).
Proof.
  intros Hf. induction l as [|x l IH]; [reflexivity|].
  simpl. rewrite Hf, IH. reflexivity.
Qed.

Lemma forEach_fixed {A} (f : A -> option A) l :
  Forall (fun x => f x = Some x) l -> forEach f l = Normal l.
Proof.
  induction 1 as [|x l Hx _ IH]; [reflexivity|].
  simpl. rewrite Hx, IH. reflexivity.
Qed.

(** Running a loop again over what it left, where a second visit of an
    element changes nothing, ends as the first run did. *)
Lemma forEach_again {A} (f : A -> option A) l :
  (forall x y, f x = Some y -> f y = Some y) ->
  forEach f (state_of (forEach f l)) = forEach f l.
Proof.
  intros Hf. induction l as [|x l IH]; [reflexivity|].
  simpl. destruct (f x) as [y|] eqn:Hx.
  - destruct (forEach f l) as [l'|l'] eqn:Hl; simpl in *;
      rewrite (Hf x y Hx), IH; reflexivity.
  - simpl. rewrite Hx. reflexivity.
Qed.

Lemma forEach_keeps {A} (P : A -> Prop) (f : A -> option A) l :
  (forall x y, P x -> f x = Some y -> P y) ->
  Forall P l -> Forall P (state_of (forEach f l)).
Proof.
  intros Hf. induction 1 as [|x l Hx Hl IH]; [constructor|].
  simpl. destruct (f x) as [y|] eqn:Hy.
  - destruct (forEach f l) as [l'|l']; simpl in *;
      constructor; eauto.
  - simpl. constructor; assumption.
Qed.

Lemma forEach_visited {A} (f : A -> option A) l l' :
  (forall x y, f x = Some y -> f y = Some y) ->
  forEach f l = Normal l' -> Forall (fun y => f y = Some y) l'.
Proof.
  intros Hf. revert l'. induction l as [|x l IH]; intros l' H; simpl in H.
  - injection H as <-. constructor.
  - destruct (f x) as [y|] eqn:Hx; [|discriminate].
    destruct (forEach f l) as [r|r]; [|discriminate].
    injection H as <-. constructor; eauto.
Qed.

End Loops.

Section Applying.
Import Js Script.

Variable proto : prototype.

Lemma element_eq (a b : element) :
  attrs a = attrs b -> textContent a = textContent b -> a = b.
Proof. destruct a, b. simpl. intros -> ->. reflexivity. Qed.

Lemma updateText_attrs dict x y : updateText proto dict x = Some y -> attrs y = attrs x.
Proof.
  unfold updateText. destruct (attrs x !! "data-i18n"); [|intros [= <-]; reflexivity].
  destruct (entry proto dict _) as [t|]; [|discriminate].
  intros [= <-]. destruct (holdsTrue t); reflexivity.
Qed.

Lemma updateText_again dict x y :
  updateText proto dict x = Some y -> updateText proto dict y = Some y.
Proof.
  intros H. pose proof (updateText_attrs dict x y H) as Ha.
  unfold updateText in *. rewrite Ha.
  destruct (attrs x !! "data-i18n") as [k|]; [|reflexivity].
  destruct (entry proto dict k) as [t|]; [|discriminate].
  injection H as <-. destruct (holdsTrue t); reflexivity.
Qed.

Lemma updatePlaceholder_key dict x y k :
  k <> "placeholder" ->
  updatePlaceholder proto dict x = Some y -> attrs y !! k = attrs x !! k.
Proof.
  intros Hk. unfold updatePlaceholder.
  destruct (attrs x !! "data-placeholder-i18n"); [|intros [= <-]; reflexivity].
  destruct (entry proto dict _) as [t|]; [|discriminate].
  intros [= <-]. destruct (holdsTrue t); [|reflexivity].
  simpl. apply lookup_insert_ne. congruence.
Qed.

Lemma updatePlaceholder_text dict x y :
  updatePlaceholder proto dict x = Some y -> textContent y = textContent x.
Proof.
  unfold updatePlaceholder.
  destruct (attrs x !! "data-placeholder-i18n"); [|intros [= <-]; reflexivity].
  destruct (entry proto dict _) as [t|]; [|discriminate].
  intros [= <-]. destruct (holdsTrue t); reflexivity.
Qed.

Lemma updatePlaceholder_again dict x y :
  updatePlaceholder proto dict x = Some y -> updatePlaceholder proto dict y = Some y.
Proof.
  intros H.
  pose proof (updatePlaceholder_key dict x y "data-placeholder-i18n"
                ltac:(discriminate) H) as Hk.
  unfold updatePlaceholder in *. rewrite Hk.
  destruct (attrs x !! "data-placeholder-i18n") as [k|]; [|reflexivity].
  destruct (entry proto dict k) as [t|]; [|discriminate].
  injection H as <-. destruct (holdsTrue t); [|reflexivity].
  simpl. rewrite insert_insert_eq. reflexivity.
Qed.

(** The placeholder loop does not disturb what the text loop did. *)
Lemma updatePlaceholder_keeps_text dict x y :
  updateText proto dict x = Some x ->
  updatePlaceholder proto dict x = Some y -> updateText proto dict y = Some y.
Proof.
  intros Hx Hy.
  pose proof (updatePlaceholder_key dict x y "data-i18n" ltac:(discriminate) Hy) as Hk.
  pose proof (updatePlaceholder_text dict x y Hy) as Ht.
  unfold updateText in *. rewrite Hk.
  destruct (attrs x !! "data-i18n") as [k|]; [|reflexivity].
  destruct (entry proto dict k) as [t|]; [|discriminate].
  destruct (holdsTrue t); [|reflexivity].
  f_equal. apply element_eq; [reflexivity|]. simpl.
  injection Hx as Hx. rewrite Ht, <- Hx. reflexivity.
Qed.

(** Translating again what was translated ends as the first run did. *)
Lemma translateAll_again dict els :
  translateAll proto dict (state_of (translateAll proto dict els))
  = translateAll proto dict els.
Proof.
  unfold translateAll.
  destruct (forEach (updateText proto dict) els) as [els1|els1] eqn:H1.
  - pose proof (forEach_visited _ _ _ (updateText_again dict) H1) as Hfix.
    assert (Hfix2 : Forall (fun y => updateText proto dict y = Some y)
                           (state_of (forEach (updatePlaceholder proto dict) els1))).
    { apply forEach_keeps; [|exact Hfix].
      intros x y Hx Hy. eapply updatePlaceholder_keeps_text; eassumption. }
    rewrite (forEach_fixed _ _ Hfix2).
    apply forEach_again, updatePlaceholder_again.
  - simpl. pose proof (forEach_again (updateText proto dict) els (updateText_again dict)) as H.
    rewrite H1 in H. simpl in H. rewrite H. reflexivity.
Qed.

(** Under a catalog no read raises: every element is visited. *)
Lemma translateAll_own catalog els :
  translateAll proto (Own catalog) els
  = Normal (map (Props.retranslate proto catalog) els).
Proof.
  unfold translateAll.
  rewrite (forEach_map _ (fun el =>
             {| attrs := attrs el;
                textContent :=
                  default (textContent el)
                          (attrs el !! "data-i18n" ≫= Props.written proto catalog) |})).
  - rewrite (forEach_map _ (fun el =>
               {| attrs :=
                    match attrs el !! "data-placeholder-i18n"
                          ≫= Props.written proto catalog with
                    | Some text => <["placeholder" := text]> (attrs el)
                    | None => attrs el
                    end;
                  textContent := textContent el |})).
    + rewrite List.map_map. reflexivity.
    + intros x. unfold updatePlaceholder, Props.written. simpl.
      destruct (attrs x !! "data-placeholder-i18n") as [k|]; simpl;
        [|destruct x; reflexivity].
      destruct (holdsTrue (lookup proto catalog k)); [reflexivity | destruct x; reflexivity].
  - intros x. unfold updateText, Props.written. simpl.
    destruct (attrs x !! "data-i18n") as [k|]; simpl; [|destruct x; reflexivity].
    destruct (lookup proto catalog k) as [t | [| |tr tx m]]; simpl;
      try (destruct x; reflexivity).
    + destruct (truthy t); [reflexivity | destruct x; reflexivity].
    + destruct tr; [reflexivity | destruct x; reflexivity].
Qed.

Lemma translations_unknown lang :
  lang <> "en" -> lang <> "ar" -> translations !! lang = None.
Proof.
  intros Hen Har. unfold translations. cbn [list_to_map foldr uncurry fst snd].
  rewrite !lookup_insert_ne by congruence. apply lookup_empty.
Qed.

(** For the two supported languages the dictionary used is the catalog
    of the language. *)
Lemma dictionary_supported lang :
  Spec.supported lang ->
  exists catalog, translations !! lang = Some catalog /\
                  dictionary proto lang = Own catalog.
Proof.
  intros HL. unfold dictionary, lookup.
  assert (H : is_Some (translations !! lang)).
  { unfold translations. cbn [list_to_map foldr uncurry fst snd].
    destruct HL as [-> | ->].
    - rewrite lookup_insert_eq. eauto.
    - rewrite lookup_insert_ne, lookup_insert_eq by discriminate. eauto. }
  destruct H as [c Hc]. rewrite Hc. eauto.
Qed.

(** A language that [translations] has nothing true under, of its own
    or inherited, is shown with the English catalog. *)
Lemma dictionary_fallback lang :
  lang <> "en" -> lang <> "ar" -> toBoolean (proto lang) = false ->
  dictionary proto lang = dictionary proto "en".
Proof.
  intros Hen Har Hf.
  destruct (dictionary_supported "en" (or_introl eq_refl)) as (c & Hc & Hd).
  rewrite Hd. unfold dictionary, lookup.
  rewrite (translations_unknown lang Hen Har), Hf, Hc. reflexivity.
Qed.

(** A call under a catalog. *)
Lemma applyTranslations_own lang catalog p :
  dictionary proto lang = Own catalog ->
  applyTranslations proto lang p
  = let shown :=
      {| elements := map (Props.retranslate proto catalog) (elements p);
         bodyDir := Some (Spec.direction lang);
         langButtons := map (highlight lang) (langButtons p);
         localStorage := localStorage p;
         currentLang := currentLang p;
         containers := containers p;
         trace := trace p ++ [Applied lang] |} in
    match setItem preferenceKey lang (localStorage p) with
    | Some st =>
        Normal {| elements := elements shown; bodyDir := bodyDir shown;
                  langButtons := langButtons shown; localStorage := st;
                  currentLang := Some lang; containers := containers shown;
                  trace := trace shown |}
    | None => Throw shown
    end.
Proof.
  intros Hd. unfold applyTranslations. rewrite Hd, translateAll_own. reflexivity.
Qed.

(** What a call leaves, whether it returns or raises, and where. *)
Lemma applyTranslations_state lang p :
  let t := translateAll proto (dictionary proto lang) (elements p) in
  let r := applyTranslations proto lang p in
  elements (state_of r) = state_of t /\
  containers (state_of r) = containers p /\
  trace (state_of r) = (trace p ++ [Applied lang])%list /\
  (returns t = true ->
   bodyDir (state_of r) = Some (Spec.direction lang) /\
   langButtons (state_of r) = map (highlight lang) (langButtons p) /\
   localStorage (state_of r)
   = default (localStorage p) (setItem preferenceKey lang (localStorage p)) /\
   currentLang (state_of r)
   = (if writable (localStorage p) then Some lang else currentLang p) /\
   returns r = writable (localStorage p)) /\
  (returns t = false ->
   bodyDir (state_of r) = bodyDir p /\
   langButtons (state_of r) = langButtons p /\
   localStorage (state_of r) = localStorage p /\
   currentLang (state_of r) = currentLang p /\
   returns r = false).
Proof.
  cbv zeta. unfold applyTranslations, setItem.
  destruct (translateAll proto (dictionary proto lang) (elements p)) as [els|els];
    [destruct (writable (localStorage p))|]; simpl;
    repeat split; intros; try discriminate; repeat split.
Qed.

Lemma applyTranslations_marker lang p :
  returns (applyTranslations proto lang p) = true ->
  currentLang (state_of (applyTranslations proto lang p)) = Some lang /\
  localStorage (state_of (applyTranslations proto lang p))
  = {| items := <[preferenceKey := lang]> (items (localStorage p));
       readable := readable (localStorage p);
       writable := writable (localStorage p) |}.
Proof.
  unfold applyTranslations, setItem.
  destruct (translateAll proto (dictionary proto lang) (elements p)) as [els|els];
    [|discriminate].
  destruct (writable (localStorage p)); [|discriminate].
  intros _. split; reflexivity.
Qed.

End Applying.

(** ** Direction and language markers *)

Section Direction.
Import Js.

Variable proto : prototype.

Lemma direction_rtl_iff L : Spec.direction L = "rtl" <-> L = "ar".
Proof.
  unfold Spec.direction. destruct (String.eqb_spec L "ar"); split; intros H;
    try discriminate; congruence.
Qed.

Lemma app_applyLanguage_markers lang w :
  App.htmlAttrs (App.doc (App.applyLanguage lang w)) !! "dir"
    = Some (Spec.direction lang) /\
  App.htmlAttrs (App.doc (App.applyLanguage lang w)) !! "lang" = Some lang.
Proof.
  unfold App.applyLanguage, Spec.direction. simpl.
  rewrite lookup_insert_eq, lookup_insert_ne by discriminate.
  rewrite lookup_insert_eq. auto.
Qed.

Lemma script_applyTranslations_direction lang catalog p :
  Script.dictionary proto lang = Own catalog ->
  Script.bodyDir (state_of (Script.applyTranslations proto lang p))
    = Some (Spec.direction lang).
Proof.
  intros Hd. rewrite (applyTranslations_own proto lang catalog p Hd). cbv zeta.
  destruct (setItem _ _ _); reflexivity.
Qed.

Lemma script_applyTranslations_marker lang p :
  returns (Script.applyTranslations proto lang p) = true ->
  Script.currentLang (state_of (Script.applyTranslations proto lang p)) = Some lang.
Proof. intros H. apply applyTranslations_marker, H. Qed.

(** What holds of the two scripts: for each supported language code [L],
    applying [L] sets the direction attribute to [rtl] exactly when [L]
    is [ar] and to [ltr] otherwise; in app.js together with the [lang]
    attribute of the root element, in script.js together with the
    [currentLang] marker whenever the call returns. *)
Lemma direction_follows_language (L : string) (HL : Spec.supported L) :
  (forall w : App.world,
     let attrs := App.htmlAttrs (App.doc (App.applyLanguage L w)) in
     (attrs !! "dir" = Some "rtl" <-> L = "ar") /\
     (L <> "ar" -> attrs !! "dir" = Some "ltr") /\
     attrs !! "lang" = Some L) /\
  (forall p : Script.page,
     let r := Script.applyTranslations proto L p in
     (Script.bodyDir (Js.state_of r) = Some "rtl" <-> L = "ar") /\
     (L <> "ar" -> Script.bodyDir (Js.state_of r) = Some "ltr") /\
     (Js.returns r = true -> Script.currentLang (Js.state_of r) = Some L)).
Proof.
  split.
  - intros w attrs. subst attrs.
    destruct (app_applyLanguage_markers L w) as [-> ->].
    split; [|split]; [ | | reflexivity].
    + rewrite <- direction_rtl_iff. split; congruence.
    + intros Hne. destruct HL as [-> | ->]; [reflexivity | congruence].
  - intros p r. subst r.
    destruct (dictionary_supported proto L HL) as (c & _ & Hd).
    rewrite (script_applyTranslations_direction L c p Hd).
    split; [|split].
    + rewrite <- direction_rtl_iff. split; congruence.
    + intros Hne. destruct HL as [-> | ->]; [reflexivity | congruence].
    + apply script_applyTranslations_marker.
Qed.

End Direction.

(** C1.  The claim fails in script.js when the write of the preference
    raises: a visitor whose storage refuses writes switches from English
    to Arabic; [applyTranslations] has set the direction of the body to
    [rtl] when the exception escapes, and the [currentLang] marker still
    says [en], while app.js on the same failure sets [dir] and [lang]
    alike. *)
Theorem C1_script_marker_lags_direction :
  let p := Examples.visit Examples.fullStore in
  let r := Script.applyTranslations Examples.objectPrototype "ar" p in
  let w := App.applyLanguage "ar" (Examples.english Examples.fullStore) in
  Script.currentLang p = Some "en" /\
  Js.returns r = false /\
  Script.bodyDir (Js.state_of r) = Some "rtl" /\
  Script.currentLang (Js.state_of r) = Some "en" /\
  Script.currentLang (Js.state_of r) <> Some "ar" /\
  App.htmlAttrs (App.doc w) !! "dir" = Some "rtl" /\
  App.htmlAttrs (App.doc w) !! "lang" = Some "ar".
Proof.
  cbv zeta.
  destruct (dictionary_supported Examples.objectPrototype "ar" (or_intror eq_refl))
    as (c & _ & Hd).
  rewrite (applyTranslations_own Examples.objectPrototype "ar" c _ Hd).
  destruct (app_applyLanguage_markers "ar" (Examples.english Examples.fullStore))
    as [-> ->].
  cbn. repeat split. discriminate.
Qed.

(** ** Gallery navigation *)

(** C6.  On a list of [N >= 1] images, from any cursor [i] in [0, N-1],
    a click on next or previous returns normally with a cursor in
    [0, N-1] (the neighbour modulo [N]), and [N] clicks on next bring the
    cursor back to [i]. *)
Theorem C6_gallery_cursor_wraps (g : App.gallery) (i : Z) :
  let N := Z.of_nat (length (App.galleryImages g)) in
  (1 <= N)%Z ->
  App.currentImageIndex g = Js.Num i ->
  (0 <= i < N)%Z ->
  (Js.returns (App.next g) = true /\
   exists j, App.currentImageIndex (Js.state_of (App.next g)) = Js.Num j /\
             (0 <= j < N)%Z /\ j = ((i + 1) mod N)%Z) /\
  (Js.returns (App.previous g) = true /\
   exists j, App.currentImageIndex (Js.state_of (App.previous g)) = Js.Num j /\
             (0 <= j < N)%Z /\ j = ((i - 1 + N) mod N)%Z) /\
  App.currentImageIndex (App.nextTimes (length (App.galleryImages g)) g) = Js.Num i.
Proof.
  intros N HN Hi Hr.
  destruct (next_step g i Hi Hr) as (Hn1 & Hn2 & _).
  destruct (previous_step g i Hi Hr) as (Hp1 & Hp2 & _).
  fold N in Hn2, Hp2.
  split; [|split].
  - split; [exact Hn1|]. eexists. split; [exact Hn2|].
    split; [apply Z.mod_pos_bound; lia | reflexivity].
  - split; [exact Hp1|]. eexists. split; [exact Hp2|].
    split; [apply Z.mod_pos_bound; lia | reflexivity].
  - rewrite (nextTimes_index _ g i Hi Hr). fold N. f_equal.
    rewrite <- (Z.mul_1_l N) at 1. rewrite Z.mod_add by lia.
    apply Z.mod_small. lia.
Qed.

Lemma C6_gallery_cursor_wraps_witness :
  App.currentImageIndex (Js.state_of (App.next Examples.threeImages)) = Js.Num 0 /\
  App.currentImageIndex (Js.state_of (App.previous Examples.threeImages)) = Js.Num 1 /\
  App.currentImageIndex (App.nextTimes 3 Examples.threeImages) = Js.Num 2.
Proof.
  destruct (C6_gallery_cursor_wraps Examples.threeImages 2)
    as ((_ & j & Hj & _ & ->) & (_ & k & Hk & _ & ->) & H3);
    [simpl; lia | reflexivity | simpl; lia |].
  split; [exact Hj | split; [exact Hk | exact H3]].
Defined.

(** With no image at all the handlers still return, but the cursor does
    not stay where it was: the remainder by zero makes it NaN. *)
Lemma empty_gallery_navigation (g : App.gallery) :
  App.galleryImages g = [] ->
  App.next g = Js.Normal (App.setIndex Js.NaN g) /\
  App.previous g = Js.Normal (App.setIndex Js.NaN g).
Proof.
  intros He. unfold App.next, App.previous, App.showLightboxImage, App.len.
  simpl. rewrite !He. simpl.
  destruct (App.currentImageIndex g); auto.
Qed.

(** C7, as the code has it.  On an empty image list any sequence of
    clicks on next and previous raises nothing and shows nothing: the
    list stays empty, and the items, the lightbox image and the caption
    stay as they were.  Only the cursor is not kept: from the first click
    on it is NaN, which nothing reads, the rendering being guarded by the
    length of the list. *)
Theorem C7_empty_gallery_shows_nothing (g : App.gallery) (moves : list Props.move) :
  App.galleryImages g = [] ->
  exists g',
    Props.browse moves g = Js.Normal g' /\
    g' = match moves with [] => g | _ :: _ => App.setIndex Js.NaN g end /\
    App.galleryImages g' = [] /\
    App.galleryItems g' = App.galleryItems g /\
    App.lightboxImg g' = App.lightboxImg g /\
    App.lightboxCaption g' = App.lightboxCaption g /\
    App.showLightboxImage g' = Js.Normal g'.
Proof.
  intros He.
  assert (Hshow : forall h, App.galleryImages h = [] -> App.showLightboxImage h = Js.Normal h).
  { intros h Hh. unfold App.showLightboxImage. rewrite Hh. reflexivity. }
  assert (Hgo : forall m h, App.galleryImages h = [] ->
                            Props.go m h = Js.Normal (App.setIndex Js.NaN h)).
  { intros m h Hh. destruct (empty_gallery_navigation h Hh) as [Hn Hp].
    destruct m; assumption. }
  assert (Hrest : forall ms h, App.galleryImages h = [] ->
                               Props.browse ms (App.setIndex Js.NaN h)
                               = Js.Normal (App.setIndex Js.NaN h)).
  { induction ms as [|m ms IH]; intros h Hh; [reflexivity|].
    simpl. rewrite Hgo by exact Hh. simpl. apply (IH h Hh). }
  destruct moves as [|m ms].
  - exists g. repeat split; auto.
  - exists (App.setIndex Js.NaN g). simpl. rewrite Hgo by exact He. simpl.
    rewrite Hrest by exact He. repeat split; auto.
Qed.

Lemma C7_empty_gallery_shows_nothing_witness :
  Props.browse [Props.ToNext; Props.ToPrevious; Props.ToNext] Examples.noImages
  = Js.Normal (App.setIndex Js.NaN Examples.noImages) /\
  App.lightboxImg (App.setIndex Js.NaN Examples.noImages)
  = App.lightboxImg Examples.noImages /\
  App.lightboxCaption (App.setIndex Js.NaN Examples.noImages)
  = App.lightboxCaption Examples.noImages.
Proof.
  destruct (C7_empty_gallery_shows_nothing Examples.noImages
              [Props.ToNext; Props.ToPrevious; Props.ToNext] eq_refl)
    as (g' & Hb & -> & _ & _ & Hi & Hc & _).
  split; [exact Hb | split; [exact Hi | exact Hc]].
Defined.

(** C7 as stated fails: on the empty image list, with the cursor at 0, a
    click on next or previous raises nothing and renders nothing, yet the
    cursor is left at NaN instead of 0. *)
Lemma C7_empty_gallery_moves_cursor :
  App.galleryImages Examples.noImages = [] /\
  App.currentImageIndex Examples.noImages = Js.Num 0 /\
  App.next Examples.noImages = Js.Normal (App.setIndex Js.NaN Examples.noImages) /\
  App.previous Examples.noImages = Js.Normal (App.setIndex Js.NaN Examples.noImages) /\
  App.currentImageIndex (Js.state_of (App.next Examples.noImages))
    <> App.currentImageIndex Examples.noImages.
Proof.
  repeat split; discriminate.
Qed.

(** ** Switching and toggling the language in app.js *)

Section Switching.
Import Js App.

Lemma tick_single w d k :
  timers w = [(d, k)] ->
  tick w = runTask k (set_timers [] (Nat.max d (now w)) w).
Proof.
  intros H. unfold tick. rewrite H. simpl. rewrite Nat.eqb_refl. reflexivity.
Qed.

Lemma tick_idle w : timers w = [] -> tick w = w.
Proof. intros H. unfold tick. rewrite H. reflexivity. Qed.

Lemma toggleTarget_differs w : String.eqb (toggleTarget w) (currentLang w) = false.
Proof.
  unfold toggleTarget. destruct (String.eqb_spec (currentLang w) "en") as [->|Hne].
  - reflexivity.
  - apply String.eqb_neq. congruence.
Qed.

(** Worlds are taken apart before they are run, so that the two
    branches of the script (is there a [#lang-text]? does the write
    succeed?) are decided and the setters reduce. *)
Ltac expose w :=
  destruct w as [cl rtl [ha ti bc els [lt|]] [it rd [|]] g ts nw tr].

Ltac run :=
  lazy beta iota zeta delta
    [finishSwitch dispatchLanguageChanged updateGalleryData setTimeout
     setStoredLanguage setItem updateLanguageButton applyLanguage
     set_manager set_doc set_store set_gal set_timers log setBodyClasses
     currentLang isRTL doc store gal timers now trace
     htmlAttrs title bodyClasses elements langText
     items readable writable].

(** What the delayed callback of [switchLanguage] leaves behind. *)
Lemma finishSwitch_state lang w :
  let w' := finishSwitch lang w in
  currentLang w' = lang /\
  isRTL w' = String.eqb lang "ar" /\
  htmlAttrs (doc w') !! "dir" = Some (Spec.direction lang) /\
  htmlAttrs (doc w') !! "lang" = Some lang /\
  bodyClasses (doc w') = bodyClasses (doc w) /\
  timers w' = (timers w ++ [(now w + 100, EndSwitching)])%list /\
  now w' = now w /\
  (writable (store w) = true -> items (store w') !! storageKey = Some lang).
Proof.
  expose w; run.
  all: rewrite lookup_insert_eq, lookup_insert_ne by discriminate.
  all: rewrite ?lookup_insert_eq.
  all: repeat split; auto; discriminate.
Qed.

(** The state in which [toggleLanguage] leaves its timer. *)
Lemma toggleLanguage_state w :
  let w' := toggleLanguage w in
  timers w' = (timers w ++ [(now w + 150, SwitchTo (toggleTarget w))])%list /\
  now w' = now w /\ currentLang w' = currentLang w /\
  store w' = store w /\
  bodyClasses (doc w') = {["lang-switching"]} ∪ bodyClasses (doc w).
Proof.
  unfold toggleLanguage, switchLanguage.
  change (currentLang (log _ w)) with (currentLang w).
  rewrite toggleTarget_differs.
  destruct w as [cl rtl [ha ti bc els lt] st g ts nw tr].
  lazy beta iota zeta delta
    [setTimeout set_timers log setBodyClasses set_doc
     currentLang isRTL doc store gal timers now trace bodyClasses].
  repeat split.
Qed.

(** A toggle started with no timer pending, and the two timers it sets
    let run. *)
Lemma toggle_completes w :
  timers w = [] ->
  let w' := settle 2 (toggleLanguage w) in
  currentLang w' = toggleTarget w /\
  isRTL w' = String.eqb (toggleTarget w) "ar" /\
  htmlAttrs (doc w') !! "dir" = Some (Spec.direction (toggleTarget w)) /\
  htmlAttrs (doc w') !! "lang" = Some (toggleTarget w) /\
  ("lang-switching" ∉ bodyClasses (doc w')) /\
  timers w' = [] /\
  (writable (store w) = true ->
   items (store w') !! storageKey = Some (toggleTarget w)).
Proof.
  intros Hidle. cbv zeta.
  change (settle 2 (toggleLanguage w)) with (tick (tick (toggleLanguage w))).
  destruct (toggleLanguage_state w) as (H0 & _ & _ & Hst & _).
  rewrite Hidle, app_nil_l in H0.
  rewrite (tick_single _ _ _ H0).
  change (runTask (SwitchTo ?l) ?v) with (finishSwitch l v).
  set (w1 := set_timers [] _ (toggleLanguage w)).
  destruct (finishSwitch_state (toggleTarget w) w1)
    as (Hl & Hr & Hd & Hg & Hb & Ht & Hn & Hs).
  change (timers w1) with (@nil (nat * task)) in Ht.
  rewrite app_nil_l in Ht.
  rewrite (tick_single _ _ _ Ht).
  set (w2 := finishSwitch (toggleTarget w) w1) in *.
  assert (Hfin : forall v cs,
             currentLang (setBodyClasses cs v) = currentLang v /\
             isRTL (setBodyClasses cs v) = isRTL v /\
             htmlAttrs (doc (setBodyClasses cs v)) = htmlAttrs (doc v) /\
             bodyClasses (doc (setBodyClasses cs v)) = cs /\
             timers (setBodyClasses cs v) = timers v /\
             store (setBodyClasses cs v) = store v).
  { intros v cs. repeat split. }
  assert (Hset : forall ts t v,
             currentLang (set_timers ts t v) = currentLang v /\
             isRTL (set_timers ts t v) = isRTL v /\
             doc (set_timers ts t v) = doc v /\
             timers (set_timers ts t v) = ts /\
             store (set_timers ts t v) = store v).
  { intros ts t v. repeat split. }
  change (runTask EndSwitching ?v)
    with (setBodyClasses (bodyClasses (doc v) ∖ {["lang-switching"]}) v).
  set (w3 := set_timers [] _ w2).
  destruct (Hset [] (Nat.max (now w1 + 100) (now w2)) w2) as (S1 & S2 & S3 & S4 & S5).
  fold w3 in S1, S2, S3, S4, S5.
  destruct (Hfin w3 (bodyClasses (doc w3) ∖ {["lang-switching"]}))
    as (F1 & F2 & F3 & F4 & F5 & F6).
  rewrite F1, F2, F3, F4, F5, F6, S1, S2, S3, S4, S5.
  repeat split; auto.
  - intros [_ Hout]%elem_of_difference. apply Hout, elem_of_singleton. reflexivity.
  - intros Hw. apply Hs. subst w1.
    destruct (Hset [] (Nat.max (now w + 150) (now (toggleLanguage w)))
                (toggleLanguage w)) as (_ & _ & _ & _ & ->).
    rewrite Hst. exact Hw.
Qed.

(** A failing write of the preference changes nothing of a switch but
    the store and the console: the document, the gallery data, the
    manager and the timers come out as with any other store. *)
Lemma finishSwitch_ignores_store lang w st1 st2 :
  let w1 := finishSwitch lang (set_store st1 w) in
  let w2 := finishSwitch lang (set_store st2 w) in
  doc w1 = doc w2 /\ gal w1 = gal w2 /\ currentLang w1 = currentLang w2 /\
  isRTL w1 = isRTL w2 /\ timers w1 = timers w2.
Proof.
  destruct st1 as [i1 r1 [|]], st2 as [i2 r2 [|]];
    destruct w as [cl rtl [ha ti bc els [lt|]] st g ts nw tr];
    lazy beta iota zeta delta
      [finishSwitch dispatchLanguageChanged updateGalleryData setTimeout
       setStoredLanguage setItem updateLanguageButton applyLanguage
       set_manager set_doc set_store set_gal set_timers log setBodyClasses
       currentLang isRTL doc store gal timers now trace
       htmlAttrs title bodyClasses elements langText
       items readable writable];
    repeat split.
Qed.

(** When the write raises, the warning is logged between the
    application and the notification, and the store is left alone. *)
Lemma finishSwitch_write_failure lang w :
  writable (store w) = false ->
  let w' := finishSwitch lang w in
  trace w' = (trace w ++ [Applied lang;
                          ConsoleWarn "Could not save language preference";
                          LanguageChanged lang (String.eqb lang "ar");
                          ConsoleLog ("Language switched to: " ++ lang)])%list /\
  store w' = store w.
Proof.
  intros Hw. expose w; try discriminate Hw; run;
    rewrite <- !app_assoc; split; reflexivity.
Qed.

End Switching.

(** C2.  From a state whose current language [L] is [en] or [ar] and with
    no switch under way, a toggle that runs to completion moves to the
    other language, and a second one returns the active language (with
    its direction flag and markers) to [L]; the target of a toggle never
    equals the current language, and [switchLanguage] towards the current
    language changes nothing. *)
Theorem C2_toggle_twice_restores (w : App.world) :
  Spec.supported (App.currentLang w) ->
  App.timers w = [] ->
  let w1 := App.settle 2 (App.toggleLanguage w) in
  let w2 := App.settle 2 (App.toggleLanguage w1) in
  (Spec.supported (App.currentLang w1) /\ App.currentLang w1 <> App.currentLang w /\
   App.timers w1 = []) /\
  (App.currentLang w2 = App.currentLang w /\
   App.isRTL w2 = String.eqb (App.currentLang w) "ar" /\
   App.htmlAttrs (App.doc w2) !! "dir" = Some (Spec.direction (App.currentLang w)) /\
   App.htmlAttrs (App.doc w2) !! "lang" = Some (App.currentLang w) /\
   App.timers w2 = []) /\
  (forall v : App.world,
     App.toggleTarget v <> App.currentLang v /\
     App.switchLanguage (App.currentLang v) v = v).
Proof.
  intros HL Hidle w1 w2.
  destruct (toggle_completes w Hidle) as (Hl1 & _ & _ & _ & _ & Ht1 & _).
  fold w1 in Hl1, Ht1.
  destruct (toggle_completes w1 Ht1) as (Hl2 & Hr2 & Hd2 & Hg2 & _ & Ht2 & _).
  fold w2 in Hl2, Hr2, Hd2, Hg2, Ht2.
  assert (Hback : App.toggleTarget w1 = App.currentLang w).
  { unfold App.toggleTarget at 1. rewrite Hl1. unfold App.toggleTarget.
    destruct HL as [-> | ->]; reflexivity. }
  rewrite Hback in *.
  split; [|split].
  - rewrite Hl1. unfold App.toggleTarget, Spec.supported.
    destruct HL as [-> | ->]; simpl; repeat split; auto; discriminate.
  - auto.
  - intros v. split.
    + intros Heq. pose proof (toggleTarget_differs v) as Hd.
      rewrite Heq, String.eqb_refl in Hd. discriminate.
    + unfold App.switchLanguage. rewrite String.eqb_refl. reflexivity.
Qed.

(** Arabic on the sample pages: both scripts turn right to left. *)
Example arabic_turns_right_to_left :
  App.htmlAttrs (App.doc (App.applyLanguage "ar" (Examples.english Examples.emptyStore)))
    !! "dir" = Some "rtl" /\
  Script.bodyDir (Js.state_of (Script.applyTranslations Examples.objectPrototype "ar"
                                 (Examples.visit Examples.emptyStore)))
    = Some "rtl".
Proof.
  assert (HL : Spec.supported "ar") by (right; reflexivity).
  destruct (direction_follows_language Examples.objectPrototype "ar" HL) as [Happ Hscript].
  split.
  - apply (Happ (Examples.english Examples.emptyStore)). reflexivity.
  - apply (Hscript (Examples.visit Examples.emptyStore)). reflexivity.
Qed.

Lemma C2_toggle_twice_restores_witness :
  App.currentLang
    (App.settle 2 (App.toggleLanguage
       (App.settle 2 (App.toggleLanguage (Examples.english Examples.emptyStore)))))
  = "en".
Proof.
  refine (proj1 (proj1 (proj2 (C2_toggle_twice_restores
                                 (Examples.english Examples.emptyStore) _ _)))).
  - left. reflexivity.
  - reflexivity.
Defined.

(** ** Failing writes of the preference *)

Section WriteFailure.
Import Js.

Variable proto : prototype.

(** In script.js nothing catches a failing write: the call ends by the
    exception, after the page was rewritten and before the [currentLang]
    marker is set, and nothing is logged. *)
Lemma script_write_failure lang p :
  writable (Script.localStorage p) = false ->
  let r := Script.applyTranslations proto lang p in
  returns r = false /\
  Script.currentLang (state_of r) = Script.currentLang p /\
  Script.trace (state_of r) = (Script.trace p ++ [Script.Applied lang])%list.
Proof.
  intros Hw. unfold Script.applyTranslations, setItem. rewrite Hw.
  destruct (Script.translateAll _ _ _); repeat split.
Qed.

End WriteFailure.

(** C3.  A visitor whose storage refuses writes switches from English to
    Arabic.  In app.js the failure is caught and logged and the switch
    completes; in script.js [applyTranslations] lets the exception escape:
    the direction is already [rtl], the [currentLang] marker still says
    [en], and nothing was logged. *)
Theorem C3_script_write_failure_escapes (proto : Js.prototype) :
  let r := Script.applyTranslations proto "ar" (Examples.visit Examples.fullStore) in
  let w := App.finishSwitch "ar" (Examples.english Examples.fullStore) in
  Js.returns r = false /\
  Script.bodyDir (Js.state_of r) = Some "rtl" /\
  Script.currentLang (Js.state_of r) = Some "en" /\
  Script.trace (Js.state_of r) = [Script.Applied "ar"] /\
  App.currentLang w = "ar" /\
  App.trace w = [App.Applied "ar";
                 App.ConsoleWarn "Could not save language preference";
                 App.LanguageChanged "ar" true;
                 App.ConsoleLog "Language switched to: ar"].
Proof.
  cbv zeta.
  destruct (script_write_failure proto "ar" (Examples.visit Examples.fullStore) eq_refl)
    as (Hr & Hc & Ht).
  destruct (dictionary_supported proto "ar" (or_intror eq_refl)) as (c & _ & Hd).
  destruct (finishSwitch_write_failure "ar" (Examples.english Examples.fullStore) eq_refl)
    as (Hw & _).
  destruct (finishSwitch_state "ar" (Examples.english Examples.fullStore))
    as (Hl & _).
  rewrite Hr, Hc, Ht, Hw, Hl, (script_applyTranslations_direction proto "ar" c _ Hd).
  repeat split.
Qed.

(** ** The language at start-up *)

Section Startup.
Import Js.

Variable proto : prototype.

Lemma preference_stored st :
  Spec.preference App.storageKey st = Spec.present (App.getStoredLanguage st).
Proof.
  unfold Spec.preference, Spec.present, App.getStoredLanguage, getItem, truthy_opt, truthy.
  destruct (readable st); [|reflexivity].
  destruct (items st !! App.storageKey) as [L|]; [|reflexivity].
  destruct (String.eqb L ""); reflexivity.
Qed.

Lemma resolveLanguage_resolve st nav :
  let stored := Spec.present (App.getStoredLanguage st) in
  let locale := or_else (App.language nav) (App.userLanguage nav) in
  is_Some stored \/ is_Some locale ->
  App.resolveLanguage st nav = Some (Spec.resolve stored locale).
Proof.
  intros stored locale H. subst stored locale.
  unfold App.resolveLanguage, Spec.present, Spec.resolve, App.detectBrowserLanguage in *.
  destruct (App.getStoredLanguage st) as [s|] eqn:Hs; simpl in *.
  - destruct (truthy s) eqn:Ht; [reflexivity|].
    destruct H as [[x Hx]|[l Hl]]; [discriminate|]. rewrite Hl.
    destruct (startsWith l "ar"); reflexivity.
  - destruct H as [[x Hx]|[l Hl]]; [discriminate|]. rewrite Hl.
    destruct (startsWith l "ar"); reflexivity.
Qed.

Lemma LanguageManager_resolved p l :
  App.resolveLanguage (App.pageStore p) (App.pageNav p) = Some l ->
  exists w, App.LanguageManager p = Some w /\
            App.currentLang w = l /\
            App.isRTL w = String.eqb l "ar" /\
            App.htmlAttrs (App.doc w) !! "dir" = Some (Spec.direction l) /\
            App.trace w = [App.Applied l] /\
            App.timers w = [].
Proof.
  intros H. unfold App.LanguageManager. rewrite H.
  eexists. split; [reflexivity|].
  destruct p as [[ha ti bc els [lt|]] st nav its li lc];
    lazy beta iota zeta delta
      [App.init App.updateLanguageButton App.applyLanguage App.set_doc App.log
       App.currentLang App.isRTL App.doc App.store App.gal App.timers App.now
       App.trace App.htmlAttrs App.title App.bodyClasses App.elements App.langText
       App.pageDoc App.pageStore App.pageItems App.pageLightboxImg
       App.pageLightboxCaption];
    rewrite lookup_insert_eq; repeat split.
Qed.

Lemma initLanguageSwitcher_applies p :
  readable (Script.localStorage p) = true ->
  Script.initLanguageSwitcher proto p
  = Script.applyTranslations proto
      (Spec.resolve (Spec.preference "preferredLanguage" (Script.localStorage p)) None) p.
Proof.
  intros H. unfold Script.initLanguageSwitcher, getItem, Spec.preference. rewrite H.
  change Script.preferenceKey with "preferredLanguage".
  unfold Spec.resolve, or_else, truthy_opt, truthy.
  destruct (items (Script.localStorage p) !! "preferredLanguage") as [s|]; simpl;
    [|reflexivity].
  destruct (String.eqb s ""); reflexivity.
Qed.

End Startup.

(** C4, as the code has it.  In app.js the start-up language is the
    preference held in storage under [pharmacy-club-language] when there
    is one (storage can be read and the entry is not empty), else [ar] or
    [en] after the locale string, whenever one of the two is there; in
    script.js, when storage can be read, it is the preference held under
    [preferredLanguage], else [en], the locale not being consulted.
    Either script applies the language once while it loads, leaving
    nothing pending. *)
Theorem C4_initial_language (proto : Js.prototype) :
  (forall p : App.page,
     let stored := Spec.preference "pharmacy-club-language" (App.pageStore p) in
     let locale := Js.or_else (App.language (App.pageNav p))
                              (App.userLanguage (App.pageNav p)) in
     is_Some stored \/ is_Some locale ->
     exists w, App.LanguageManager p = Some w /\
               App.currentLang w = Spec.resolve stored locale /\
               App.trace w = [App.Applied (Spec.resolve stored locale)] /\
               App.timers w = []) /\
  (forall p : Script.page,
     Js.readable (Script.localStorage p) = true ->
     let L := Spec.resolve (Spec.preference "preferredLanguage" (Script.localStorage p))
                           None in
     let r := Script.initLanguageSwitcher proto p in
     r = Script.applyTranslations proto L p /\
     Script.trace (Js.state_of r) = (Script.trace p ++ [Script.Applied L])%list).
Proof.
  split.
  - intros p stored locale H. subst stored.
    change "pharmacy-club-language" with App.storageKey in *.
    rewrite preference_stored in *.
    pose proof (resolveLanguage_resolve _ _ H) as Hres.
    destruct (LanguageManager_resolved p _ Hres) as (w & Hw & Hl & _ & _ & Ht & Hk).
    exists w. auto.
  - intros p Hread L r. subst r L.
    rewrite (initLanguageSwitcher_applies proto p Hread).
    split; [reflexivity|].
    apply (applyTranslations_state proto).
Qed.

Lemma C4_initial_language_witness :
  (exists w, App.LanguageManager (Examples.home (Samples.storing "ar") (Some "en-US"))
             = Some w /\
             App.currentLang w = "ar" /\ App.trace w = [App.Applied "ar"] /\
             App.timers w = []) /\
  (exists w, App.LanguageManager (Examples.home Examples.emptyStore (Some "ar-SA"))
             = Some w /\
             App.currentLang w = "ar" /\ App.trace w = [App.Applied "ar"] /\
             App.timers w = []) /\
  Script.trace (Js.state_of (Script.initLanguageSwitcher Examples.objectPrototype
                               (Examples.visit (Samples.preferring "ar"))))
  = [Script.Applied "ar"] /\
  Script.trace (Js.state_of (Script.initLanguageSwitcher Examples.objectPrototype
                               (Examples.visit Examples.emptyStore)))
  = [Script.Applied "en"].
Proof.
  destruct (C4_initial_language Examples.objectPrototype) as [Happ Hscript].
  split; [|split; [|split]].
  - apply (Happ (Examples.home (Samples.storing "ar") (Some "en-US"))).
    left. eexists. reflexivity.
  - apply (Happ (Examples.home Examples.emptyStore (Some "ar-SA"))).
    right. eexists. reflexivity.
  - apply (Hscript (Examples.visit (Samples.preferring "ar"))). reflexivity.
  - apply (Hscript (Examples.visit Examples.emptyStore)). reflexivity.
Defined.

(** C4 as stated fails on script.js: on a first visit from an Arabic
    locale the specification resolves Arabic, while script.js, which reads
    no locale signal, starts in English. *)
Lemma C4_locale_ignored_by_script :
  let p := Examples.visit Examples.emptyStore in
  let r := Script.initLanguageSwitcher Examples.objectPrototype p in
  Spec.preference "preferredLanguage" (Script.localStorage p) = None /\
  Spec.resolve None (Some "ar-SA") = "ar" /\
  Js.returns r = true /\
  Script.currentLang (Js.state_of r) = Some "en" /\
  Script.bodyDir (Js.state_of r) = Some "ltr" /\
  Script.currentLang (Js.state_of r) <> Some (Spec.resolve None (Some "ar-SA")).
Proof.
  cbv zeta.
  rewrite (initLanguageSwitcher_applies Examples.objectPrototype
             (Examples.visit Examples.emptyStore) eq_refl).
  change (Spec.resolve
            (Spec.preference "preferredLanguage"
               (Script.localStorage (Examples.visit Examples.emptyStore))) None)
    with "en".
  destruct (dictionary_supported Examples.objectPrototype "en" (or_introl eq_refl))
    as (c & _ & Hd).
  rewrite (applyTranslations_own Examples.objectPrototype "en" c _ Hd).
  cbn. repeat split. discriminate.
Qed.

(** Without a stored preference and without a locale signal the
    constructor of app.js raises instead of falling back to English. *)
Lemma app_absent_locale_raises :
  App.LanguageManager (Examples.home Examples.emptyStore None) = None /\
  Spec.resolve None None = "en".
Proof. split; reflexivity. Qed.

(** ** Form validation *)

Section Validation.
Import Js Spec App.Form.

Variable proto : prototype.

Lemma nonEmpty_true (v : ustring) : nonEmpty v = true <-> v <> [].
Proof. destruct v; simpl; split; congruence. Qed.

Lemma nonEmpty_false (v : ustring) : negb (nonEmpty v) = true <-> v = [].
Proof. destruct v; simpl; split; congruence. Qed.

Lemma fails_email f :
  fails f Email = true <->
  type f = "email" /\ trim (value f) <> [] /\ ~ wellFormedEmail (trim (value f)).
Proof.
  unfold fails. rewrite !andb_true_iff, String.eqb_eq, nonEmpty_true, negb_true_iff.
  rewrite <- emailPattern_wellFormed, not_true_iff_false. tauto.
Qed.

Lemma fails_required f :
  fails f Required = true <-> required f = true /\ trim (value f) = [].
Proof. unfold fails. rewrite andb_true_iff, nonEmpty_false. tauto. Qed.

Lemma fails_select f :
  fails f Select = true <->
  tagName f = "SELECT" /\ required f = true /\ trim (value f) = [].
Proof.
  unfold fails. rewrite !andb_true_iff, String.eqb_eq, nonEmpty_false. tauto.
Qed.

Lemma fails_minLength f :
  fails f MinLength = true <->
  tagName f = "TEXTAREA" /\ trim (value f) <> [] /\ length (trim (value f)) < 10.
Proof.
  unfold fails. rewrite !andb_true_iff, String.eqb_eq, nonEmpty_true, Nat.ltb_lt.
  tauto.
Qed.

Lemma known_invalid_fails f : known_invalid f <-> exists r, fails f r = true.
Proof.
  unfold known_invalid. cbv zeta.
  rewrite <- fails_select, <- fails_required, <- fails_email, <- fails_minLength.
  split.
  - intros [H | [H | [H | H]]]; eauto.
  - intros [[] H]; auto.
Qed.

Lemma decisive_fails f r : decisive f = Some r -> fails f r = true.
Proof.
  unfold decisive, order. cbn [List.filter].
  destruct (fails f Email) eqn:E, (fails f Required) eqn:R,
           (fails f Select) eqn:S, (fails f MinLength) eqn:M;
    cbn; intros H; inversion H; subst; assumption.
Qed.

Lemma decisive_none f : decisive f = None <-> forall r, fails f r = false.
Proof.
  unfold decisive, order. cbn [List.filter]. split.
  - destruct (fails f Email) eqn:E, (fails f Required) eqn:R,
             (fails f Select) eqn:S, (fails f MinLength) eqn:M;
      cbn; intros H; try discriminate H. intros []; assumption.
  - intros H. rewrite !H. reflexivity.
Qed.

Lemma known_invalid_decisive f : known_invalid f <-> is_Some (decisive f).
Proof.
  rewrite known_invalid_fails. split.
  - intros [r Hr]. destruct (decisive f) eqn:D; [eauto|].
    rewrite decisive_none in D. rewrite D in Hr. discriminate.
  - intros [r Hr]. exists r. apply decisive_fails. exact Hr.
Qed.

Lemma supported_messages lang :
  supported lang -> exists m, errorMessages lang = Some m.
Proof. intros [-> | ->]; eexists; reflexivity. Qed.

(** With messages at hand, the chain of checks ends on the failing rule
    that was checked last. *)
(** The tables of the two languages hold the messages of the page. *)
Lemma errorMessages_message lang m r :
  errorMessages lang = Some m -> m r = Spec.message lang r.
Proof.
  unfold errorMessages, Spec.message.
  destruct (String.eqb_spec lang "en") as [-> | Hen].
  - intros [= <-]. destruct r; reflexivity.
  - destruct (String.eqb_spec lang "ar") as [-> | Har]; [|discriminate].
    intros [= <-]. destruct r; reflexivity.
Qed.

Lemma errorElement_messageNode lang m r :
  errorMessages lang = Some m -> errorElement lang (m r) = messageNode lang r.
Proof.
  intros Hm. unfold errorElement, messageNode.
  rewrite (errorMessages_message lang m r Hm). reflexivity.
Qed.

Lemma verdict_decisive lang m f :
  errorMessages lang = Some m ->
  verdict proto lang f = Some (match decisive f with
                               | Some r => (false, Own (m r))
                               | None => (true, Own "")
                               end).
Proof.
  intros Hm. unfold verdict, decisive, order, step, message. cbn [List.filter].
  change (String.eqb (type f) "email" && nonEmpty (trim (value f))
          && negb (test emailPattern (trim (value f)))) with (fails f Email).
  change (required f && negb (nonEmpty (trim (value f)))) with (fails f Required).
  change (String.eqb (tagName f) "SELECT" && required f
          && negb (nonEmpty (trim (value f)))) with (fails f Select).
  change (String.eqb (tagName f) "TEXTAREA" && nonEmpty (trim (value f))
          && Nat.ltb (length (trim (value f))) 10) with (fails f MinLength).
  rewrite Hm.
  destruct (fails f Email), (fails f Required), (fails f Select),
           (fails f MinLength); reflexivity.
Qed.

Lemma validateField_decisive lang m g :
  errorMessages lang = Some m ->
  validateField proto lang g =
  match decisive (control g) with
  | Some r =>
      Returned false
        {| control := setClassList ({["error"]} ∪ classList (control g)) (control g);
           siblings := (removeExisting (siblings g) ++ [errorElement lang (m r)])%list |}
  | None =>
      Returned true
        {| control := setClassList (classList (control g) ∖ {["error"]}) (control g);
           siblings := removeExisting (siblings g) |}
  end.
Proof.
  intros Hm. unfold validateField. rewrite (verdict_decisive lang m _ Hm).
  destruct (decisive (control g)); reflexivity.
Qed.

Lemma removeExisting_messages ns :
  List.filter isErrorMessage (removeExisting ns)
  = tail (List.filter isErrorMessage ns).
Proof.
  induction ns as [|n ns IH]; [reflexivity|].
  simpl. destruct (isErrorMessage n) eqn:E; simpl.
  - reflexivity.
  - rewrite E. exact IH.
Qed.

Lemma errorElement_is_message lang msg : isErrorMessage (errorElement lang msg) = true.
Proof. reflexivity. Qed.

Lemma messages_after_removal g :
  messageCount g <= 1 ->
  List.filter isErrorMessage (removeExisting (siblings g)) = [].
Proof.
  unfold messageCount. rewrite removeExisting_messages.
  destruct (List.filter isErrorMessage (siblings g)) as [|n [|n' l]]; simpl;
    [reflexivity | reflexivity | lia].
Qed.

(** Whatever the language and the outcome, at most one message node is
    left when at most one was there. *)
Lemma validateField_keeps_one lang g :
  messageCount g <= 1 -> messageCount (group_of (validateField proto lang g)) <= 1.
Proof.
  intros H. pose proof (messages_after_removal g H) as Hrest.
  unfold validateField.
  destruct (verdict proto lang (control g)) as [[[|] msg]|]; unfold messageCount; simpl.
  - rewrite Hrest. simpl. lia.
  - rewrite List.filter_app, Hrest. simpl. lia.
  - rewrite Hrest. simpl. lia.
Qed.

Lemma handle_keeps_one lang a g :
  messageCount g <= 1 -> messageCount (handle proto lang a g) <= 1.
Proof.
  intros H. destruct a as [|v]; simpl.
  - apply validateField_keeps_one; exact H.
  - destruct (bool_decide _); [apply validateField_keeps_one|]; exact H.
Qed.

Lemma handleAll_keeps_one actions : forall g,
  messageCount g <= 1 -> messageCount (handleAll proto actions g) <= 1.
Proof.
  induction actions as [|[lang a] rest IH]; intros g H; simpl; [exact H|].
  apply IH, handle_keeps_one, H.
Qed.

End Validation.

(** C5.  Under a supported language and with at most one message node
    next to the field, whatever the page inherits from [Object.prototype]:
    a field in one of the known invalid cases makes [validateField] return
    false, leave exactly one message node, which is the localized message
    node of a rule the field fails, and mark the field; any other field
    makes it return true, leave no message node and no mark; and however
    blur and input events follow one another, in whatever languages, at
    most one message node is ever there. *)
Theorem C5_validateField_reports
        (proto : Js.prototype) (lang : string) (g : App.Form.group) :
  Spec.supported lang ->
  Spec.messageCount g <= 1 ->
  (Spec.known_invalid (App.Form.control g) ->
   exists g' r,
     App.Form.validateField proto lang g = App.Form.Returned false g' /\
     Spec.fails (App.Form.control g) r = true /\
     Spec.messages g' = [Spec.messageNode lang r] /\
     "error" ∈ App.Form.classList (App.Form.control g')) /\
  (~ Spec.known_invalid (App.Form.control g) ->
   exists g',
     App.Form.validateField proto lang g = App.Form.Returned true g' /\
     Spec.messages g' = [] /\
     "error" ∉ App.Form.classList (App.Form.control g')) /\
  (forall actions : list (string * App.Form.action),
     Spec.messageCount (App.Form.handleAll proto actions g) <= 1).
Proof.
  intros HL Hone.
  destruct (supported_messages lang HL) as [m Hm].
  pose proof (validateField_decisive proto lang m g Hm) as Hv.
  pose proof (messages_after_removal g Hone) as Hrest.
  split; [|split].
  - intros Hbad. apply known_invalid_decisive in Hbad as [r Hr].
    rewrite Hr in Hv. eexists _, r. split; [exact Hv|].
    split; [apply decisive_fails, Hr|].
    split.
    + unfold Spec.messages. simpl. rewrite List.filter_app, Hrest.
      rewrite (errorElement_messageNode lang m r Hm). reflexivity.
    + simpl. apply elem_of_union_l, elem_of_singleton. reflexivity.
  - intros Hgood. destruct (Spec.decisive (App.Form.control g)) as [r|] eqn:Hr.
    + exfalso. apply Hgood, known_invalid_decisive. rewrite Hr. eauto.
    + eexists. split; [exact Hv|]. split.
      * unfold Spec.messages. simpl. exact Hrest.
      * simpl. intros [_ Hout]%elem_of_difference.
        apply Hout, elem_of_singleton. reflexivity.
  - intros actions. apply handleAll_keeps_one. exact Hone.
Qed.

Lemma C5_validateField_reports_witness :
  Spec.supported "ar" /\
  Spec.messageCount (Examples.alone Examples.shortMessage) <= 1 /\
  Spec.known_invalid Examples.shortMessage /\
  exists g' r,
    App.Form.validateField Examples.objectPrototype "ar"
      (Examples.alone Examples.shortMessage)
      = App.Form.Returned false g' /\
    Spec.fails Examples.shortMessage r = true /\
    Spec.messages g' = [Spec.messageNode "ar" r] /\
    "error" ∈ App.Form.classList (App.Form.control g').
Proof.
  assert (HL : Spec.supported "ar") by (right; reflexivity).
  assert (Hone : Spec.messageCount (Examples.alone Examples.shortMessage) <= 1)
    by (vm_compute; lia).
  assert (Hbad : Spec.known_invalid Examples.shortMessage).
  { right. right. right. split; [reflexivity|]. split; [discriminate|].
    vm_compute. lia. }
  split; [exact HL|]. split; [exact Hone|]. split; [exact Hbad|].
  exact (proj1 (C5_validateField_reports Examples.objectPrototype "ar"
                  (Examples.alone Examples.shortMessage) HL Hone) Hbad).
Defined.

(** The contact form with a message of five characters: the field is
    rejected with the minimum-length message of the active language. *)
Example short_message_rejected :
  App.Form.validateField Examples.objectPrototype "en"
    (Examples.alone Examples.shortMessage)
  = App.Form.Returned false
      {| App.Form.control :=
           App.Form.setClassList ({["error"]} ∪ {["form-control"]}) Examples.shortMessage;
         App.Form.siblings :=
           [ {| App.Form.classes := ["error-message"];
                App.Form.textAlign := "left";
                App.Form.textContent := "Please provide at least 10 characters" |} ] |} /\
  Spec.messages
    (App.Form.group_of
       (App.Form.validateField Examples.objectPrototype "ar"
          (Examples.alone Examples.shortMessage)))
  = [ {| App.Form.classes := ["error-message"];
         App.Form.textAlign := "right";
         App.Form.textContent := "يرجى كتابة ١٠ أحرف على الأقل" |} ].
Proof. split; vm_compute; reflexivity. Qed.

Example padded_name_accepted :
  App.Form.validateField Examples.objectPrototype "en"
    (Examples.alone Examples.studentName)
  = App.Form.Returned true
      {| App.Form.control :=
           App.Form.setClassList ({["form-control"]} ∖ {["error"]}) Examples.studentName;
         App.Form.siblings := [] |}.
Proof. vm_compute. reflexivity. Qed.

(** A language without messages makes a failing check raise: reading
    [errorMessages.fr.minLength] is reading a property of [undefined]. *)
Example unsupported_language_raises :
  App.Form.validateField Examples.objectPrototype "fr"
    (Examples.alone Examples.shortMessage)
  = App.Form.Raised (Examples.alone Examples.shortMessage).
Proof. vm_compute. reflexivity. Qed.

(** A stored language that names a method of [Object.prototype] does not:
    [errorMessages.constructor.minLength] is a property the [Object]
    function does not have, and the field gets a message node without
    text. *)
Example inherited_language_shows_empty_message :
  App.Form.validateField Examples.objectPrototype "constructor"
    (Examples.alone Examples.shortMessage)
  = App.Form.Returned false
      {| App.Form.control :=
           App.Form.setClassList ({["error"]} ∪ {["form-control"]}) Examples.shortMessage;
         App.Form.siblings :=
           [ {| App.Form.classes := ["error-message"];
                App.Form.textAlign := "left";
                App.Form.textContent := "" |} ] |}.
Proof. vm_compute. reflexivity. Qed.

(** C10, as the code has it.  Under a supported language the message
    shown is that of the failing rule checked last in the order e-mail,
    required, select, minimum length.  So a required field whose trimmed
    value is empty gets the required-field message unless it is a select,
    which gets the select message; and the e-mail and minimum-length
    rules fail on non-empty values only. *)
Theorem C10_message_precedence
        (proto : Js.prototype) (lang : string) (g : App.Form.group) :
  Spec.supported lang ->
  let f := App.Form.control g in
  (forall r, Spec.decisive f = Some r ->
             last (App.Form.siblings
                     (App.Form.group_of (App.Form.validateField proto lang g)))
             = Some (Spec.messageNode lang r)) /\
  (App.Form.required f = true -> Js.trim (App.Form.value f) = [] ->
   Spec.decisive f = Some (if String.eqb (App.Form.tagName f) "SELECT"
                           then App.Form.Select else App.Form.Required)) /\
  (forall r, r = App.Form.Email \/ r = App.Form.MinLength ->
             Spec.fails f r = true -> Js.trim (App.Form.value f) <> []).
Proof.
  intros HL f. destruct (supported_messages lang HL) as [m Hm].
  split; [|split].
  - intros r Hr. rewrite (validateField_decisive proto lang m g Hm).
    fold f. rewrite Hr. simpl. rewrite (errorElement_messageNode lang m r Hm).
    apply last_snoc.
  - intros Hreq Hempty. unfold Spec.decisive, Spec.order, Spec.fails.
    cbn [List.filter]. rewrite Hreq, Hempty. simpl.
    destruct (String.eqb (App.Form.tagName f) "SELECT"),
             (String.eqb (App.Form.tagName f) "TEXTAREA"),
             (String.eqb (App.Form.type f) "email"); reflexivity.
  - intros r [-> | ->] Hr.
    + apply fails_email in Hr. tauto.
    + apply fails_minLength in Hr. tauto.
Qed.

Lemma C10_message_precedence_witness :
  Spec.supported "en" /\
  Spec.decisive Examples.yearLevel = Some App.Form.Select /\
  last (App.Form.siblings
          (App.Form.group_of
             (App.Form.validateField Examples.objectPrototype "en"
                (Examples.alone Examples.yearLevel))))
  = Some {| App.Form.classes := ["error-message"];
            App.Form.textAlign := "left";
            App.Form.textContent := "Please select an option" |}.
Proof.
  assert (HL : Spec.supported "en") by (left; reflexivity).
  split; [exact HL|]. split; [reflexivity|].
  exact (proj1 (C10_message_precedence Examples.objectPrototype "en"
                  (Examples.alone Examples.yearLevel) HL)
               App.Form.Select eq_refl).
Defined.

(** C10 as stated fails on a select: the year-level select is required
    and empty, and the message shown is the select message, not the
    required-field message. *)
Lemma C10_required_select_counterexample :
  App.Form.required Examples.yearLevel = true /\
  Js.trim (App.Form.value Examples.yearLevel) = [] /\
  App.Form.validateField Examples.objectPrototype "en" (Examples.alone Examples.yearLevel)
  = App.Form.Returned false
      {| App.Form.control :=
           App.Form.setClassList ({["error"]} ∪ {["form-control"]}) Examples.yearLevel;
         App.Form.siblings :=
           [ {| App.Form.classes := ["error-message"];
                App.Form.textAlign := "left";
                App.Form.textContent := "Please select an option" |} ] |} /\
  App.Form.errorMessages "en" ≫= (fun m => Some (m App.Form.Required))
  = Some "This field is required" /\
  "Please select an option" <> "This field is required".
Proof.
  split; [reflexivity|]. split; [reflexivity|].
  split; [vm_compute; reflexivity|]. split; [reflexivity | discriminate].
Qed.

(** ** Missing translations *)

Section Translations.
Import Js.

Lemma updateElement_value lang e :
  App.updateElement lang e =
  match Spec.pairValue lang e with
  | Some text => App.writeText text e
  | None => e
  end.
Proof.
  unfold App.updateElement, App.bilingual, App.hasAttribute, Spec.pairValue, truthy.
  destruct (App.attrs e !! "data-en") as [en|]; [|reflexivity].
  destruct (App.attrs e !! "data-ar") as [ar|]; [|reflexivity].
  rewrite !bool_decide_eq_true_2 by eauto. simpl.
  destruct (getAttribute ("data-" ++ lang) (App.attrs e)) as [text|]; [|reflexivity].
  destruct (String.eqb text ""); reflexivity.
Qed.

Lemma writeText_displays text e : Spec.displays text (App.writeText text e).
Proof.
  unfold Spec.displays, App.writeText.
  destruct (String.eqb (App.tagName e) "INPUT"
            && negb (String.eqb (App.type e) "submit")) eqn:Hi.
  - simpl. rewrite Hi. apply lookup_insert_eq.
  - destruct (String.eqb (App.tagName e) "OPTION") eqn:Ho.
    + simpl. rewrite Hi, Ho. reflexivity.
    + destruct (includes text "<br>") eqn:Hb; simpl; rewrite Hi, Ho; reflexivity.
Qed.

(** The second pass over the options of the selects repeats what the
    first pass did to them. *)
Lemma updateOption_updateElement lang e :
  App.updateOption lang (App.updateElement lang e) = App.updateElement lang e.
Proof.
  unfold App.updateOption, App.updateElement, App.writeText.
  destruct (App.bilingual e) eqn:Hb.
  - destruct (getAttribute ("data-" ++ lang) (App.attrs e)) as [text|] eqn:Ht.
    + destruct (truthy text) eqn:Hy.
      * destruct (String.eqb (App.tagName e) "INPUT"
                  && negb (String.eqb (App.type e) "submit")) eqn:Hi.
        { apply andb_true_iff in Hi as [Hi _]. apply String.eqb_eq in Hi.
          simpl. rewrite Hi. reflexivity. }
        destruct (String.eqb (App.tagName e) "OPTION") eqn:Ho.
        { simpl. rewrite Ho. unfold App.bilingual, App.hasAttribute in *. simpl.
          rewrite Hb, Ht, Hy. destruct (App.inSelect e); reflexivity. }
        destruct (includes text "<br>"); simpl; rewrite Ho; reflexivity.
      * rewrite Hb, Ht, Hy.
        destruct (String.eqb (App.tagName e) "OPTION" && App.inSelect e); reflexivity.
    + rewrite Hb, Ht.
      destruct (String.eqb (App.tagName e) "OPTION" && App.inSelect e); reflexivity.
  - rewrite Hb, andb_false_r. reflexivity.
Qed.

Lemma applyLanguage_elements lang w :
  App.elements (App.doc (App.applyLanguage lang w))
  = map (App.updateElement lang) (App.elements (App.doc w)).
Proof.
  unfold App.applyLanguage, App.updateSelectOptions,
    App.updateElementsWithDataAttributes. simpl.
  rewrite List.map_map. apply List.map_ext. intros e.
  apply updateOption_updateElement.
Qed.

Variable proto : prototype.

(** What the loops write for a key is what the catalog holds for it;
    where the catalog holds nothing, it is whatever the catalog inherits
    under the name of the key, if that counts as true. *)
Lemma written_catalogValue lang catalog key :
  Script.translations !! lang = Some catalog ->
  Props.written proto catalog key
  = match catalog !! key with
    | Some _ => Spec.catalogValue lang key
    | None => if toBoolean (proto key) then Some (toString (proto key)) else None
    end.
Proof.
  intros Hc. unfold Props.written, Spec.catalogValue, lookup. rewrite Hc. simpl.
  destruct (catalog !! key) as [text|]; reflexivity.
Qed.

Lemma applyTranslations_elements lang catalog p :
  Script.dictionary proto lang = Own catalog ->
  Script.elements (state_of (Script.applyTranslations proto lang p))
  = map (Props.retranslate proto catalog) (Script.elements p).
Proof.
  intros Hd. rewrite (applyTranslations_own proto lang catalog p Hd). cbv zeta.
  destruct (setItem _ _ _); reflexivity.
Qed.

End Translations.

(** What holds of the two scripts.  In app.js a node with both
    attributes whose value for the language is there shows that value, in
    the place its kind calls for, and every other node is left as it was.
    In script.js, under a supported language, a node takes the text the
    catalog holds under its key, and keeps its own when the catalog holds
    an empty text, or when it holds none and nothing true is inherited
    under the name of the key; likewise for its placeholder. *)
Lemma translation_goes_where_a_value_is (proto : Js.prototype) :
  (forall (lang : string) (w : App.world) (i : nat) (e : App.element),
     App.elements (App.doc w) !! i = Some e ->
     exists e',
       App.elements (App.doc (App.applyLanguage lang w)) !! i = Some e' /\
       match Spec.pairValue lang e with
       | Some text => e' = App.writeText text e /\ Spec.displays text e'
       | None => e' = e
       end) /\
  (forall (lang : string) (p : Script.page) (i : nat) (el : Script.element),
     Spec.supported lang ->
     Script.elements p !! i = Some el ->
     exists el',
       Script.elements (Js.state_of (Script.applyTranslations proto lang p)) !! i
       = Some el' /\
       (forall key, Script.attrs el !! "data-i18n" = Some key ->
          match Spec.catalogValue lang key with
          | Some text => Script.textContent el' = text
          | None =>
              Js.toBoolean (proto key) = false ->
              Script.textContent el' = Script.textContent el
          end) /\
       (Script.attrs el !! "data-i18n" = None ->
        Script.textContent el' = Script.textContent el) /\
       (forall key, Script.attrs el !! "data-placeholder-i18n" = Some key ->
          match Spec.catalogValue lang key with
          | Some text => Script.attrs el' = <["placeholder" := text]> (Script.attrs el)
          | None =>
              Js.toBoolean (proto key) = false -> Script.attrs el' = Script.attrs el
          end) /\
       (Script.attrs el !! "data-placeholder-i18n" = None ->
        Script.attrs el' = Script.attrs el)).
Proof.
  split.
  - intros lang w i e Hi. rewrite applyLanguage_elements.
    exists (App.updateElement lang e). split.
    + rewrite list_lookup_fmap, Hi. reflexivity.
    + rewrite updateElement_value.
      destruct (Spec.pairValue lang e) as [text|]; [|reflexivity].
      split; [reflexivity | apply writeText_displays].
  - intros lang p i el HL Hi.
    destruct (dictionary_supported proto lang HL) as (c & Hc & Hd).
    rewrite (applyTranslations_elements proto lang c p Hd).
    exists (Props.retranslate proto c el). split.
    { rewrite list_lookup_fmap, Hi. reflexivity. }
    assert (Hw : forall key,
               match Spec.catalogValue lang key with
               | Some text => Props.written proto c key = Some text
               | None => Js.toBoolean (proto key) = false ->
                         Props.written proto c key = None
               end).
    { intros key. rewrite (written_catalogValue proto lang c key Hc).
      unfold Spec.catalogValue. rewrite Hc. simpl.
      destruct (c !! key) as [text|]; simpl.
      - destruct (Js.truthy text); auto.
      - intros ->. reflexivity. }
    unfold Props.retranslate. simpl.
    split; [|split; [|split]].
    + intros key Hk. rewrite Hk. simpl. specialize (Hw key).
      destruct (Spec.catalogValue lang key).
      * rewrite Hw. reflexivity.
      * intros Hf. rewrite (Hw Hf). reflexivity.
    + intros ->. reflexivity.
    + intros key Hk. rewrite Hk. simpl. specialize (Hw key).
      destruct (Spec.catalogValue lang key).
      * rewrite Hw. reflexivity.
      * intros Hf. rewrite (Hw Hf). reflexivity.
    + intros ->. reflexivity.
Qed.

(** C8.  The claim fails in script.js for a key that names a member of
    [Object.prototype]: neither catalog has an entry [constructor], yet
    under either language the node with that key loses its text to the
    source text of the [Object] function, which [dict[key]] finds on the
    prototype chain; the node next to it, whose key the catalog lacks and
    nothing is inherited for, keeps its text. *)
Theorem C8_inherited_key_is_written :
  let p := Examples.builders in
  let r := Script.applyTranslations Examples.objectPrototype "ar" p in
  Script.elements p
  = [ Examples.keyed "data-i18n" "constructor" "Builders";
      Examples.keyed "data-i18n" "sponsors" "Sponsors" ] /\
  Spec.catalogValue "en" "constructor" = None /\
  Spec.catalogValue "ar" "constructor" = None /\
  Js.returns r = true /\
  map Script.textContent (Script.elements (Js.state_of r))
  = [ "function Object() { [native code] }"; "Sponsors" ].
Proof.
  cbv zeta. vm_compute. repeat split.
Qed.

(** A stored code in upper case: the attribute is looked up without
    regard to case, so the nodes take their Arabic values, while the
    direction, which compares the code with [ar] as it is, stays left to
    right. *)
Example upper_case_code_reads_arabic_values :
  let w := App.applyLanguage "AR" (Examples.english Examples.emptyStore) in
  map App.content (App.elements (App.doc w))
  = [ App.TextContent "نادي الصيدلة";
      App.InnerHTML "النخلة<br>الحبة<br>الكتاب";
      App.TextContent "";
      App.TextContent "السنة الأولى";
      App.TextContent "Sponsors" ] /\
  App.htmlAttrs (App.doc w) !! "dir" = Some "ltr" /\
  App.htmlAttrs (App.doc w) !! "lang" = Some "AR".
Proof. vm_compute. repeat split. Qed.

(** The home page turned to Arabic: the heading, the paragraph with line
    breaks (as markup), the placeholder of the input and the option take
    the Arabic values; the heading without Arabic text keeps its own. *)
Example home_in_arabic :
  map (fun e => (App.content e, App.attrs e !! "placeholder"))
      (App.elements (App.doc (App.applyLanguage "ar" (Examples.english Examples.emptyStore))))
  = [ (App.TextContent "نادي الصيدلة", None);
      (App.InnerHTML "النخلة<br>الحبة<br>الكتاب", None);
      (App.TextContent "", Some "اسمك");
      (App.TextContent "السنة الأولى", None);
      (App.TextContent "Sponsors", None) ].
Proof. vm_compute. reflexivity. Qed.

(** ** Content loading *)

Section Loading.
Import Js.

Lemma onFailure_state url sel p :
  let p' := Script.onFailure url sel p in
  Script.containers p' = <[sel := Script.unableToLoad]> (Script.containers p) /\
  Script.trace p' = (Script.trace p ++ [Script.ConsoleError url])%list /\
  Script.elements p' = Script.elements p /\
  Script.bodyDir p' = Script.bodyDir p /\
  Script.currentLang p' = Script.currentLang p /\
  Script.localStorage p' = Script.localStorage p.
Proof. repeat split. Qed.

(** Whatever the outcome, a container other than the target keeps its
    content. *)
Lemma fetchAndRender_other url sel templateFn r p other :
  other <> sel ->
  Script.containers (Script.fetchAndRender url sel templateFn r p) !! other
  = Script.containers p !! other.
Proof.
  intros Hne. unfold Script.fetchAndRender, Script.settle.
  destruct (Script.containers p !! sel); [|reflexivity].
  destruct r as [| |data]; simpl; try (apply lookup_insert_ne; congruence).
  destruct (Script.render templateFn data); simpl; apply lookup_insert_ne; congruence.
Qed.

Lemma settle_other url sel templateFn r p other :
  other <> sel ->
  Script.containers (Script.settle url sel templateFn r p) !! other
  = Script.containers p !! other.
Proof.
  intros Hne. unfold Script.settle.
  destruct r as [| |data]; simpl; try (apply lookup_insert_ne; congruence).
  destruct (Script.render templateFn data); simpl; apply lookup_insert_ne; congruence.
Qed.

Lemma request_containers url sel p :
  Script.containers (Script.request url sel p) = Script.containers p.
Proof. unfold Script.request. destruct (Script.containers p !! sel); reflexivity. Qed.

(** What a settled chain leaves in its own container does not depend on
    the page it settles on. *)
Lemma settle_own url sel templateFn r p q :
  Script.containers (Script.settle url sel templateFn r p) !! sel
  = Script.containers (Script.settle url sel templateFn r q) !! sel.
Proof.
  unfold Script.settle.
  destruct r as [| |data]; simpl; rewrite ?lookup_insert_eq; try reflexivity.
  destruct (Script.render templateFn data); simpl; rewrite !lookup_insert_eq; reflexivity.
Qed.

(** A failed load, on a page that has the container. *)
Lemma fetchAndRender_failure url sel templateFn r p :
  Script.failed r = true ->
  is_Some (Script.containers p !! sel) ->
  let p' := Script.fetchAndRender url sel templateFn r p in
  Script.containers p' !! sel = Some Spec.errorPlaceholder /\
  Script.trace p'
  = (Script.trace p ++ [Script.Fetched url; Script.ConsoleError url])%list /\
  Script.elements p' = Script.elements p /\
  Script.bodyDir p' = Script.bodyDir p.
Proof.
  intros Hf [html Hc] p'. subst p'. unfold Script.fetchAndRender, Script.settle. rewrite Hc.
  destruct r; try discriminate Hf; simpl;
    rewrite lookup_insert_eq, <- app_assoc; auto.
Qed.

End Loading.

(** C9.  When the fetch or the parse of a resource fails, its container
    (one that exists on the page) ends up holding the fixed error
    placeholder and nothing else, every other container keeps its
    content, and the resource was requested once, the failure being
    logged and not retried. *)
Theorem C9_fetch_failure_shows_placeholder
        (url sel : string) (templateFn : Script.json -> option string)
        (r : Script.response) (p : Script.page) :
  Script.failed r = true ->
  is_Some (Script.containers p !! sel) ->
  let p' := Script.fetchAndRender url sel templateFn r p in
  Script.containers p' !! sel = Some Spec.errorPlaceholder /\
  (forall other, other <> sel ->
                 Script.containers p' !! other = Script.containers p !! other) /\
  Script.trace p' = (Script.trace p ++ [Script.Fetched url; Script.ConsoleError url])%list /\
  Script.elements p' = Script.elements p /\
  Script.bodyDir p' = Script.bodyDir p.
Proof.
  intros Hf Hc p'.
  destruct (fetchAndRender_failure url sel templateFn r p Hf Hc) as (H1 & H2 & H3 & H4).
  split; [exact H1|]. split; [|auto].
  intros other Hne. apply fetchAndRender_other. exact Hne.
Qed.

Lemma C9_fetch_failure_shows_placeholder_witness :
  let p := Examples.visit Examples.emptyStore in
  let p' := Script.fetchAndRender "data/events.json" "#events-list"
              (fun _ => Some "") Script.NetworkError p in
  Script.failed Script.NetworkError = true /\
  is_Some (Script.containers p !! "#events-list") /\
  Script.containers p' !! "#events-list"
  = Some ("<p style=" ++ String "034"%char "color: red;" ++ String "034"%char
            ">Unable to load content. If you are viewing this page locally, please run a local web server to allow fetching JSON files.</p>") /\
  (forall other, other <> "#events-list" ->
                 Script.containers p' !! other = Script.containers p !! other) /\
  Script.trace p' = (Script.trace p ++ [Script.Fetched "data/events.json";
                                        Script.ConsoleError "data/events.json"])%list /\
  Script.elements p' = Script.elements p /\
  Script.bodyDir p' = Script.bodyDir p.
Proof.
  assert (Hc : is_Some (Script.containers (Examples.visit Examples.emptyStore)
                          !! "#events-list")) by (eexists; reflexivity).
  cbv zeta. split; [reflexivity|]. split; [exact Hc|].
  destruct (C9_fetch_failure_shows_placeholder "data/events.json" "#events-list"
              (fun _ => Some "") Script.NetworkError
              (Examples.visit Examples.emptyStore) eq_refl Hc) as (H1 & H2).
  split; [exact H1 | exact H2].
Defined.

(** The events resource fails while the news load, whichever settles
    first: the events container shows the placeholder, the news container
    what a load of the news alone leaves there. *)
Lemma events_failure_leaves_news newsTemplate eventTemplate news events first p :
  Script.failed events = true ->
  is_Some (Script.containers p !! "#events-list") ->
  let p' := Script.loadJSONContent newsTemplate eventTemplate news events first p in
  Script.containers p' !! "#events-list" = Some Spec.errorPlaceholder /\
  Script.containers p' !! "#news-list"
  = Script.containers
      (Script.fetchAndRender "data/news.json" "#news-list" newsTemplate news p)
      !! "#news-list".
Proof.
  intros Hf [html Hc] p'. subst p'. unfold Script.loadJSONContent. rewrite Hc.
  assert (Hev : forall q, Script.containers
                            (Script.settle "data/events.json" "#events-list"
                               eventTemplate events q) !! "#events-list"
                          = Some Spec.errorPlaceholder).
  { intros q. unfold Script.settle. destruct events; try discriminate Hf;
      simpl; apply lookup_insert_eq. }
  unfold Script.fetchAndRender.
  destruct (Script.containers p !! "#news-list") as [old|] eqn:Hn.
  - destruct first.
    + split; [apply Hev|]. rewrite settle_other by discriminate. apply settle_own.
    + split; [rewrite settle_other by discriminate; apply Hev | apply settle_own].
  - destruct first.
    + split; [apply Hev|]. rewrite settle_other, !request_containers by discriminate.
      reflexivity.
    + split; [apply Hev|]. rewrite settle_other, !request_containers by discriminate.
      reflexivity.
Qed.

(** * Further properties of app.js *)

(** ** The language manager over a whole visit *)

Ltac open_world w :=
  destruct w as [cl rtl [ha ti bc els [lt|]] [it rd [|]] g ts nw tr].

Ltac crank :=
  lazy beta iota zeta delta
    [App.finishSwitch App.dispatchLanguageChanged App.updateGalleryData App.setTimeout
     App.setStoredLanguage Js.setItem App.updateLanguageButton App.applyLanguage
     App.set_manager App.set_doc App.set_store App.set_gal App.set_timers App.log
     App.setBodyClasses
     App.currentLang App.isRTL App.doc App.store App.gal App.timers App.now App.trace
     App.htmlAttrs App.title App.bodyClasses App.elements App.langText
     Js.items Js.readable Js.writable].

Section Visit.
Import Js App.

Lemma set_store_same w : set_store (store w) w = w.
Proof. destruct w. reflexivity. Qed.

(** The store a switch leaves when the write goes through. *)
Lemma finishSwitch_store lang w :
  writable (store w) = true ->
  store (finishSwitch lang w)
  = {| items := <[storageKey := lang]> (items (store w));
       readable := readable (store w); writable := true |}.
Proof.
  intros Hw. open_world w; try discriminate Hw; crank; reflexivity.
Qed.

Lemma finishSwitch_consistent lang w : Props.consistent (finishSwitch lang w).
Proof.
  destruct (finishSwitch_state lang w) as (Hl & Hr & Hd & Hg & _).
  unfold Props.consistent. rewrite Hl, Hr, Hd, Hg. auto.
Qed.

Lemma setBodyClasses_consistent cs w :
  Props.consistent w -> Props.consistent (setBodyClasses cs w).
Proof. intros H. exact H. Qed.

Lemma toggleLanguage_frame w :
  currentLang (toggleLanguage w) = currentLang w /\
  isRTL (toggleLanguage w) = isRTL w /\
  htmlAttrs (doc (toggleLanguage w)) = htmlAttrs (doc w) /\
  store (toggleLanguage w) = store w.
Proof.
  unfold toggleLanguage, switchLanguage.
  change (currentLang (log _ w)) with (currentLang w).
  rewrite toggleTarget_differs. repeat split.
Qed.

Lemma toggleLanguage_consistent w :
  Props.consistent w -> Props.consistent (toggleLanguage w).
Proof.
  destruct (toggleLanguage_frame w) as (Hl & Hr & Hh & _).
  unfold Props.consistent. rewrite Hl, Hr, Hh. auto.
Qed.

Lemma tick_consistent w : Props.consistent w -> Props.consistent (tick w).
Proof.
  intros H. unfold tick.
  destruct (earliest (timers w)) as [d|]; [|exact H].
  destruct (takeDue d (timers w)) as [[k rest]|]; [|exact H].
  destruct k as [lang|]; simpl runTask.
  - apply finishSwitch_consistent.
  - apply setBodyClasses_consistent. exact H.
Qed.

Lemma act_consistent s w : Props.consistent w -> Props.consistent (act s w).
Proof.
  intros H. destruct s as [|c m k|]; simpl.
  - apply toggleLanguage_consistent, H.
  - unfold shortcut. destruct ((c || m) && String.eqb k "l");
      [apply toggleLanguage_consistent|]; exact H.
  - apply tick_consistent, H.
Qed.

Lemma LanguageManager_consistent p w :
  LanguageManager p = Some w -> Props.consistent w.
Proof.
  unfold LanguageManager.
  destruct (resolveLanguage (pageStore p) (pageNav p)) as [l|]; [|discriminate].
  intros [= <-].
  destruct p as [[ha ti bc els [lt|]] st nav its li lc];
    lazy beta iota zeta delta
      [Props.consistent init updateLanguageButton applyLanguage set_doc log
       currentLang isRTL doc store gal timers now trace htmlAttrs title
       bodyClasses elements langText pageDoc pageStore pageItems
       pageLightboxImg pageLightboxCaption];
    rewrite lookup_insert_eq, lookup_insert_ne by discriminate;
    rewrite lookup_insert_eq; auto.
Qed.

(** A timer that is due no later than any other is the one that fires. *)
Lemma earliest_member ts d :
  earliest ts = Some d -> exists k, (d, k) ∈ ts.
Proof.
  revert d. induction ts as [|[d0 k0] ts IH]; intros d; simpl; [discriminate|].
  destruct (earliest ts) as [d'|] eqn:He.
  - intros [= <-]. destruct (Nat.min_dec d0 d') as [-> | ->].
    + exists k0. apply list_elem_of_here.
    + destruct (IH d' eq_refl) as [k Hk]. exists k. apply list_elem_of_further, Hk.
  - intros [= <-]. exists k0. apply list_elem_of_here.
Qed.

Lemma earliest_head d k rest :
  Forall (fun t => d <= fst t) rest -> earliest ((d, k) :: rest) = Some d.
Proof.
  intros Hall. simpl. destruct (earliest rest) as [d'|] eqn:He; [|reflexivity].
  destruct (earliest_member _ _ He) as [k' Hk'].
  rewrite Forall_forall in Hall. specialize (Hall _ Hk'). simpl in Hall.
  f_equal. lia.
Qed.

Lemma tick_head w d k rest :
  timers w = (d, k) :: rest ->
  Forall (fun t => d <= fst t) rest ->
  tick w = runTask k (set_timers rest (Nat.max d (now w)) w).
Proof.
  intros Ht Hall. unfold tick. rewrite Ht, (earliest_head _ _ _ Hall).
  simpl. rewrite Nat.eqb_refl. reflexivity.
Qed.

End Visit.

(** At every moment of a visit, however clicks, key presses and timers
    follow one another, the manager's language, its direction flag and
    the [lang] and [dir] attributes of the root element agree. *)
Theorem visit_keeps_language_consistent (p : App.page) (w : App.world)
        (steps : list App.step) :
  App.LanguageManager p = Some w ->
  Props.consistent (App.session steps w).
Proof.
  intros Hload. apply LanguageManager_consistent in Hload.
  revert w Hload. induction steps as [|s rest IH]; intros w Hw; simpl.
  - exact Hw.
  - apply IH, act_consistent, Hw.
Qed.

Lemma visit_keeps_language_consistent_witness :
  exists w,
    App.LanguageManager (Examples.home Examples.emptyStore (Some "en-GB")) = Some w /\
    Props.consistent
      (App.session [App.Toggle; App.Key true false "l"; App.Fire; App.Toggle; App.Fire] w).
Proof.
  eexists. split; [reflexivity|].
  apply (visit_keeps_language_consistent
           (Examples.home Examples.emptyStore (Some "en-GB"))).
  reflexivity.
Defined.

(** ** Switching with a store that fails, and reloading *)

Section Preference.
Import Js App.

Lemma resolveLanguage_stored st nav lang :
  getStoredLanguage st = Some lang -> lang <> "" ->
  resolveLanguage st nav = Some lang.
Proof.
  intros Hs Hne. unfold resolveLanguage. rewrite Hs. simpl.
  unfold truthy. destruct (String.eqb_spec lang ""); [contradiction | reflexivity].
Qed.

Lemma detectBrowserLanguage_supported nav l :
  detectBrowserLanguage nav = Some l -> Spec.supported l.
Proof.
  unfold detectBrowserLanguage, Spec.supported.
  destruct (or_else _ _) as [b|]; [|discriminate].
  destruct (startsWith b "ar"); intros [= <-]; auto.
Qed.

Lemma resolveLanguage_detected st nav l :
  Spec.present (getStoredLanguage st) = None ->
  resolveLanguage st nav = Some l -> Spec.supported l.
Proof.
  unfold Spec.present, resolveLanguage.
  destruct (getStoredLanguage st) as [s|]; simpl;
    [destruct (truthy s); [discriminate|] |]; intros _;
    (destruct (detectBrowserLanguage nav) as [d|] eqn:Hd; [|discriminate]).
  all: pose proof (detectBrowserLanguage_supported nav d Hd) as [-> | ->];
    cbn; intros [= <-]; [left | right]; reflexivity.
Qed.

Lemma toggleTarget_supported w : Spec.supported (toggleTarget w).
Proof.
  unfold toggleTarget, Spec.supported.
  destruct (String.eqb (currentLang w) "en"); auto.
Qed.

End Preference.

(** A switch whose write to the store raises ends like one whose write
    goes through: same document, same gallery data, same language and
    direction, same timers.  Only the store keeps its old content, and a
    warning is logged before the change notification. *)
Theorem switch_survives_write_failure (lang : string) (w : App.world) (st : Js.storage) :
  Js.writable (App.store w) = false ->
  let failed := App.finishSwitch lang w in
  let saved := App.finishSwitch lang (App.set_store st w) in
  App.doc failed = App.doc saved /\
  App.gal failed = App.gal saved /\
  App.currentLang failed = lang /\
  App.isRTL failed = App.isRTL saved /\
  App.timers failed = App.timers saved /\
  App.store failed = App.store w /\
  App.trace failed
  = (App.trace w ++ [App.Applied lang;
                     App.ConsoleWarn "Could not save language preference";
                     App.LanguageChanged lang (String.eqb lang "ar");
                     App.ConsoleLog ("Language switched to: " ++ lang)])%list.
Proof.
  intros Hw failed saved.
  destruct (finishSwitch_ignores_store lang w (App.store w) st)
    as (Hd & Hg & _ & Hr & Ht).
  rewrite set_store_same in Hd, Hg, Hr, Ht.
  destruct (finishSwitch_write_failure lang w Hw) as (Htr & Hst).
  destruct (finishSwitch_state lang w) as (Hl & _).
  subst failed saved. auto 10.
Qed.

Lemma switch_survives_write_failure_witness :
  let w := Examples.english Examples.fullStore in
  App.doc (App.finishSwitch "ar" w)
  = App.doc (App.finishSwitch "ar" (App.set_store Examples.emptyStore w)) /\
  App.store (App.finishSwitch "ar" w) = Examples.fullStore.
Proof.
  destruct (switch_survives_write_failure "ar" (Examples.english Examples.fullStore)
              Examples.emptyStore eq_refl) as (Hd & _ & _ & _ & _ & Hs & _).
  split; [exact Hd | exact Hs].
Defined.

(** Round trip of the preference: after a switch to a non-empty language
    code on a store that can be written and read, loading a page on that
    store starts in that language, whatever the locale signal says. *)
Theorem preference_survives_reload (lang : string) (w : App.world) (p : App.page) :
  lang <> "" ->
  Js.writable (App.store w) = true ->
  Js.readable (App.store w) = true ->
  App.pageStore p = App.store (App.finishSwitch lang w) ->
  exists w', App.LanguageManager p = Some w' /\
             App.currentLang w' = lang /\
             App.htmlAttrs (App.doc w') !! "dir" = Some (Spec.direction lang).
Proof.
  intros Hne Hw Hr Hp.
  assert (Hs : App.getStoredLanguage (App.pageStore p) = Some lang).
  { rewrite Hp, (finishSwitch_store lang w Hw).
    unfold App.getStoredLanguage, Js.getItem. simpl. rewrite Hr.
    apply lookup_insert_eq. }
  destruct (LanguageManager_resolved p lang
              (resolveLanguage_stored _ (App.pageNav p) lang Hs Hne))
    as (w' & Hload & Hl & _ & Hd & _).
  exists w'. auto.
Qed.

Lemma preference_survives_reload_witness :
  exists w', App.LanguageManager
               (Examples.home
                  (App.store (App.finishSwitch "ar" (Examples.english Examples.emptyStore)))
                  (Some "en-GB")) = Some w' /\
             App.currentLang w' = "ar" /\
             App.htmlAttrs (App.doc w') !! "dir" = Some (Spec.direction "ar").
Proof.
  apply (preference_survives_reload "ar" (Examples.english Examples.emptyStore));
    [discriminate | reflexivity | reflexivity | reflexivity].
Defined.

(** The language is [en] or [ar] unless it is a stored preference taken
    as it is: a page loaded without a usable stored preference starts in
    one of the two, and from any language, a stored oddity included, one
    completed toggle leads to one of the two. *)
Theorem language_is_supported_unless_stored :
  (forall (p : App.page) (w : App.world),
     Spec.present (App.getStoredLanguage (App.pageStore p)) = None ->
     App.LanguageManager p = Some w ->
     Spec.supported (App.currentLang w)) /\
  (forall w : App.world,
     App.timers w = [] ->
     Spec.supported (App.currentLang (App.settle 2 (App.toggleLanguage w)))).
Proof.
  split.
  - intros p w Hnone Hload. unfold App.LanguageManager in Hload.
    destruct (App.resolveLanguage (App.pageStore p) (App.pageNav p)) as [l|] eqn:Hres;
      [|discriminate].
    destruct (LanguageManager_resolved p l Hres) as (w' & Hload' & Hl & _).
    unfold App.LanguageManager in Hload'. rewrite Hres in Hload'.
    rewrite Hload in Hload'. injection Hload' as <-.
    rewrite Hl. eapply resolveLanguage_detected; eauto.
  - intros w Hidle.
    destruct (toggle_completes w Hidle) as (-> & _).
    apply toggleTarget_supported.
Qed.

Lemma language_is_supported_unless_stored_witness :
  Spec.supported
    (App.currentLang
       (App.settle 2 (App.toggleLanguage
                        (App.set_manager "fr" false (Examples.english Examples.emptyStore))))).
Proof.
  apply (proj2 language_is_supported_unless_stored). reflexivity.
Defined.

(** ** Two toggles in a hurry *)

Section Hurry.
Import Js App.

Lemma endSwitching_state v :
  let v' := runTask EndSwitching v in
  currentLang v' = currentLang v /\ timers v' = timers v /\ now v' = now v /\
  bodyClasses (doc v') = bodyClasses (doc v) ∖ {["lang-switching"]}.
Proof. repeat split. Qed.

Lemma set_timers_state ts t v :
  let v' := set_timers ts t v in
  currentLang v' = currentLang v /\ timers v' = ts /\ now v' = t /\ doc v' = doc v.
Proof. repeat split. Qed.

Lemma toggleTarget_same v w :
  currentLang v = currentLang w -> toggleTarget v = toggleTarget w.
Proof. unfold toggleTarget. intros ->. reflexivity. Qed.

End Hurry.

(** Two toggles issued before the first one's timer has fired aim at the
    same language: once the four timers have run, the language is the
    other one, not the original, the switching mark is gone and nothing
    is pending. *)
Theorem rapid_toggles_do_not_cancel (w : App.world) :
  App.timers w = [] ->
  let w' := App.settle 4 (App.toggleLanguage (App.toggleLanguage w)) in
  App.currentLang w' = App.toggleTarget w /\
  App.currentLang w' <> App.currentLang w /\
  ("lang-switching" ∉ App.bodyClasses (App.doc w')) /\
  App.timers w' = [].
Proof.
  intros Hidle. cbv zeta.
  change (App.settle 4 ?v) with (App.tick (App.tick (App.tick (App.tick v)))).
  pose proof (toggleTarget_differs w) as Hdiff.
  set (T := App.toggleTarget w) in *.
  destruct (toggleLanguage_state w) as (Ht0 & Hn0 & Hl0 & _).
  rewrite Hidle, app_nil_l in Ht0. fold T in Ht0.
  set (w0 := App.toggleLanguage w) in *.
  destruct (toggleLanguage_state w0) as (Ht1 & Hn1 & Hl1 & _).
  rewrite (toggleTarget_same w0 w Hl0) in Ht1. fold T in Ht1.
  rewrite Ht0, Hn0 in Ht1. cbn [app] in Ht1.
  set (w1 := App.toggleLanguage w0) in *. clearbody w1 w0 T.
  (* the first continuation *)
  rewrite (tick_head w1 _ _ _ Ht1) by (repeat constructor).
  change (App.runTask (App.SwitchTo ?l) ?v) with (App.finishSwitch l v).
  set (v1 := App.set_timers _ _ w1).
  destruct (finishSwitch_state T v1) as (_ & _ & _ & _ & _ & Ht2 & Hn2 & _).
  destruct (set_timers_state [(App.now w + 150, App.SwitchTo T)]
              (Nat.max (App.now w + 150) (App.now w1)) w1) as (_ & Hvt & Hvn & _).
  fold v1 in Hvt, Hvn. rewrite Hvt, Hvn, Hn1, Hn0 in Ht2. rewrite Hvn, Hn1, Hn0 in Hn2.
  cbn [app] in Ht2.
  set (w2 := App.finishSwitch T v1) in *. clearbody w2. clear Hvt Hvn.
  (* the second continuation *)
  rewrite (tick_head w2 _ _ _ Ht2) by (repeat constructor; simpl; lia).
  change (App.runTask (App.SwitchTo ?l) ?v) with (App.finishSwitch l v).
  set (v2 := App.set_timers _ _ w2).
  destruct (finishSwitch_state T v2) as (Hl3 & _ & _ & _ & _ & Ht3 & Hn3 & _).
  destruct (set_timers_state
              [(Nat.max (App.now w + 150) (App.now w) + 100, App.EndSwitching)]
              (Nat.max (App.now w + 150) (App.now w2)) w2) as (_ & Hvt & Hvn & _).
  fold v2 in Hvt, Hvn. rewrite Hvt, Hvn, Hn2 in Ht3. rewrite Hvn, Hn2 in Hn3.
  cbn [app] in Ht3.
  set (w3 := App.finishSwitch T v2) in *. clearbody w3. clear Hvt Hvn.
  (* the two removals of the mark *)
  rewrite (tick_head w3 _ _ _ Ht3) by (repeat constructor; simpl; lia).
  set (v3 := App.set_timers _ _ w3).
  destruct (endSwitching_state v3) as (Hl4 & Ht4 & _ & _).
  destruct (set_timers_state
              [(Nat.max (App.now w + 150) (Nat.max (App.now w + 150) (App.now w)) + 100,
                App.EndSwitching)]
              (Nat.max (Nat.max (App.now w + 150) (App.now w) + 100) (App.now w3)) w3)
    as (Hvl & Hvt & _ & _).
  fold v3 in Hvl, Hvt. rewrite Hvt in Ht4. rewrite Hvl in Hl4.
  set (w4 := App.runTask App.EndSwitching v3) in *. clearbody w4. clear Hvl Hvt.
  rewrite (tick_single w4 _ _ Ht4).
  set (v4 := App.set_timers _ _ w4).
  destruct (endSwitching_state v4) as (Hl5 & Ht5 & _ & Hb5).
  destruct (set_timers_state []
              (Nat.max
                 (Nat.max (App.now w + 150) (Nat.max (App.now w + 150) (App.now w)) + 100)
                 (App.now w4)) w4) as (Hvl & Hvt & _ & _).
  fold v4 in Hvl, Hvt.
  rewrite Hl5, Ht5, Hb5, Hvl, Hvt, Hl4, Hl3.
  split; [reflexivity|]. split; [|split; [|reflexivity]].
  - intros Heq. rewrite Heq, String.eqb_refl in Hdiff. discriminate.
  - intros [_ Hout]%elem_of_difference. apply Hout, elem_of_singleton. reflexivity.
Qed.

Lemma rapid_toggles_do_not_cancel_witness :
  App.currentLang
    (App.settle 4 (App.toggleLanguage
                     (App.toggleLanguage (Examples.english Examples.emptyStore))))
  = "ar".
Proof.
  exact (proj1 (rapid_toggles_do_not_cancel (Examples.english Examples.emptyStore) eq_refl)).
Defined.

(** ** The data of the gallery *)

Section Captions.
Import Js App.

Lemma or_else_truthy a b s :
  or_else a b = Some s -> truthy_opt a = true \/ b = Some s.
Proof. unfold or_else. destruct (truthy_opt a); auto. Qed.

Lemma captionOf_nonempty lang item : captionOf lang item <> "".
Proof.
  unfold captionOf.
  generalize (or_else (or_else (getAttribute ("data-caption-" ++ lang) (itemAttrs item))
                               (captionEl item ≫= fun c => getAttribute ("data-" ++ lang) (captionAttrs c)))
                      (captionText <$> captionEl item)).
  intros chain. unfold or_else.
  destruct (truthy_opt chain) eqn:Hc.
  - destruct chain as [s|]; [|discriminate]. simpl in *.
    unfold truthy in Hc. intros ->. discriminate.
  - simpl. destruct (String.eqb lang "ar"); discriminate.
Qed.

Lemma captionOf_explicit lang item c :
  getAttribute ("data-caption-" ++ lang) (itemAttrs item) = Some c -> c <> "" ->
  captionOf lang item = c.
Proof.
  intros Hc Hne. unfold captionOf. rewrite Hc.
  assert (Ht : truthy c = true).
  { unfold truthy. destruct (String.eqb_spec c ""); [contradiction | reflexivity]. }
  unfold or_else. simpl. rewrite Ht. simpl. rewrite Ht. simpl. rewrite Ht. reflexivity.
Qed.

End Captions.

(** [updateGalleryData] builds one image per gallery item, in order, with
    the item's [data-src]; no caption is ever empty, and an item with a
    non-empty caption attribute for the current language gets that
    caption, whatever its caption element holds. *)
Theorem gallery_data_follows_items (w : App.world) :
  let g := App.gal (App.updateGalleryData w) in
  length (App.galleryImages g) = length (App.galleryItems (App.gal w)) /\
  (forall i item,
     App.galleryItems (App.gal w) !! i = Some item ->
     exists image,
       App.galleryImages g !! i = Some image /\
       App.src image = App.itemAttrs item !! "data-src" /\
       App.caption image <> "" /\
       (forall c, Js.getAttribute ("data-caption-" ++ App.currentLang w)
                                  (App.itemAttrs item) = Some c ->
                  c <> "" -> App.caption image = c)).
Proof.
  cbv zeta. unfold App.updateGalleryData. simpl. split.
  - apply length_map.
  - intros i item Hi. eexists. split.
    + rewrite list_lookup_fmap, Hi. reflexivity.
    + simpl. split; [reflexivity|]. split; [apply captionOf_nonempty|].
      intros c Hc Hne. apply captionOf_explicit; assumption.
Qed.

(** ** Applying a language again, or another one *)

Section Reapply.
Import Js App.

Lemma data_key_not_placeholder lang : lower ("data-" ++ lang) <> "placeholder".
Proof. simpl. discriminate. Qed.

(** What the walk over the document keeps of an element: everything but
    its content and its placeholder. *)
Lemma updateElement_frame lang e :
  let e' := updateElement lang e in
  tagName e' = tagName e /\ type e' = type e /\ inSelect e' = inSelect e /\
  (forall k, k <> "placeholder" -> attrs e' !! k = attrs e !! k).
Proof.
  cbv zeta. rewrite updateElement_value.
  destruct (Spec.pairValue lang e) as [text|]; [|auto].
  unfold writeText.
  destruct (String.eqb (tagName e) "INPUT" && negb (String.eqb (type e) "submit")).
  - simpl. repeat split; auto. intros k Hk. apply lookup_insert_ne. congruence.
  - destruct (String.eqb (tagName e) "OPTION"); [simpl; auto|].
    destruct (includes text "<br>"); simpl; auto.
Qed.

Lemma updateElement_pairValue lang lang' e :
  Spec.pairValue lang' (updateElement lang e) = Spec.pairValue lang' e.
Proof.
  destruct (updateElement_frame lang e) as (_ & _ & _ & Ha).
  unfold Spec.pairValue, getAttribute.
  rewrite !Ha by (try discriminate; apply data_key_not_placeholder).
  reflexivity.
Qed.

Lemma writeText_writeText t1 t2 e : writeText t2 (writeText t1 e) = writeText t2 e.
Proof.
  unfold writeText.
  destruct (String.eqb (tagName e) "INPUT" && negb (String.eqb (type e) "submit")) eqn:Hi.
  - simpl. rewrite Hi. unfold setAttribute. simpl. rewrite insert_insert_eq. reflexivity.
  - destruct (String.eqb (tagName e) "OPTION") eqn:Ho.
    + simpl. rewrite Hi, Ho. reflexivity.
    + destruct (includes t1 "<br>"); simpl; rewrite Hi, Ho;
        destruct (includes t2 "<br>"); reflexivity.
Qed.

(** Where the later language has a value, the earlier one leaves no trace. *)
Lemma updateElement_overrides lang1 lang2 e text :
  Spec.pairValue lang2 e = Some text ->
  updateElement lang2 (updateElement lang1 e) = updateElement lang2 e.
Proof.
  intros Hv. rewrite (updateElement_value lang2 (updateElement lang1 e)).
  rewrite updateElement_pairValue, Hv.
  rewrite (updateElement_value lang2 e), Hv.
  rewrite (updateElement_value lang1 e).
  destruct (Spec.pairValue lang1 e); [apply writeText_writeText | reflexivity].
Qed.

Lemma updateElement_idempotent lang e :
  updateElement lang (updateElement lang e) = updateElement lang e.
Proof.
  destruct (Spec.pairValue lang e) as [text|] eqn:Hv.
  - eapply updateElement_overrides; eauto.
  - rewrite (updateElement_value lang e), Hv.
    rewrite (updateElement_value lang e), Hv. reflexivity.
Qed.

Lemma applyLanguage_doc lang w :
  doc (applyLanguage lang w)
  = {| htmlAttrs := <["dir" := Spec.direction lang]>
                      (<["lang" := lang]> (htmlAttrs (doc w)));
       title := if String.eqb lang "ar" then "نادي الصيدلة - الكلية"
                else "Pharmacy Club - College";
       bodyClasses := bodyClasses (doc w);
       elements := map (updateElement lang) (elements (doc w));
       langText := langText (doc w) |}.
Proof.
  pose proof (applyLanguage_elements lang w) as He.
  unfold applyLanguage in *. simpl in *. rewrite He. reflexivity.
Qed.

End Reapply.

(** Applying the same language twice gives the document that applying it
    once gives. *)
Theorem applying_again_changes_nothing (lang : string) (w : App.world) :
  App.doc (App.applyLanguage lang (App.applyLanguage lang w))
  = App.doc (App.applyLanguage lang w).
Proof.
  rewrite (applyLanguage_doc lang (App.applyLanguage lang w)).
  rewrite (applyLanguage_doc lang w). simpl. f_equal.
  - apply map_eq. intros k. rewrite !lookup_insert.
    repeat case_decide; subst; congruence.
  - rewrite List.map_map. apply List.map_ext. intros e.
    apply updateElement_idempotent.
Qed.

(** An element that carries a value for a language shows, once that
    language is applied, the same whether or not another language was
    applied before. *)
Theorem last_language_wins (lang1 lang2 : string) (w : App.world)
        (i : nat) (e : App.element) (text : string) :
  App.elements (App.doc w) !! i = Some e ->
  Spec.pairValue lang2 e = Some text ->
  App.elements (App.doc (App.applyLanguage lang2 (App.applyLanguage lang1 w))) !! i
  = Some (App.writeText text e).
Proof.
  intros Hi Hv.
  rewrite (applyLanguage_doc lang2), (applyLanguage_doc lang1). simpl.
  rewrite !list_lookup_fmap, Hi. simpl.
  rewrite (updateElement_overrides lang1 lang2 e text Hv).
  rewrite updateElement_value, Hv. reflexivity.
Qed.

Lemma last_language_wins_witness :
  App.elements
    (App.doc (App.applyLanguage "en"
                (App.applyLanguage "ar" (Examples.english Examples.emptyStore)))) !! 1
  = Some (App.writeText "Palm<br>Pill<br>Book"
            (Examples.tagged "P" "" "Palm<br>Pill<br>Book" "النخلة<br>الحبة<br>الكتاب"
               "Palm Pill Book")).
Proof.
  apply (last_language_wins "ar" "en"); reflexivity.
Defined.

(** ** More on the validation of a field *)

Section Revalidation.
Import Js Spec App.Form.

Lemma removeExisting_clean ns :
  List.filter isErrorMessage ns = [] -> removeExisting ns = ns.
Proof.
  induction ns as [|n ns IH]; [reflexivity|]. simpl.
  destruct (isErrorMessage n); [discriminate|]. intros H. rewrite IH; auto.
Qed.

Lemma removeExisting_snoc ns n :
  List.filter isErrorMessage ns = [] -> isErrorMessage n = true ->
  removeExisting (ns ++ [n]) = ns.
Proof.
  intros Hclean Hn. induction ns as [|m ns IH]; simpl.
  - rewrite Hn. reflexivity.
  - simpl in Hclean. destruct (isErrorMessage m); [discriminate|].
    rewrite IH; auto.
Qed.

Lemma removeExisting_others ns :
  List.filter (fun n => negb (isErrorMessage n)) (removeExisting ns)
  = List.filter (fun n => negb (isErrorMessage n)) ns.
Proof.
  induction ns as [|n ns IH]; [reflexivity|]. simpl.
  destruct (isErrorMessage n) eqn:E; simpl.
  - reflexivity.
  - rewrite E. simpl. rewrite IH. reflexivity.
Qed.

Lemma without_error_twice (cs : gset string) :
  (cs ∖ {["error"]}) ∖ {["error"]} = cs ∖ {["error"]}.
Proof. apply set_eq. intros x. rewrite !elem_of_difference. tauto. Qed.

Lemma with_error_twice (cs : gset string) :
  {["error"]} ∪ ({["error"]} ∪ cs) = {["error"]} ∪ cs.
Proof. apply set_eq. intros x. rewrite !elem_of_union. tauto. Qed.

Lemma without_error_other (cs : gset string) c :
  c <> "error" -> c ∈ cs ∖ {["error"]} <-> c ∈ cs.
Proof. intros Hc. rewrite elem_of_difference, elem_of_singleton. tauto. Qed.

Lemma with_error_other (cs : gset string) c :
  c <> "error" -> c ∈ {["error"]} ∪ cs <-> c ∈ cs.
Proof. intros Hc. rewrite elem_of_union, elem_of_singleton. tauto. Qed.

Lemma plain_no_at s : plain s -> count_occ N.eq_dec s (code "@") = 0.
Proof.
  intros [_ H]. induction H as [|c s [_ Hc] _ IH]; [reflexivity|].
  rewrite count_occ_cons_neq by exact Hc. exact IH.
Qed.

Lemma plain_no_space s : plain s -> Forall (fun c => is_space c = false) s.
Proof. intros [_ H]. eapply Forall_impl; [exact H|]. intros c [Hc _]. exact Hc. Qed.

End Revalidation.

(** Validating a field a second time, value and language unchanged,
    changes nothing more: same verdict, same mark, same single message
    node (at most one message node being there to begin with). *)
Theorem validateField_again_changes_nothing (proto : Js.prototype) (lang : string) (g : App.Form.group) :
  Spec.messageCount g <= 1 ->
  App.Form.validateField proto lang (App.Form.group_of (App.Form.validateField proto lang g))
  = App.Form.validateField proto lang g.
Proof.
  intros Hone. pose proof (messages_after_removal g Hone) as Hclean.
  unfold App.Form.validateField at 2 3.
  destruct (App.Form.verdict proto lang (App.Form.control g)) as [[[|] msg]|] eqn:Hv;
    simpl App.Form.group_of; unfold App.Form.validateField; simpl.
  - change (App.Form.verdict proto lang (App.Form.setClassList _ (App.Form.control g)))
      with (App.Form.verdict proto lang (App.Form.control g)).
    rewrite Hv, (removeExisting_clean _ Hclean), without_error_twice. reflexivity.
  - change (App.Form.verdict proto lang (App.Form.setClassList _ (App.Form.control g)))
      with (App.Form.verdict proto lang (App.Form.control g)).
    rewrite Hv, (removeExisting_snoc _ _ Hclean (errorElement_is_message lang _)).
    rewrite with_error_twice. reflexivity.
  - rewrite Hv, (removeExisting_clean _ Hclean). reflexivity.
Qed.

Lemma validateField_again_changes_nothing_witness :
  App.Form.validateField Examples.objectPrototype "en"
    (App.Form.group_of
       (App.Form.validateField Examples.objectPrototype "en" (Examples.alone Examples.shortMessage)))
  = App.Form.validateField Examples.objectPrototype "en" (Examples.alone Examples.shortMessage).
Proof.
  apply (validateField_again_changes_nothing Examples.objectPrototype). vm_compute. lia.
Defined.

(** [validateField] leaves the field's tag, type, required flag and value
    alone, touches no class but [error], and keeps every node next to the
    field that is not a message node, in order; this in any language and
    whether it returns or raises. *)
Theorem validateField_touches_only_its_marks (proto : Js.prototype) (lang : string) (g : App.Form.group) :
  let g' := App.Form.group_of (App.Form.validateField proto lang g) in
  App.Form.tagName (App.Form.control g') = App.Form.tagName (App.Form.control g) /\
  App.Form.type (App.Form.control g') = App.Form.type (App.Form.control g) /\
  App.Form.required (App.Form.control g') = App.Form.required (App.Form.control g) /\
  App.Form.value (App.Form.control g') = App.Form.value (App.Form.control g) /\
  (forall c, c <> "error" ->
             (c ∈ App.Form.classList (App.Form.control g')
              <-> c ∈ App.Form.classList (App.Form.control g))) /\
  List.filter (fun n => negb (App.Form.isErrorMessage n)) (App.Form.siblings g')
  = List.filter (fun n => negb (App.Form.isErrorMessage n)) (App.Form.siblings g).
Proof.
  cbv zeta. unfold App.Form.validateField.
  destruct (App.Form.verdict proto lang (App.Form.control g)) as [[[|] msg]|]; simpl;
    refine (conj eq_refl (conj eq_refl (conj eq_refl (conj eq_refl (conj _ _))))).
  - intros c Hc. apply without_error_other, Hc.
  - apply removeExisting_others.
  - intros c Hc. apply with_error_other, Hc.
  - rewrite List.filter_app, removeExisting_others. simpl. apply app_nil_r.
  - tauto.
  - apply removeExisting_others.
Qed.

(** The pattern of [validateField] accepts exactly the values made of a
    local part, an at sign, a domain, a dot and a suffix, the three parts
    non-empty and free of white space and at signs; so an accepted value
    has one at sign and no white space. *)
Theorem emailPattern_accepts (v : Js.ustring) :
  (Js.test App.Form.emailPattern v = true <-> Spec.wellFormedEmail v) /\
  (Js.test App.Form.emailPattern v = true ->
   count_occ N.eq_dec v (Js.code "@") = 1 /\
   Forall (fun c => Js.is_space c = false) v).
Proof.
  split; [apply emailPattern_wellFormed|].
  intros H. apply emailPattern_wellFormed in H as (a & b & c & -> & Ha & Hb & Hc).
  split.
  - rewrite !count_occ_app. unfold Js.codeunit.
    rewrite (plain_no_at a Ha), (plain_no_at b Hb), (plain_no_at c Hc).
    reflexivity.
  - rewrite !Forall_app. repeat split; auto using plain_no_space;
      repeat constructor.
Qed.

Lemma emailPattern_accepts_witness :
  count_occ N.eq_dec (Js.ustr "dean@college.edu") (Js.code "@") = 1 /\
  Forall (fun c => Js.is_space c = false) (Js.ustr "dean@college.edu").
Proof.
  apply (proj2 (emailPattern_accepts (Js.ustr "dean@college.edu"))). reflexivity.
Defined.

(** * Further properties of script.js *)

(** ** Loading content *)

Section Rendering.
Import Js Script.

Lemma mapTemplate_all templateFn items htmls :
  Forall2 (fun item html => templateFn item = Some html) items htmls ->
  mapTemplate templateFn items = Some htmls.
Proof.
  induction 1 as [|item html items htmls Hi _ IH]; simpl; [reflexivity|].
  rewrite Hi, IH. reflexivity.
Qed.

Lemma mapTemplate_raises templateFn items :
  Exists (fun item => templateFn item = None) items ->
  mapTemplate templateFn items = None.
Proof.
  induction 1 as [item items Hi | item items _ IH]; simpl.
  - rewrite Hi. reflexivity.
  - destruct (templateFn item); [rewrite IH|]; reflexivity.
Qed.

(** The containers after a load: the target, if the page has it, holds
    what the outcome shows. *)
Lemma fetchAndRender_containers url sel templateFn r p :
  containers (fetchAndRender url sel templateFn r p)
  = match containers p !! sel with
    | Some _ => <[sel := Props.shown templateFn r]> (containers p)
    | None => containers p
    end.
Proof.
  unfold fetchAndRender, settle, Props.shown.
  destruct (containers p !! sel); [|reflexivity].
  destruct r as [| |data]; try reflexivity.
  destruct (render templateFn data); reflexivity.
Qed.

Lemma fetchAndRender_rest url sel templateFn r p :
  let p' := fetchAndRender url sel templateFn r p in
  elements p' = elements p /\ bodyDir p' = bodyDir p /\
  langButtons p' = langButtons p /\ localStorage p' = localStorage p /\
  currentLang p' = currentLang p.
Proof.
  cbv zeta. unfold fetchAndRender, settle.
  destruct (containers p !! sel); [|auto].
  destruct r as [| |data]; simpl; auto.
  destruct (render templateFn data); simpl; auto.
Qed.

End Rendering.

(** A resource whose first collection is a non-empty list of entries the
    template accepts fills the container with the rendered entries, in
    their order and in place of what was there; one request, no error
    logged. *)
Theorem fetch_renders_entries_in_order
        (url sel : string) (templateFn : Script.json -> option string)
        (data : Script.json) (items : list Script.json) (htmls : list string)
        (p : Script.page) :
  is_Some (Script.containers p !! sel) ->
  Script.firstValue data = Some (Some (Script.JArray items)) ->
  items <> [] ->
  Forall2 (fun item html => templateFn item = Some html) items htmls ->
  let p' := Script.fetchAndRender url sel templateFn (Script.Json data) p in
  Script.containers p' !! sel = Some (Script.join htmls) /\
  Script.trace p' = (Script.trace p ++ [Script.Fetched url])%list.
Proof.
  intros [old Hc] Hfirst Hne Hall p'. subst p'.
  unfold Script.fetchAndRender, Script.settle, Script.render. rewrite Hc, Hfirst.
  destruct items as [|item rest]; [contradiction|].
  rewrite (mapTemplate_all _ _ _ Hall). simpl.
  split; [apply lookup_insert_eq | reflexivity].
Qed.

Lemma fetch_renders_entries_in_order_witness :
  let data := Script.JObject
                [("news", Script.JArray [Script.JString "Lab day"; Script.JString "Fair"])] in
  let p' := Script.fetchAndRender "data/news.json" "#news-list" Props.paragraph
              (Script.Json data) (Examples.visit Examples.emptyStore) in
  Script.containers p' !! "#news-list" = Some "<p>Lab day</p><p>Fair</p>" /\
  Script.trace p' = [Script.Fetched "data/news.json"].
Proof.
  apply (fetch_renders_entries_in_order "data/news.json" "#news-list" Props.paragraph
           _ [Script.JString "Lab day"; Script.JString "Fair"]
           ["<p>Lab day</p>"; "<p>Fair</p>"]).
  - eexists. reflexivity.
  - reflexivity.
  - discriminate.
  - repeat constructor.
Defined.

(** A body that parses to [null], or an entry on which the template
    raises, ends exactly like a failed request: the placeholder in the
    container and the error on the console, nothing of the entries that
    did render. *)
Theorem fetch_callback_error_is_failure
        (url sel : string) (templateFn : Script.json -> option string)
        (data : Script.json) (p : Script.page) :
  data = Script.JNull \/
  (exists items, Script.firstValue data = Some (Some (Script.JArray items)) /\
                 Exists (fun item => templateFn item = None) items) ->
  Script.fetchAndRender url sel templateFn (Script.Json data) p
  = Script.fetchAndRender url sel templateFn Script.NetworkError p.
Proof.
  intros H. assert (Hr : Script.render templateFn data = None).
  { destruct H as [-> | (items & Hfirst & Hex)]; [reflexivity|].
    unfold Script.render. rewrite Hfirst.
    destruct items as [|item rest]; [inversion Hex|].
    rewrite (mapTemplate_raises _ _ Hex). reflexivity. }
  unfold Script.fetchAndRender, Script.settle. rewrite Hr. reflexivity.
Qed.

Lemma fetch_callback_error_is_failure_witness :
  Script.fetchAndRender "data/news.json" "#news-list" Props.paragraph
    (Script.Json (Script.JArray [Script.JArray [Script.JString "Lab day"; Script.JNull]]))
    (Examples.visit Examples.emptyStore)
  = Script.fetchAndRender "data/news.json" "#news-list" Props.paragraph
      Script.NetworkError (Examples.visit Examples.emptyStore).
Proof.
  apply fetch_callback_error_is_failure. right.
  exists [Script.JString "Lab day"; Script.JNull]. split; [reflexivity|].
  right. left. reflexivity.
Defined.

(** A resource that parses but whose first value is no list of entries
    (no value at all, an empty list, a text, a number) shows the fixed
    "no entries" line, and nothing is logged as an error. *)
Theorem fetch_without_entries_says_so
        (url sel : string) (templateFn : Script.json -> option string)
        (data : Script.json) (p : Script.page) :
  is_Some (Script.containers p !! sel) ->
  data <> Script.JNull ->
  (forall item rest,
     Script.firstValue data <> Some (Some (Script.JArray (item :: rest)))) ->
  let p' := Script.fetchAndRender url sel templateFn (Script.Json data) p in
  Script.containers p' !! sel = Some "<p>No entries available.</p>" /\
  Script.trace p' = (Script.trace p ++ [Script.Fetched url])%list.
Proof.
  intros [old Hc] Hnull Hfirst p'. subst p'.
  assert (Hr : Script.render templateFn data = Some Script.noEntries).
  { unfold Script.render.
    destruct (Script.firstValue data) as [[[| | | |[|item rest]|]|]|] eqn:Hf;
      try reflexivity.
    - exfalso. eapply Hfirst. reflexivity.
    - destruct data as [| | | [|]| |]; simpl in Hf; try discriminate. congruence. }
  unfold Script.fetchAndRender, Script.settle. rewrite Hc, Hr. simpl.
  split; [apply lookup_insert_eq | reflexivity].
Qed.

Lemma fetch_without_entries_says_so_witness :
  Script.containers
    (Script.fetchAndRender "data/events.json" "#events-list" Props.paragraph
       (Script.Json (Script.JObject [("events", Script.JArray [])]))
       (Examples.visit Examples.emptyStore)) !! "#events-list"
  = Some "<p>No entries available.</p>".
Proof.
  refine (proj1 (fetch_without_entries_says_so "data/events.json" "#events-list"
                   Props.paragraph (Script.JObject [("events", Script.JArray [])])
                   (Examples.visit Examples.emptyStore) _ _ _)).
  - eexists. reflexivity.
  - discriminate.
  - intros item rest. discriminate.
Defined.

(** Two loads into different containers may settle in either order: the
    containers, and the rest of the page but the order of the log, come
    out the same. *)
Theorem fetch_order_is_irrelevant
        (url1 sel1 url2 sel2 : string) (t1 t2 : Script.json -> option string)
        (r1 r2 : Script.response) (p : Script.page) :
  sel1 <> sel2 ->
  let a := Script.fetchAndRender url2 sel2 t2 r2
             (Script.fetchAndRender url1 sel1 t1 r1 p) in
  let b := Script.fetchAndRender url1 sel1 t1 r1
             (Script.fetchAndRender url2 sel2 t2 r2 p) in
  Script.containers a = Script.containers b /\
  Script.elements a = Script.elements b /\
  Script.bodyDir a = Script.bodyDir b /\
  Script.langButtons a = Script.langButtons b /\
  Script.localStorage a = Script.localStorage b /\
  Script.currentLang a = Script.currentLang b.
Proof.
  intros Hne a b. subst a b. split.
  - rewrite !fetchAndRender_containers.
    destruct (Script.containers p !! sel1) as [c1|] eqn:H1,
             (Script.containers p !! sel2) as [c2|] eqn:H2;
      rewrite ?lookup_insert_ne by congruence; rewrite ?H1, ?H2; try reflexivity.
    apply map_eq. intros k. rewrite !lookup_insert.
    repeat case_decide; subst; congruence.
  - destruct (fetchAndRender_rest url2 sel2 t2 r2
                (Script.fetchAndRender url1 sel1 t1 r1 p)) as (-> & -> & -> & -> & ->).
    destruct (fetchAndRender_rest url1 sel1 t1 r1
                (Script.fetchAndRender url2 sel2 t2 r2 p)) as (-> & -> & -> & -> & ->).
    destruct (fetchAndRender_rest url1 sel1 t1 r1 p) as (-> & -> & -> & -> & ->).
    destruct (fetchAndRender_rest url2 sel2 t2 r2 p) as (-> & -> & -> & -> & ->).
    auto.
Qed.

Lemma fetch_order_is_irrelevant_witness :
  let p := Examples.visit Examples.emptyStore in
  Script.containers
    (Script.fetchAndRender "data/events.json" "#events-list" Props.paragraph
       Script.NotJson
       (Script.fetchAndRender "data/news.json" "#news-list" Props.paragraph
          (Script.Json (Script.JArray [])) p))
  = Script.containers
      (Script.fetchAndRender "data/news.json" "#news-list" Props.paragraph
         (Script.Json (Script.JArray []))
         (Script.fetchAndRender "data/events.json" "#events-list" Props.paragraph
            Script.NotJson p)).
Proof.
  apply (fetch_order_is_irrelevant "data/news.json" "#news-list"
           "data/events.json" "#events-list"). discriminate.
Defined.

(** ** Translations in script.js *)

Section Retranslate.
Import Js Script Props.

Lemma highlight_idempotent lang btn :
  highlight lang (highlight lang btn) = highlight lang btn.
Proof.
  unfold highlight. simpl.
  destruct (bool_decide (buttonAttrs btn !! "data-lang" = Some lang)); f_equal;
    apply set_eq; intros x; rewrite ?elem_of_union, ?elem_of_difference; tauto.
Qed.

Lemma setItem_again k v st st' :
  setItem k v st = Some st' -> setItem k v st' = Some st'.
Proof.
  unfold setItem. destruct (writable st) eqn:Hw; [|discriminate].
  intros [= <-]. simpl. rewrite insert_insert_eq. reflexivity.
Qed.

End Retranslate.

(** Applying in script.js the language that was just applied leaves the
    page as it is: texts, placeholders, direction, highlighted button,
    stored preference and marker (only the log grows); this whatever the
    language, and also when the call raises, in a loop or at the write. *)
Theorem applyTranslations_again_changes_nothing
        (proto : Js.prototype) (lang : string) (p : Script.page) :
  let p1 := Js.state_of (Script.applyTranslations proto lang p) in
  let p2 := Js.state_of (Script.applyTranslations proto lang p1) in
  Script.elements p2 = Script.elements p1 /\
  Script.bodyDir p2 = Script.bodyDir p1 /\
  Script.langButtons p2 = Script.langButtons p1 /\
  Script.localStorage p2 = Script.localStorage p1 /\
  Script.currentLang p2 = Script.currentLang p1 /\
  Script.containers p2 = Script.containers p1.
Proof.
  cbv zeta.
  destruct (applyTranslations_state proto lang
              (Js.state_of (Script.applyTranslations proto lang p)))
    as (He2 & Hc2 & _ & Hret2 & Hthrow2).
  destruct (applyTranslations_state proto lang p) as (He1 & Hc1 & _ & Hret1 & Hthrow1).
  rewrite He1 in He2, Hret2, Hthrow2.
  rewrite translateAll_again in He2, Hret2, Hthrow2.
  rewrite He2, He1, Hc2, Hc1.
  destruct (Js.returns (Script.translateAll proto (Script.dictionary proto lang)
                          (Script.elements p))) eqn:Hr.
  - destruct (Hret1 eq_refl) as (Hd1 & Hb1 & Hs1 & Hm1 & _).
    destruct (Hret2 eq_refl) as (Hd2 & Hb2 & Hs2 & Hm2 & _).
    rewrite Hd2, Hb2, Hs2, Hm2, Hd1, Hb1, Hs1, Hm1.
    split; [reflexivity|]. split; [reflexivity|].
    split; [|split; [|split]].
    + rewrite List.map_map. apply List.map_ext, highlight_idempotent.
    + destruct (Js.setItem Script.preferenceKey lang (Script.localStorage p))
        as [st|] eqn:Hs;
        simpl; [rewrite (setItem_again _ _ _ _ Hs) | rewrite Hs]; reflexivity.
    + unfold Js.setItem.
      destruct (Js.writable (Script.localStorage p)) eqn:Hw; simpl; rewrite ?Hw;
        reflexivity.
    + reflexivity.
  - destruct (Hthrow1 eq_refl) as (Hd1 & Hb1 & Hs1 & Hm1 & _).
    destruct (Hthrow2 eq_refl) as (Hd2 & Hb2 & Hs2 & Hm2 & _).
    rewrite Hd2, Hb2, Hs2, Hm2. repeat split.
Qed.

(** Round trip of the preference in script.js: once a switch to a
    non-empty code has returned, any page loaded on the store it left
    applies that code. *)
Theorem script_preference_survives_reload
        (proto : Js.prototype) (lang : string) (p q : Script.page) :
  lang <> "" ->
  Js.returns (Script.applyTranslations proto lang p) = true ->
  Js.readable (Script.localStorage p) = true ->
  Script.localStorage q
  = Script.localStorage (Js.state_of (Script.applyTranslations proto lang p)) ->
  Script.initLanguageSwitcher proto q = Script.applyTranslations proto lang q.
Proof.
  intros Hne Hret Hread Hq.
  destruct (applyTranslations_marker proto lang p Hret) as [_ Hst].
  unfold Script.initLanguageSwitcher. rewrite Hq, Hst.
  unfold Js.getItem. cbn. rewrite Hread, lookup_insert_eq.
  unfold Js.or_else. cbn. unfold Js.truthy.
  destruct (String.eqb_spec lang ""); [contradiction | reflexivity].
Qed.

Lemma script_preference_survives_reload_witness :
  let stored := Script.localStorage
                  (Js.state_of (Script.applyTranslations Examples.objectPrototype "ar"
                                  (Examples.visit Examples.emptyStore))) in
  Script.initLanguageSwitcher Examples.objectPrototype (Examples.visit stored)
  = Script.applyTranslations Examples.objectPrototype "ar" (Examples.visit stored).
Proof.
  apply (script_preference_survives_reload Examples.objectPrototype "ar"
           (Examples.visit Examples.emptyStore));
    [discriminate | vm_compute; reflexivity | reflexivity | reflexivity].
Defined.

(** A code under which [translations] has nothing that counts as true,
    neither a catalog nor anything inherited, is shown as English, left to
    right, and yet, when the call returns, stored and marked as it was
    given.  A code that names something inherited, a method of
    [Object.prototype] for one, is not: no catalog is used at all, and a
    node whose key the inherited value knows nothing of keeps its text. *)
Theorem unknown_code_shows_english
        (proto : Js.prototype) (lang : string) (p : Script.page) :
  lang <> "en" -> lang <> "ar" ->
  let r := Script.applyTranslations proto lang p in
  let e := Script.applyTranslations proto "en" p in
  (Js.toBoolean (proto lang) = false ->
   Script.elements (Js.state_of r) = Script.elements (Js.state_of e) /\
   Script.bodyDir (Js.state_of r) = Some "ltr" /\
   (Js.returns r = true ->
    Script.currentLang (Js.state_of r) = Some lang /\
    Js.items (Script.localStorage (Js.state_of r)) !! Script.preferenceKey = Some lang)) /\
  (Js.toBoolean (proto lang) = true ->
   forall i el key,
     Script.elements p !! i = Some el ->
     Script.attrs el !! "data-i18n" = Some key ->
     Js.get (proto lang) key = Some Js.Undefined ->
     exists el',
       Script.elements (Js.state_of r) !! i = Some el' /\
       Script.textContent el' = Script.textContent el).
Proof.
  intros Hen Har r e. subst r e. split.
  - intros Hf.
    pose proof (dictionary_fallback proto lang Hen Har Hf) as Hd.
    destruct (dictionary_supported proto "en" (or_introl eq_refl)) as (c & _ & Hc).
    rewrite Hc in Hd.
    split; [|split].
    + rewrite (applyTranslations_elements proto lang c p Hd).
      rewrite (applyTranslations_elements proto "en" c p Hc). reflexivity.
    + rewrite (script_applyTranslations_direction proto lang c p Hd).
      unfold Spec.direction.
      destruct (String.eqb_spec lang "ar"); [contradiction | reflexivity].
    + intros Hr. destruct (applyTranslations_marker proto lang p Hr) as [-> ->].
      split; [reflexivity | apply lookup_insert_eq].
  - intros Ht i el key Hi Hk Hget.
    destruct (applyTranslations_state proto lang p) as (He & _).
    rewrite He. clear He.
    assert (Hd : Script.dictionary proto lang = Js.Inherited (proto lang)).
    { unfold Script.dictionary, Js.lookup.
      rewrite (translations_unknown lang Hen Har), Ht. reflexivity. }
    rewrite Hd.
    assert (Hkeep : forall (f : Script.element -> option Script.element) els,
               (forall x y, f x = Some y ->
                            Script.attrs y !! "data-i18n" = Script.attrs x !! "data-i18n" /\
                            (Script.attrs x !! "data-i18n" = Some key ->
                             Script.textContent y = Script.textContent x)) ->
               forall j x,
                 els !! j = Some x ->
                 Script.attrs x !! "data-i18n" = Some key ->
                 exists y, Js.state_of (Js.forEach f els) !! j = Some y /\
                           Script.attrs y !! "data-i18n" = Some key /\
                           Script.textContent y = Script.textContent x).
    { intros f els Hf. induction els as [|z els IH]; intros j x Hj Hx; [discriminate|].
      simpl. destruct (f z) as [y|] eqn:Hz.
      - destruct j as [|j]; simpl in Hj.
        + injection Hj as ->. destruct (Hf x y Hz) as [Ha Htext].
          exists y. destruct (Js.forEach f els); simpl;
            (split; [reflexivity|]); (split; [congruence | auto]).
        + destruct (IH j x Hj Hx) as (y' & Hy' & Hrest).
          exists y'. destruct (Js.forEach f els); simpl in *; auto.
      - simpl. exists x. auto. }
    unfold Script.translateAll.
    destruct (Hkeep (Script.updateText proto (Js.Inherited (proto lang)))
                (Script.elements p)) with (j := i) (x := el)
      as (y & Hy & Hyk & Hyt); [| exact Hi | exact Hk |].
    { intros x x' Hx. split.
      - rewrite (updateText_attrs proto (Js.Inherited (proto lang)) x x' Hx). reflexivity.
      - intros Hxk. unfold Script.updateText in Hx. rewrite Hxk in Hx.
        simpl in Hx. rewrite Hget in Hx. simpl in Hx. congruence. }
    destruct (Js.forEach (Script.updateText proto (Js.Inherited (proto lang)))
                (Script.elements p)) as [els1|els1]; simpl in Hy.
    + destruct (Hkeep (Script.updatePlaceholder proto (Js.Inherited (proto lang))) els1)
        with (j := i) (x := y) as (z & Hz & _ & Hzt); [| exact Hy | exact Hyk |].
      { intros x x' Hx. split.
        - apply (updatePlaceholder_key proto (Js.Inherited (proto lang)) x x');
            [discriminate | exact Hx].
        - intros _. apply (updatePlaceholder_text proto (Js.Inherited (proto lang)) x x' Hx). }
      exists z. split; [exact Hz | congruence].
    + exists y. split; [exact Hy | exact Hyt].
Qed.

Lemma unknown_code_shows_english_witness :
  Script.elements (Js.state_of (Script.applyTranslations Examples.objectPrototype "fr"
                                  (Examples.visit Examples.emptyStore)))
  = Script.elements (Js.state_of (Script.applyTranslations Examples.objectPrototype "en"
                                    (Examples.visit Examples.emptyStore))) /\
  Script.currentLang (Js.state_of (Script.applyTranslations Examples.objectPrototype "fr"
                                     (Examples.visit Examples.emptyStore)))
  = Some "fr" /\
  exists el',
    Script.elements (Js.state_of (Script.applyTranslations Examples.objectPrototype
                                    "toString" (Examples.visit Examples.emptyStore))) !! 0
    = Some el' /\
    Script.textContent el' = "Pharmacy Club".
Proof.
  destruct (unknown_code_shows_english Examples.objectPrototype "fr"
              (Examples.visit Examples.emptyStore))
    as [Hfalse _]; [discriminate | discriminate |].
  destruct (Hfalse eq_refl) as (He & _ & Hm).
  destruct (unknown_code_shows_english Examples.objectPrototype "toString"
              (Examples.visit Examples.emptyStore))
    as [_ Htrue]; [discriminate | discriminate |].
  split; [exact He|]. split; [apply Hm; vm_compute; reflexivity|].
  apply (Htrue eq_refl 0 (Examples.keyed "data-i18n" "heroTitle" "Pharmacy Club")
           "heroTitle"); reflexivity.
Defined.

(** The alert of the contact form speaks the language of the marker: the
    Arabic thanks once a switch to Arabic has returned, the English ones
    once a switch to English has, and also without a marker; and when a
    switch raised, the alert stays in the language it had. *)
Theorem contact_alert_follows_marker (proto : Js.prototype) :
  (forall p, Js.returns (Script.applyTranslations proto "ar" p) = true ->
             Script.alertMessage proto
               (Js.state_of (Script.applyTranslations proto "ar" p))
             = Some "شكرا لتواصلك مع نادي الصيدلة! سنعود إليك قريباً.") /\
  (forall p, Js.returns (Script.applyTranslations proto "en" p) = true ->
             Script.alertMessage proto
               (Js.state_of (Script.applyTranslations proto "en" p))
             = Some Script.defaultAlert) /\
  (forall p, Script.currentLang p = None ->
             Script.alertMessage proto p = Some Script.defaultAlert) /\
  (forall lang p, Js.returns (Script.applyTranslations proto lang p) = false ->
                  Script.alertMessage proto
                    (Js.state_of (Script.applyTranslations proto lang p))
                  = Script.alertMessage proto p).
Proof.
  split; [|split; [|split]].
  - intros p Hr. unfold Script.alertMessage.
    rewrite (script_applyTranslations_marker proto "ar" p Hr). vm_compute. reflexivity.
  - intros p Hr. unfold Script.alertMessage.
    rewrite (script_applyTranslations_marker proto "en" p Hr). vm_compute. reflexivity.
  - intros p Hc. unfold Script.alertMessage. rewrite Hc. vm_compute. reflexivity.
  - intros lang p Hr. unfold Script.alertMessage.
    destruct (applyTranslations_state proto lang p) as (_ & _ & _ & Hret & Hthrow).
    destruct (Js.returns (Script.translateAll proto (Script.dictionary proto lang)
                            (Script.elements p))) eqn:Ht.
    + destruct (Hret eq_refl) as (_ & _ & _ & Hm & Hw).
      rewrite Hr in Hw. rewrite Hm, <- Hw. reflexivity.
    + destruct (Hthrow eq_refl) as (_ & _ & _ & Hm & _). rewrite Hm. reflexivity.
Qed.

Lemma contact_alert_follows_marker_witness :
  Script.alertMessage Examples.objectPrototype
    (Js.state_of (Script.applyTranslations Examples.objectPrototype "ar"
                    (Examples.visit Examples.emptyStore)))
  = Some "شكرا لتواصلك مع نادي الصيدلة! سنعود إليك قريباً.".
Proof.
  apply (proj1 (contact_alert_follows_marker Examples.objectPrototype)).
  vm_compute. reflexivity.
Defined.

(** ** The gallery of script.js *)

Section Slides.
Import Js Script.Gallery.

Lemma isActive_true classes : isActive classes = true <-> "active" ∈ classes.
Proof. unfold isActive. apply bool_decide_eq_true. Qed.

(** Showing an image that exists. *)
Lemma moveTo_existing g j :
  (0 <= j < size g)%Z ->
  exists g', moveTo (Num j) g = Normal g' /\
             currentIndex g' = Num j /\
             size g' = size g /\
             Props.onlyActive j g'.
Proof.
  intros Hj. unfold moveTo, showImage. simpl.
  destruct (Z.ltb_spec j 0) as [|_]; [lia|].
  assert (Hlt : Z.to_nat j < length (images g)) by (unfold size in Hj; lia).
  destruct (lookup_lt_is_Some_2 (images g) _ Hlt) as [classes Hc].
  rewrite list_lookup_fmap, Hc. simpl.
  eexists. split; [reflexivity|]. split; [reflexivity|]. split.
  - unfold size. simpl. rewrite length_insert, length_map. reflexivity.
  - intros k cs. simpl. rewrite isActive_true.
    destruct (decide (k = Z.to_nat j)) as [-> | Hk].
    + rewrite list_lookup_insert_eq by (rewrite length_map; exact Hlt).
      intros [= <-]. split; [reflexivity|]. intros _.
      apply elem_of_union_l, elem_of_singleton. reflexivity.
    + rewrite list_lookup_insert_ne by congruence.
      rewrite list_lookup_fmap. destruct (images g !! k); [|discriminate].
      simpl. intros [= <-]. split; [|contradiction].
      intros [_ Hout]%elem_of_difference. exfalso.
      apply Hout, elem_of_singleton. reflexivity.
Qed.

Lemma prev_target g i :
  currentIndex g = Num i ->
  prev g = moveTo (Num (if Z.eqb i 0 then size g - 1 else i - 1)) g.
Proof. intros Hi. unfold prev. rewrite Hi. simpl. destruct (Z.eqb i 0); reflexivity. Qed.

Lemma next_target g i :
  currentIndex g = Num i ->
  next g = moveTo (Num (if Z.eqb i (size g - 1) then 0 else i + 1)) g.
Proof.
  intros Hi. unfold next. rewrite Hi. simpl. destruct (Z.eqb i (size g - 1)); reflexivity.
Qed.

Lemma autoplay_is_next g i :
  currentIndex g = Num i -> (0 <= i < size g)%Z -> autoplay g = next g.
Proof.
  intros Hi Hr. rewrite (next_target g i Hi). unfold autoplay. rewrite Hi.
  destruct (rem_in_range (i + 1) (size g)) as [Hrem _]; [lia | lia |].
  simpl add. rewrite Hrem. f_equal. f_equal.
  destruct (Z.eqb_spec i (size g - 1)) as [-> | Hne].
  - replace (size g - 1 + 1)%Z with (size g) by lia. apply Z_mod_same_full.
  - apply Z.mod_small. lia.
Qed.

End Slides.

(** With at least one image and the cursor on one of them, a click on
    prev or next returns with the cursor on the neighbouring image,
    wrapping at the ends, and with that image as the only active one. *)
Theorem script_gallery_shows_one_image (g : Script.Gallery.slides) (i : Z) :
  Script.Gallery.currentIndex g = Js.Num i ->
  (0 <= i < Script.Gallery.size g)%Z ->
  (exists g', Script.Gallery.next g = Js.Normal g' /\
              Script.Gallery.currentIndex g'
              = Js.Num ((i + 1) mod Script.Gallery.size g) /\
              Script.Gallery.size g' = Script.Gallery.size g /\
              Props.onlyActive ((i + 1) mod Script.Gallery.size g) g') /\
  (exists g', Script.Gallery.prev g = Js.Normal g' /\
              Script.Gallery.currentIndex g'
              = Js.Num ((i - 1) mod Script.Gallery.size g) /\
              Script.Gallery.size g' = Script.Gallery.size g /\
              Props.onlyActive ((i - 1) mod Script.Gallery.size g) g').
Proof.
  intros Hi Hr. split.
  - rewrite (next_target g i Hi).
    replace ((i + 1) mod Script.Gallery.size g)%Z
      with (if Z.eqb i (Script.Gallery.size g - 1) then 0 else i + 1)%Z.
    + apply moveTo_existing. destruct (Z.eqb_spec i (Script.Gallery.size g - 1)); lia.
    + destruct (Z.eqb_spec i (Script.Gallery.size g - 1)) as [-> | Hne].
      * replace (Script.Gallery.size g - 1 + 1)%Z with (Script.Gallery.size g) by lia.
        symmetry. apply Z_mod_same_full.
      * symmetry. apply Z.mod_small. lia.
  - rewrite (prev_target g i Hi).
    replace ((i - 1) mod Script.Gallery.size g)%Z
      with (if Z.eqb i 0 then Script.Gallery.size g - 1 else i - 1)%Z.
    + apply moveTo_existing. destruct (Z.eqb_spec i 0); lia.
    + destruct (Z.eqb_spec i 0) as [-> | Hne].
      * symmetry. replace (0 - 1)%Z with (Script.Gallery.size g - 1 + -1 * Script.Gallery.size g)%Z by lia.
        rewrite Z.mod_add by lia. apply Z.mod_small. lia.
      * symmetry. apply Z.mod_small. lia.
Qed.

Lemma script_gallery_shows_one_image_witness :
  exists g', Script.Gallery.prev Samples.threeSlides = Js.Normal g' /\
             Script.Gallery.currentIndex g' = Js.Num 2 /\
             Props.onlyActive 2 g'.
Proof.
  destruct (script_gallery_shows_one_image Samples.threeSlides 0)
    as (_ & g' & Hp & Hi & _ & Ha); [reflexivity | vm_compute; split; congruence |].
  exists g'. split; [exact Hp|]. split; [exact Hi | exact Ha].
Defined.

(** In that situation the autoplay timer does what a click on next does,
    and prev and next undo each other. *)
Theorem script_gallery_moves_compose (g : Script.Gallery.slides) (i : Z) :
  Script.Gallery.currentIndex g = Js.Num i ->
  (0 <= i < Script.Gallery.size g)%Z ->
  Script.Gallery.autoplay g = Script.Gallery.next g /\
  Script.Gallery.currentIndex
    (Js.state_of (Script.Gallery.prev (Js.state_of (Script.Gallery.next g)))) = Js.Num i /\
  Script.Gallery.currentIndex
    (Js.state_of (Script.Gallery.next (Js.state_of (Script.Gallery.prev g)))) = Js.Num i.
Proof.
  intros Hi Hr. split; [apply (autoplay_is_next g i Hi Hr)|].
  set (N := Script.Gallery.size g) in *.
  split.
  - rewrite (next_target g i Hi). fold N.
    set (j := if Z.eqb i (N - 1) then 0%Z else (i + 1)%Z).
    assert (Hj : (0 <= j < N)%Z) by (subst j; destruct (Z.eqb_spec i (N - 1)); lia).
    destruct (moveTo_existing g j Hj) as (g1 & -> & Hi1 & Hs1 & _). simpl.
    rewrite (prev_target g1 j Hi1), Hs1. fold N.
    set (k := if Z.eqb j 0 then (N - 1)%Z else (j - 1)%Z).
    assert (Hk : k = i).
    { subst k j. destruct (Z.eqb_spec i (N - 1)); simpl.
      - lia.
      - destruct (Z.eqb_spec (i + 1) 0); lia. }
    rewrite Hk.
    destruct (moveTo_existing g1 i) as (g2 & -> & Hi2 & _); [rewrite Hs1; exact Hr|].
    exact Hi2.
  - rewrite (prev_target g i Hi). fold N.
    set (j := if Z.eqb i 0 then (N - 1)%Z else (i - 1)%Z).
    assert (Hj : (0 <= j < N)%Z) by (subst j; destruct (Z.eqb_spec i 0); lia).
    destruct (moveTo_existing g j Hj) as (g1 & -> & Hi1 & Hs1 & _). simpl.
    rewrite (next_target g1 j Hi1), Hs1. fold N.
    set (k := if Z.eqb j (N - 1) then 0%Z else (j + 1)%Z).
    assert (Hk : k = i).
    { subst k j. destruct (Z.eqb_spec i 0); simpl.
      - destruct (Z.eqb_spec (N - 1) (N - 1)); lia.
      - destruct (Z.eqb_spec (i - 1) (N - 1)); lia. }
    rewrite Hk.
    destruct (moveTo_existing g1 i) as (g2 & -> & Hi2 & _); [rewrite Hs1; exact Hr|].
    exact Hi2.
Qed.

Lemma script_gallery_moves_compose_witness :
  Script.Gallery.autoplay Samples.threeSlides = Script.Gallery.next Samples.threeSlides /\
  Script.Gallery.currentIndex
    (Js.state_of (Script.Gallery.prev
                    (Js.state_of (Script.Gallery.next Samples.threeSlides)))) = Js.Num 0.
Proof.
  destruct (script_gallery_moves_compose Samples.threeSlides 0) as (Ha & Hb & _);
    [reflexivity | vm_compute; split; congruence |].
  split; [exact Ha | exact Hb].
Defined.

(** A gallery without images: every click on prev or next and every
    tick of the autoplay raises, whatever the cursor. *)
Theorem script_gallery_without_images_raises (g : Script.Gallery.slides) :
  Script.Gallery.images g = [] ->
  Js.returns (Script.Gallery.prev g) = false /\
  Js.returns (Script.Gallery.next g) = false /\
  Js.returns (Script.Gallery.autoplay g) = false.
Proof.
  intros He.
  assert (H : forall index, Js.returns (Script.Gallery.moveTo index g) = false).
  { intros index. unfold Script.Gallery.moveTo, Script.Gallery.showImage. simpl.
    rewrite He. destruct index as [z|]; [|reflexivity].
    destruct (Z.ltb z 0); reflexivity. }
  unfold Script.Gallery.prev, Script.Gallery.next, Script.Gallery.autoplay. auto.
Qed.

Lemma script_gallery_without_images_raises_witness :
  Js.returns (Script.Gallery.autoplay
                {| Script.Gallery.images := []; Script.Gallery.currentIndex := Js.Num 0 |})
  = false.
Proof.
  apply (script_gallery_without_images_raises
           {| Script.Gallery.images := []; Script.Gallery.currentIndex := Js.Num 0 |}).
  reflexivity.
Defined.

(** ** Highlighting by intersection in script.js *)

Section Observer.
Import Js Script.Navigation Props.

Lemma isActive_deactivate link : isActive (deactivate link) = false.
Proof.
  unfold isActive, deactivate. simpl. apply bool_decide_eq_false.
  intros [_ Hout]%elem_of_difference. apply Hout, elem_of_singleton. reflexivity.
Qed.

Lemma activeLinks_cleared links : activeLinks (map deactivate links) = 0.
Proof.
  unfold activeLinks. induction links as [|link links IH]; [reflexivity|].
  simpl. rewrite isActive_deactivate. exact IH.
Qed.

Lemma activeLinks_alter f i links :
  activeLinks (alter f i links) <= S (activeLinks links).
Proof.
  unfold activeLinks. revert i. induction links as [|link links IH]; intros i.
  - simpl. lia.
  - destruct i as [|i].
    + change (alter f 0 (link :: links)) with (f link :: links).
      cbn [List.filter]. destruct (isActive (f link)), (isActive link); cbn [length]; lia.
    + change (alter f (S i) (link :: links)) with (link :: alter f i links).
      specialize (IH i). cbn [List.filter].
      destruct (isActive link); cbn [length]; lia.
Qed.

Lemma observeEntry_intersecting links e :
  isIntersecting e = true -> activeLinks (observeEntry links e) <= 1.
Proof.
  intros He. unfold observeEntry. rewrite He.
  pose proof (activeLinks_cleared links) as Hc.
  destruct (indexOf links (entryTarget e)) as [i|].
  - pose proof (activeLinks_alter activate i (map deactivate links)). lia.
  - lia.
Qed.

Lemma observeEntry_keeps_one links e :
  activeLinks links <= 1 -> activeLinks (observeEntry links e) <= 1.
Proof.
  intros H. destruct (isIntersecting e) eqn:He.
  - apply observeEntry_intersecting, He.
  - unfold observeEntry. rewrite He. exact H.
Qed.

Lemma observe_keeps_one entries : forall links,
  activeLinks links <= 1 -> activeLinks (observe entries links) <= 1.
Proof.
  unfold observe. induction entries as [|e entries IH]; intros links H; simpl.
  - exact H.
  - apply IH, observeEntry_keeps_one, H.
Qed.

Lemma observeEntry_targets links e :
  map target (observeEntry links e) = map target links.
Proof.
  unfold observeEntry. destruct (isIntersecting e); [|reflexivity].
  assert (Hc : map target (map deactivate links) = map target links).
  { rewrite List.map_map. apply List.map_ext. reflexivity. }
  destruct (indexOf links (entryTarget e)) as [i|]; [|exact Hc].
  rewrite <- Hc. generalize (map deactivate links). clear.
  intros l. revert i. induction l as [|x l IH]; intros [|i]; simpl; try reflexivity.
  f_equal. apply IH.
Qed.

End Observer.

(** After a callback of the observer that reports at least one section
    as intersecting, at most one link is active, however many were
    before; a callback that reports none changes nothing; and no
    callback changes where the links point. *)
Theorem observer_marks_at_most_one_link
        (entries : list Script.Navigation.entry)
        (links : list Script.Navigation.navLink) :
  (Exists (fun e => Script.Navigation.isIntersecting e = true) entries ->
   Props.activeLinks (Script.Navigation.observe entries links) <= 1) /\
  (Forall (fun e => Script.Navigation.isIntersecting e = false) entries ->
   Script.Navigation.observe entries links = links) /\
  map Script.Navigation.target (Script.Navigation.observe entries links)
  = map Script.Navigation.target links.
Proof.
  split; [|split].
  - intros Hex. revert links. unfold Script.Navigation.observe.
    induction Hex as [e rest He | e rest _ IH]; intros links; simpl.
    + apply (observe_keeps_one rest), observeEntry_intersecting, He.
    + apply IH.
  - intros Hall. revert links. unfold Script.Navigation.observe.
    induction Hall as [|e rest He _ IH]; intros links; simpl; [reflexivity|].
    unfold Script.Navigation.observeEntry at 2. rewrite He. apply IH.
  - revert links. unfold Script.Navigation.observe.
    induction entries as [|e rest IH]; intros links; simpl; [reflexivity|].
    rewrite IH. apply observeEntry_targets.
Qed.

Lemma observer_marks_at_most_one_link_witness :
  Props.activeLinks
    (Script.Navigation.observe
       [ {| Script.Navigation.entryTarget := 10; Script.Navigation.isIntersecting := false |};
         {| Script.Navigation.entryTarget := 30; Script.Navigation.isIntersecting := true |} ]
       Samples.threeLinks) <= 1.
Proof.
  apply (proj1 (observer_marks_at_most_one_link _ Samples.threeLinks)).
  right. left. reflexivity.
Defined.

(** * Further properties of app.js, continued *)

(** ** Highlighting the navigation while scrolling *)

Section Scrolling.
Import Js App.Highlight Props.

Lemma isActive_mark cur link :
  isActive (mark cur link) = true <-> href link = Some ("#" ++ cur).
Proof.
  unfold isActive, mark. simpl. rewrite bool_decide_eq_true.
  destruct (bool_decide (href link = Some ("#" ++ cur))) eqn:Hb.
  - apply bool_decide_eq_true in Hb. split; [auto|]. intros _.
    apply elem_of_union_l, elem_of_singleton. reflexivity.
  - apply bool_decide_eq_false in Hb. split; [|contradiction].
    intros [_ Hout]%elem_of_difference. exfalso.
    apply Hout, elem_of_singleton. reflexivity.
Qed.

Lemma lastHolding_none pos sections cur :
  Forall (fun sec => holds pos sec = false) sections ->
  lastHolding pos sections cur = cur.
Proof.
  intros H. revert cur. induction H as [|sec rest Hs _ IH]; intros cur; simpl.
  - reflexivity.
  - rewrite Hs. apply IH.
Qed.

Lemma lastHolding_last pos before sec after cur :
  holds pos sec = true ->
  Forall (fun s => holds pos s = false) after ->
  lastHolding pos (before ++ sec :: after) cur = sectionId sec.
Proof.
  intros Hs Hafter. revert cur. induction before as [|b before IH]; intros cur; simpl.
  - rewrite Hs. apply lastHolding_none, Hafter.
  - apply IH.
Qed.

Lemma matching_links_unique (target : option string) links :
  NoDup (map href links) ->
  length (List.filter (fun l => bool_decide (href l = target)) links) <= 1.
Proof.
  induction links as [|link links IH]; simpl; [lia|].
  intros Hnd. apply NoDup_cons in Hnd as [Hnotin Hnd]. specialize (IH Hnd).
  destruct (bool_decide (href link = target)) eqn:Hb; [|exact IH].
  apply bool_decide_eq_true in Hb. simpl.
  assert (Hz : List.filter (fun l => bool_decide (href l = target)) links = []).
  { clear IH Hnd. induction links as [|l links IHl]; [reflexivity|]. simpl.
    destruct (bool_decide (href l = target)) eqn:Hl.
    - apply bool_decide_eq_true in Hl. exfalso. apply Hnotin.
      simpl. rewrite Hb, Hl. apply list_elem_of_here.
    - apply IHl. intros Hin. apply Hnotin. simpl. apply list_elem_of_further, Hin. }
  rewrite Hz. simpl. lia.
Qed.

Lemma activeNav_marked cur links :
  activeNav (map (mark cur) links)
  = length (List.filter (fun l => bool_decide (href l = Some ("#" ++ cur))) links).
Proof.
  unfold activeNav. induction links as [|link links IH]; [reflexivity|]. simpl.
  destruct (bool_decide (href link = Some ("#" ++ cur))) eqn:Hb.
  - apply bool_decide_eq_true in Hb. apply isActive_mark in Hb. rewrite Hb.
    simpl. rewrite IH. reflexivity.
  - apply bool_decide_eq_false in Hb.
    destruct (isActive (mark cur link)) eqn:Ha.
    + apply isActive_mark in Ha. contradiction.
    + exact IH.
Qed.

End Scrolling.

(** On a scroll event the links keep their targets; the links made
    active are those to the last section, in document order, whose box
    holds the scroll offset plus 150 (the sum as the double it is
    rounded to), whatever was active before; when no
    section holds it, they are the links whose target is a bare [#]; and
    links with distinct targets leave at most one link active. *)
Theorem scroll_highlights_last_holding_section
        (scrollY : PrimFloat.float) (sections : list App.Highlight.section)
        (links : list App.Highlight.navLink) :
  let position := PrimFloat.add scrollY (Js.ofLong 150) in
  let links' := App.Highlight.updateActiveNavigation scrollY sections links in
  map App.Highlight.href links' = map App.Highlight.href links /\
  (forall before sec after i link,
     sections = (before ++ sec :: after)%list ->
     App.Highlight.holds position sec = true ->
     Forall (fun s => App.Highlight.holds position s = false) after ->
     links' !! i = Some link ->
     (App.Highlight.isActive link = true
      <-> App.Highlight.href link = Some ("#" ++ App.Highlight.sectionId sec))) /\
  (forall i link,
     Forall (fun s => App.Highlight.holds position s = false) sections ->
     links' !! i = Some link ->
     (App.Highlight.isActive link = true <-> App.Highlight.href link = Some "#")) /\
  (NoDup (map App.Highlight.href links) -> Props.activeNav links' <= 1).
Proof.
  cbv zeta. unfold App.Highlight.updateActiveNavigation.
  split; [|split; [|split]].
  - rewrite List.map_map. apply List.map_ext. reflexivity.
  - intros before sec after i link -> Hs Hafter.
    rewrite (lastHolding_last _ before sec after "" Hs Hafter).
    rewrite list_lookup_fmap.
    destruct (links !! i) as [l|]; [|discriminate]. simpl. intros [= <-].
    exact (isActive_mark (App.Highlight.sectionId sec) l).
  - intros i link Hnone. rewrite (lastHolding_none _ _ "" Hnone).
    rewrite list_lookup_fmap.
    destruct (links !! i) as [l|]; [|discriminate]. simpl. intros [= <-].
    exact (isActive_mark "" l).
  - intros Hnd. rewrite activeNav_marked. apply matching_links_unique, Hnd.
Qed.

Lemma scroll_highlights_last_holding_section_witness :
  Props.activeNav
    (App.Highlight.updateActiveNavigation (Js.ofLong 500)
       Samples.threeSections Samples.sectionLinks) <= 1.
Proof.
  apply (scroll_highlights_last_holding_section (Js.ofLong 500)
           Samples.threeSections Samples.sectionLinks).
  repeat constructor; rewrite ?elem_of_cons, ?elem_of_nil; intuition discriminate.
Defined.

(** Half a pixel matters, and so does rounding: scrolled by half a pixel
    the page is still in the first section, which ends at 151; at the
    largest double below 1, where 150 more rounds up to 151, the second
    section is already the one highlighted. *)
Example scroll_positions :
  let y1 := PrimFloat.div (Js.ofLong 1) (Js.ofLong 2) in
  let y2 := PrimFloat.next_down (Js.ofLong 1) in
  let boxes :=
    [ {| App.Highlight.sectionId := "hero"; App.Highlight.offsetTop := 0;
         App.Highlight.offsetHeight := 151 |};
      {| App.Highlight.sectionId := "about"; App.Highlight.offsetTop := 151;
         App.Highlight.offsetHeight := 800 |} ] in
  map App.Highlight.isActive
      (App.Highlight.updateActiveNavigation y1 boxes Samples.sectionLinks)
  = [true; false; false] /\
  PrimFloat.ltb y2 (Js.ofLong 1) = true /\
  map App.Highlight.isActive
      (App.Highlight.updateActiveNavigation y2 boxes Samples.sectionLinks)
  = [false; true; false].
Proof. vm_compute. repeat split. Qed.

(** ** The mobile menu *)

Section MobileMenu.
Import App.Menu Props.

Lemma toggleClass_flips c (cs : gset string) : c ∈ toggleClass c cs <-> c ∉ cs.
Proof.
  unfold toggleClass. destruct (bool_decide (c ∈ cs)) eqn:Hb.
  - apply bool_decide_eq_true in Hb. rewrite elem_of_difference, elem_of_singleton. tauto.
  - apply bool_decide_eq_false in Hb. rewrite elem_of_union, elem_of_singleton. tauto.
Qed.

Lemma clickHamburger_inSync m : inSync m -> inSync (clickHamburger m).
Proof. unfold inSync, clickHamburger. simpl. rewrite !toggleClass_flips. tauto. Qed.

Lemma clickNavLink_closed m :
  ("active" ∉ hamburger (clickNavLink m)) /\ ("active" ∉ navMenu (clickNavLink m)).
Proof.
  unfold clickNavLink. simpl. rewrite !elem_of_difference, !elem_of_singleton. tauto.
Qed.

End MobileMenu.

(** The button and the menu open and close together: if they agree to
    begin with they agree after any clicks, on the button or on links; a
    click on a link always leaves both closed, and a click on the button
    always changes the state of both. *)
Theorem menu_opens_and_closes_as_one (m : App.Menu.menu) (cs : list App.Menu.click) :
  (Props.inSync m -> Props.inSync (App.Menu.clicks cs m)) /\
  (("active" ∉ App.Menu.hamburger (App.Menu.clickNavLink m)) /\
   ("active" ∉ App.Menu.navMenu (App.Menu.clickNavLink m))) /\
  ("active" ∈ App.Menu.hamburger (App.Menu.clickHamburger m)
   <-> "active" ∉ App.Menu.hamburger m) /\
  ("active" ∈ App.Menu.navMenu (App.Menu.clickHamburger m)
   <-> "active" ∉ App.Menu.navMenu m).
Proof.
  split; [|split; [apply clickNavLink_closed | split; apply toggleClass_flips]].
  revert m. induction cs as [|[|] rest IH]; intros m Hm; simpl.
  - exact Hm.
  - apply IH, clickHamburger_inSync, Hm.
  - apply IH. destruct (clickNavLink_closed m) as [H1 H2].
    unfold Props.inSync. tauto.
Qed.

Lemma menu_opens_and_closes_as_one_witness :
  Props.inSync
    (App.Menu.clicks [App.Menu.OnHamburger; App.Menu.OnNavLink; App.Menu.OnHamburger]
       {| App.Menu.hamburger := ∅; App.Menu.navMenu := {["nav-menu"]} |}).
Proof.
  apply (proj1 (menu_opens_and_closes_as_one _ _)).
  unfold Props.inSync. simpl. rewrite elem_of_singleton. split.
  - intros H. exfalso. revert H. apply not_elem_of_empty.
  - discriminate.
Defined.

(** ** Opening and closing the lightbox *)

Section Lightboxes.
Import Js App App.Lightbox.

Lemma index_of_nat {A} (l : list A) (i : nat) : index l (Num (Z.of_nat i)) = l !! i.
Proof.
  unfold index. destruct (Z.ltb_spec (Z.of_nat i) 0); [lia|].
  rewrite Nat2Z.id. reflexivity.
Qed.

Lemma without_hidden_open (classes : gset string) :
  negb (bool_decide ("hidden" ∈ classes ∖ {["hidden"]})) = true.
Proof.
  apply negb_true_iff, bool_decide_eq_false.
  intros [_ Hout]%elem_of_difference. apply Hout, elem_of_singleton. reflexivity.
Qed.


End Lightboxes.

(** A click on a gallery item, on a page that has the lightbox and its
    image and caption elements, returns with the lightbox open on that
    item: the cursor on it, its [data-src] as the image, its caption in
    the current language as alternative text and as caption, and the
    page behind no longer scrolling. *)
Theorem click_opens_lightbox_on_item
        (index : nat) (s : App.Lightbox.stage) (item : App.galleryItem)
        (classes : gset string) :
  App.galleryItems (App.gal (App.Lightbox.scene s)) !! index = Some item ->
  App.Lightbox.lightbox s = Some classes ->
  is_Some (App.lightboxImg (App.gal (App.Lightbox.scene s))) ->
  is_Some (App.lightboxCaption (App.gal (App.Lightbox.scene s))) ->
  exists s',
    App.Lightbox.openItem index s = Js.Normal s' /\
    App.currentImageIndex (App.gal (App.Lightbox.scene s')) = Js.Num (Z.of_nat index) /\
    App.lightboxImg (App.gal (App.Lightbox.scene s'))
    = Some {| App.imgSrc := Some (default "null" (App.itemAttrs item !! "data-src"));
              App.imgAlt := App.captionOf (App.currentLang (App.Lightbox.scene s)) item |} /\
    App.lightboxCaption (App.gal (App.Lightbox.scene s'))
    = Some (App.captionOf (App.currentLang (App.Lightbox.scene s)) item) /\
    App.Lightbox.isOpen s' = true /\
    App.Lightbox.overflow s' = "hidden".
Proof.
  destruct s as [[cl rtl d st [items images cur img cap] ts nw tr] lb ov pb nb].
  simpl. intros Hitem -> [im ->] [ca ->].
  unfold App.Lightbox.openItem, App.updateGalleryData, App.showLightboxImage.
  cbn [App.Lightbox.scene App.gal App.set_gal App.setIndex App.galleryItems
       App.galleryImages App.currentImageIndex App.lightboxImg App.lightboxCaption
       App.currentLang App.Lightbox.lightbox].
  rewrite index_of_nat, list_lookup_fmap, Hitem.
  destruct items as [|first rest]; [discriminate Hitem|].
  cbn [map fmap option_fmap option_map].
  eexists. split; [reflexivity|].
  cbn. rewrite without_hidden_open. repeat split.
Qed.

Lemma click_opens_lightbox_on_item_witness :
  exists s',
    App.Lightbox.openItem 1 Samples.closedStage = Js.Normal s' /\
    App.lightboxCaption (App.gal (App.Lightbox.scene s')) = Some "معرض" /\
    App.Lightbox.isOpen s' = true.
Proof.
  destruct (click_opens_lightbox_on_item 1 Samples.closedStage
              {| App.itemAttrs := <["data-src" := "fair.jpg"]> (<["data-caption-ar" := "معرض"]> ∅);
                 App.captionEl := None |}
              {["lightbox"; "hidden"]})
    as (s' & Ho & _ & _ & Hc & Hop & _);
    [reflexivity | reflexivity | eexists; reflexivity | eexists; reflexivity |].
  exists s'. split; [exact Ho|]. split; [|exact Hop].
  rewrite Hc. reflexivity.
Defined.



(** ** Notifications *)

Section Notes.
Import Js App.Notification Props.

Lemma soonest_member ts d : soonest ts = Some d -> exists k, (d, k) ∈ ts.
Proof.
  revert d. induction ts as [|[d0 k0] ts IH]; intros d; simpl; [discriminate|].
  destruct (soonest ts) as [d'|] eqn:He.
  - intros [= <-]. destruct (Nat.min_dec d0 d') as [-> | ->].
    + exists k0. apply list_elem_of_here.
    + destruct (IH d' eq_refl) as [k Hk]. exists k. apply list_elem_of_further, Hk.
  - intros [= <-]. exists k0. apply list_elem_of_here.
Qed.

Lemma soonest_some ts : ts <> [] -> is_Some (soonest ts).
Proof.
  destruct ts as [|[d k] ts]; [congruence|]. intros _. simpl.
  destruct (soonest ts); eauto.
Qed.

Lemma takeAt_member ts d k0 :
  (d, k0) ∈ ts -> exists k rest, takeAt d ts = Some (k, rest) /\ ts ≡ₚ (d, k) :: rest.
Proof.
  induction ts as [|[d' k'] ts IH]; intros Hin.
  - inversion Hin.
  - simpl. destruct (Nat.eqb_spec d' d) as [-> | Hne].
    + exists k', ts. split; reflexivity.
    + apply elem_of_cons in Hin as [Heq | Hin]; [congruence|].
      destruct (IH Hin) as (k & rest & -> & Hp).
      exists k, ((d', k') :: rest). split; [reflexivity|].
      rewrite Hp. apply Permutation_swap.
Qed.

(** The timer that fires is one of those pending, and the others stay. *)
Lemma fire_picks b :
  pending b <> [] ->
  exists d k rest,
    pending b ≡ₚ (d, k) :: rest /\
    fire b = runCallback k {| attached := attached b; pending := rest;
                              clock := Nat.max d (clock b); created := created b |}.
Proof.
  intros Hne. unfold fire.
  destruct (soonest_some _ Hne) as [d Hd]. rewrite Hd.
  destruct (soonest_member _ _ Hd) as [k0 Hk0].
  destruct (takeAt_member _ _ _ Hk0) as (k & rest & -> & Hp).
  exists d, k, rest. split; [exact Hp | reflexivity].
Qed.

Lemma timersAhead_perm ts ts' : ts ≡ₚ ts' -> timersAhead ts = timersAhead ts'.
Proof.
  induction 1 as [|t l l' _ IH|t t' l|l l' l'' _ IH1 _ IH2]; simpl.
  - reflexivity.
  - rewrite IH. reflexivity.
  - destruct (snd t), (snd t'); lia.
  - congruence.
Qed.

Lemma timersAhead_app ts ts' : timersAhead (ts ++ ts') = timersAhead ts + timersAhead ts'.
Proof.
  induction ts as [|t ts IH]; simpl; [reflexivity|].
  rewrite IH. destruct (snd t); lia.
Qed.

Lemma timersAhead_zero ts : timersAhead ts = 0 -> ts = [].
Proof. destruct ts as [|t ts]; [reflexivity|]. simpl. destruct (snd t); lia. Qed.

Lemma restyle_ident n o t note : ident (restyle n o t note) = ident note.
Proof. unfold restyle. destruct (Nat.eqb (ident note) n); reflexivity. Qed.

Lemma doomed_shown text type isRTL b :
  doomed (created b) (showNotification text type isRTL b).
Proof.
  split; simpl.
  - repeat constructor.
  - intros _. left. exists (clock b + 5000), isRTL.
    apply elem_of_app. right. right. left.
Qed.

Lemma doomed_fire n b :
  doomed n b -> pending b <> [] ->
  doomed n (fire b) /\ S (timersAhead (pending (fire b))) = timersAhead (pending b).
Proof.
  intros [Hall Hwill] Hne.
  destruct (fire_picks b Hne) as (d & k & rest & Hp & ->).
  rewrite (timersAhead_perm _ _ Hp).
  assert (Hrest : forall t, t ∈ pending b -> t <> (d, k) -> t ∈ rest).
  { intros t Ht Hneq. rewrite Hp in Ht. apply elem_of_cons in Ht as [Ht|Ht];
      [contradiction | exact Ht]. }
  destruct k as [m | m r | m]; simpl.
  - split; [|reflexivity]. split.
    + apply Forall_forall. intros note Hin. apply list_elem_of_fmap in Hin as (x & -> & Hx).
      rewrite restyle_ident. rewrite Forall_forall in Hall. apply Hall, Hx.
    + intros Hatt. destruct Hwill as [(d' & r' & Hw) | (d' & Hw)].
      * intros Hnil. apply Hatt. rewrite Hnil. reflexivity.
      * left. exists d', r'. apply Hrest; [exact Hw | discriminate].
      * right. exists d'. apply Hrest; [exact Hw | discriminate].
  - split; [|rewrite timersAhead_app; simpl; lia]. split.
    + apply Forall_forall. intros note Hin. apply list_elem_of_fmap in Hin as (x & -> & Hx).
      rewrite restyle_ident. rewrite Forall_forall in Hall. apply Hall, Hx.
    + intros Hatt. destruct (decide (m = n)) as [-> | Hm].
      * right. exists (Nat.max d (clock b) + 300).
        apply elem_of_app. right. left.
      * destruct Hwill as [(d' & r' & Hw) | (d' & Hw)].
        -- intros Hnil. apply Hatt. rewrite Hnil. reflexivity.
        -- left. exists d', r'. apply elem_of_app. left.
           apply Hrest; [exact Hw | congruence].
        -- right. exists d'. apply elem_of_app. left.
           apply Hrest; [exact Hw | discriminate].
  - split; [|reflexivity]. split.
    + apply Forall_forall. intros note Hin.
      apply list_elem_of_In, List.filter_In in Hin as [Hin _].
      rewrite Forall_forall in Hall. apply Hall, list_elem_of_In, Hin.
    + intros Hatt. destruct (decide (m = n)) as [-> | Hm].
      * exfalso. apply Hatt. clear -Hall.
        induction Hall as [|note l Hn _ IH]; [reflexivity|]. simpl.
        rewrite Hn, Nat.eqb_refl. simpl. exact IH.
      * destruct Hwill as [(d' & r' & Hw) | (d' & Hw)].
        -- intros Hnil. apply Hatt. rewrite Hnil. reflexivity.
        -- left. exists d', r'. apply Hrest; [exact Hw | discriminate].
        -- right. exists d'. apply Hrest; [exact Hw | congruence].
Qed.

Lemma doomed_runs_out n : forall ahead b,
  timersAhead (pending b) = ahead -> doomed n b ->
  attached (Nat.iter ahead fire b) = [] /\ pending (Nat.iter ahead fire b) = [].
Proof.
  induction ahead as [|ahead IH]; intros b Hw Hd.
  - simpl. apply timersAhead_zero in Hw. split; [|exact Hw].
    destruct Hd as [_ Hwill]. destruct (attached b) as [|note l]; [reflexivity|].
    destruct Hwill as [(d & r & Hin) | (d & Hin)]; [discriminate | |];
      rewrite Hw in Hin; inversion Hin.
  - rewrite Nat.iter_succ_r.
    assert (Hne : pending b <> []) by (intros Hnil; rewrite Hnil in Hw; discriminate).
    destruct (doomed_fire n b Hd Hne) as [Hd' Hw'].
    apply IH; [lia | exact Hd'].
Qed.

Lemma noteStep_keeps_one e b :
  length (attached b) <= 1 -> length (attached (noteStep e b)) <= 1.
Proof.
  intros H. destruct e as [text type isRTL| |]; simpl.
  - lia.
  - unfold clickShown. destruct (attached b) as [|note l] eqn:Ha; [rewrite Ha; exact H|].
    unfold dismiss, hideNotification. simpl. rewrite length_map, Ha. exact H.
  - unfold fire. destruct (soonest (pending b)) as [d|]; [|exact H].
    destruct (takeAt d (pending b)) as [[k rest]|]; [|exact H].
    destruct k as [m | m r | m]; simpl; rewrite ?length_map; try exact H.
    etransitivity; [apply List.filter_length_le | exact H].
Qed.

End Notes.

(** Showing a notification replaces whatever was on show by one new
    notification with the given text, still transparent; and from then
    on, however showing, clicking and timers follow one another, at most
    one notification is on the page. *)
Theorem at_most_one_notification
        (text type : string) (isRTL : bool) (b : App.Notification.board)
        (events : list Props.noteEvent) :
  (exists note,
     App.Notification.attached (App.Notification.showNotification text type isRTL b)
     = [note] /\
     App.Notification.message note = text /\
     App.Notification.opacity note = "0") /\
  length (App.Notification.attached
            (Props.notePlay events
               (App.Notification.showNotification text type isRTL b))) <= 1.
Proof.
  split.
  - eexists. split; [reflexivity|]. split; reflexivity.
  - assert (H : forall es b0, length (App.Notification.attached b0) <= 1 ->
                              length (App.Notification.attached (Props.notePlay es b0)) <= 1).
    { induction es as [|e es IH]; intros b0 Hb; simpl; [exact Hb|].
      apply IH, noteStep_keeps_one, Hb. }
    apply H. simpl. lia.
Qed.

(** A notification goes away by itself: after it is shown, once every
    timer that is or comes to be pending has fired, no notification is
    on the page and no timer is left. *)
Theorem notification_disappears_by_itself
        (text type : string) (isRTL : bool) (b : App.Notification.board) :
  let shown := App.Notification.showNotification text type isRTL b in
  let settled := Nat.iter (Props.timersAhead (App.Notification.pending shown))
                          App.Notification.fire shown in
  App.Notification.attached settled = [] /\
  App.Notification.pending settled = [].
Proof.
  cbv zeta. eapply doomed_runs_out; [reflexivity | apply doomed_shown].
Qed.

(** ** Submitting the forms *)

Section Submitting.
Import Js App.Form App.Submit Spec Props.

Variable proto : prototype.

Lemma failing_decisive a :
  failing (Some a) = match decisive (App.Form.control (body a)) with
                     | Some _ => true
                     | None => false
                     end.
Proof.
  unfold failing, decisive, order. cbn [existsb List.filter].
  destruct (fails _ Email), (fails _ Required), (fails _ Select), (fails _ MinLength);
    reflexivity.
Qed.

Lemma check_supported lang c v :
  supported lang ->
  check proto lang c v = Normal (validated proto lang <$> c, negb (failing c) && v).
Proof.
  intros Hs. destruct (supported_messages lang Hs) as [m Hm].
  destruct c as [ctl|]; [|reflexivity].
  rewrite failing_decisive.
  unfold check, validated, validateField. cbn [fmap option_fmap option_map].
  rewrite (verdict_decisive proto lang m _ Hm).
  destruct (decisive (App.Form.control (body ctl))); reflexivity.
Qed.

Lemma validated_rejected lang a :
  supported lang ->
  valueOf (validated proto lang a) = valueOf a /\
  (marked (validated proto lang a) <-> failing (Some a) = true) /\
  (forall r, decisive (App.Form.control (body a)) = Some r ->
             last (siblings (body (validated proto lang a))) = Some (messageNode lang r)).
Proof.
  intros Hs. destruct (supported_messages lang Hs) as [m Hm].
  rewrite failing_decisive.
  unfold valueOf, marked, validated, validateField.
  rewrite (verdict_decisive proto lang m _ Hm).
  destruct (decisive (App.Form.control (body a))) as [r|]; cbn.
  - split; [reflexivity|]. split.
    + split; [reflexivity | intros _].
      apply elem_of_union. left. apply elem_of_singleton. reflexivity.
    + intros r' [= <-]. rewrite (errorElement_messageNode lang m r Hm). apply last_snoc.
  - split; [reflexivity|]. split; [|discriminate]. split; [|discriminate].
    intros Hin. apply elem_of_difference in Hin as [_ Hn].
    exfalso. apply Hn, elem_of_singleton. reflexivity.
Qed.

Lemma tidy_validated_accepted lang a :
  supported lang ->
  failing (Some a) = false ->
  valueOf (tidy (validated proto lang a)) = defaultValue a /\
  ~ marked (tidy (validated proto lang a)).
Proof.
  intros Hs. destruct (supported_messages lang Hs) as [m Hm].
  rewrite failing_decisive.
  unfold valueOf, marked, validated, validateField, tidy.
  rewrite (verdict_decisive proto lang m _ Hm).
  destruct (decisive (App.Form.control (body a))); [discriminate|].
  intros _. cbn. case_bool_decide; cbn; (split; [reflexivity|]);
    rewrite ?elem_of_difference, elem_of_singleton; tauto.
Qed.

Lemma tidy_default a : valueOf (tidy a) = defaultValue a.
Proof. unfold valueOf, tidy. case_bool_decide; reflexivity. Qed.

Lemma others_reset others :
  Forall2 (fun a b => valueOf b = defaultValue a) others (map tidy others).
Proof. induction others; constructor; [apply tidy_default | assumption]. Qed.

Lemma field_accepted lang c :
  supported lang ->
  failing c = false ->
  option_Forall2 (fun a b => valueOf b = defaultValue a /\ ~ marked b)
                 c (tidy <$> (validated proto lang <$> c)).
Proof.
  intros Hs. destruct c as [a|]; intros Hp; constructor.
  apply tidy_validated_accepted; assumption.
Qed.

Lemma field_rejected lang c :
  supported lang ->
  option_Forall2
    (fun a b =>
       valueOf b = valueOf a /\
       (marked b <-> failing (Some a) = true) /\
       (forall r, decisive (App.Form.control (body a)) = Some r ->
                  last (siblings (body b)) = Some (messageNode lang r)))
    c (validated proto lang <$> c).
Proof.
  intros Hs. destruct c as [a|]; constructor. apply validated_rejected, Hs.
Qed.

Lemma contactThanks_supported lang :
  supported lang -> contactThanks lang = thanksForContact lang.
Proof. intros [-> | ->]; reflexivity. Qed.

Lemma membershipThanks_supported lang :
  supported lang -> membershipThanks lang = thanksForInterest lang.
Proof. intros [-> | ->]; reflexivity. Qed.

Lemma submitContact_supported lang isRTL f :
  supported lang ->
  exists f',
    submitContact proto lang isRTL f = Normal f' /\
    allOrNothing lang (thanksForContact lang)
                 (contactFields f) (contactOthers f) (contactBoard f)
                 (contactFields f') (contactOthers f') (contactBoard f').
Proof.
  intros Hs. unfold submitContact. rewrite !(check_supported _ _ _ Hs).
  unfold allOrNothing, contactFields. cbn [existsb].
  destruct (failing (contactName f)) eqn:H1,
           (failing (contactEmail f)) eqn:H2,
           (failing (contactSubject f)) eqn:H3,
           (failing (contactMessage f)) eqn:H4;
    cbn [andb orb negb]; eexists; (split; [reflexivity|]);
    try (split; [reflexivity|]; split; [reflexivity|];
         cbn [contactName contactEmail contactSubject contactMessage];
         repeat constructor; apply field_rejected, Hs).
  split.
  { eexists. split; [reflexivity|]. split; [|reflexivity].
    apply contactThanks_supported, Hs. }
  split; [|apply others_reset].
  cbn [contactName contactEmail contactSubject contactMessage].
  repeat constructor; apply field_accepted; assumption.
Qed.

Lemma submitMembership_supported lang isRTL f :
  supported lang ->
  exists f',
    submitMembership proto lang isRTL f = Normal f' /\
    allOrNothing lang (thanksForInterest lang)
                 (membershipFields f) (membershipOthers f) (membershipBoard f)
                 (membershipFields f') (membershipOthers f') (membershipBoard f').
Proof.
  intros Hs. unfold submitMembership. rewrite !(check_supported _ _ _ Hs).
  unfold allOrNothing, membershipFields. cbn [existsb].
  destruct (failing (studentName f)) eqn:H1,
           (failing (studentEmail f)) eqn:H2,
           (failing (yearLevel f)) eqn:H3;
    cbn [andb orb negb]; eexists; (split; [reflexivity|]);
    try (split; [reflexivity|]; split; [reflexivity|];
         cbn [studentName studentEmail yearLevel];
         repeat constructor; apply field_rejected, Hs).
  split.
  { eexists. split; [reflexivity|]. split; [|reflexivity].
    apply membershipThanks_supported, Hs. }
  split; [|apply others_reset].
  cbn [studentName studentEmail yearLevel].
  repeat constructor; apply field_accepted; assumption.
Qed.

End Submitting.

(** Under a supported language a submit never raises and is all or
    nothing, for the contact form and the membership form alike, each
    field sitting in a parent of its own.  When none of the fields the
    handler looks up fails a rule, one success notification with the
    thanks of the language is shown, every control is back at its default
    value and no looked-up field is marked.  Otherwise no notification is
    shown and no value is touched, and every field that fails, not the
    first one only, is marked and is followed by the localized message
    node of its failing rule that is checked last, while the fields that
    do not fail are left unmarked. *)
Theorem submit_is_all_or_nothing
        (proto : Js.prototype) (lang : string) (isRTL : bool)
        (f : App.Submit.contactForm) (g : App.Submit.membershipForm) :
  Spec.supported lang ->
  (exists f',
     App.Submit.submitContact proto lang isRTL f = Js.Normal f' /\
     Props.allOrNothing lang (Spec.thanksForContact lang)
       (Props.contactFields f) (App.Submit.contactOthers f) (App.Submit.contactBoard f)
       (Props.contactFields f') (App.Submit.contactOthers f') (App.Submit.contactBoard f')) /\
  (exists g',
     App.Submit.submitMembership proto lang isRTL g = Js.Normal g' /\
     Props.allOrNothing lang (Spec.thanksForInterest lang)
       (Props.membershipFields g) (App.Submit.membershipOthers g)
       (App.Submit.membershipBoard g)
       (Props.membershipFields g') (App.Submit.membershipOthers g')
       (App.Submit.membershipBoard g')).
Proof.
  intros Hs. split.
  - apply submitContact_supported, Hs.
  - apply submitMembership_supported, Hs.
Qed.

Lemma submit_is_all_or_nothing_witness :
  Spec.supported "ar" /\
  (exists f',
     App.Submit.submitContact Examples.objectPrototype "ar" true Samples.badContact
     = Js.Normal f' /\
     Props.rejected "ar"
       (Props.contactFields Samples.badContact)
       (App.Submit.contactOthers Samples.badContact)
       (App.Submit.contactBoard Samples.badContact)
       (Props.contactFields f') (App.Submit.contactOthers f') (App.Submit.contactBoard f')) /\
  (exists g',
     App.Submit.submitMembership Examples.objectPrototype "ar" true Samples.goodMembership
     = Js.Normal g' /\
     Props.accepted "شكراً لاهتمامك! سنتواصل معك قريباً بخصوص فرص العضوية."
       (Props.membershipFields Samples.goodMembership)
       (App.Submit.membershipOthers Samples.goodMembership)
       (Props.membershipFields g') (App.Submit.membershipOthers g')
       (App.Submit.membershipBoard g')).
Proof.
  assert (Hs : Spec.supported "ar") by (right; reflexivity).
  split; [exact Hs|].
  exact (submit_is_all_or_nothing Examples.objectPrototype "ar" true
           Samples.badContact Samples.goodMembership Hs).
Defined.
